(** * chess-tools: attack/defense queries, pins and move pre-analysis

    A shallow embedding of [board.py], [attacks.py], [tactics.py] and
    [analyze_move.py], followed by the properties established about them.

    Conventions of the embedding:
    - Python [int] is [Z]; [//] and [%] by the positive constant 8 are
      [Z.div] and [Z.modulo] (both floor towards minus infinity, as in Python).
    - Python [str] is [string] (a byte string; non-ASCII text is its UTF-8
      encoding).
    - A Python [dict] is an insertion-ordered association list with pairwise
      distinct keys ([dict.wf]).
    - A Python [set] of squares is a duplicate-free list; only membership
      is observable.
    - [None]-or-value is [option]; a raised exception is [None] in the
      functions that can raise (FEN parsing only).
    - Objects that are mutated after construction (the [Board] and its
      [pieces] dict) live in an explicit heap in the part that mutates them
      ([simulate_move]); the read-only queries take a snapshot value. *)

From Stdlib Require Import ZArith List String Ascii Bool Lia Arith.
From Stdlib Require Import DecimalString Decimal DecimalZ DecimalPos.
Import ListNotations.

Local Open Scope string_scope.
Local Open Scope list_scope.
Local Open Scope Z_scope.

(* ------------------------------------------------------------------ *)
(** ** Python dictionaries with integer keys *)

Module dict.
Section Dict.
Context {V : Type}.

Definition t := list (Z * V).

Definition empty : t := [].

(** [d.get(k)] *)
Fixpoint get (d : t) (k : Z) : option V :=
match d with
| [] => None
| (k', v) :: d' => if k' =? k then Some v else get d' k
end.

(** [d[k] = v]: an existing key keeps its position, a new key goes last. *)
Fixpoint setitem (d : t) (k : Z) (v : V) : t :=
match d with
| [] => [(k, v)]
| (k', v') :: d' =>
    if k' =? k then (k', v) :: d' else (k', v') :: setitem d' k v
end.

(** The dictionary left by [d.pop(k, None)]. *)
Fixpoint remove (d : t) (k : Z) : t :=
match d with
| [] => []
| (k', v') :: d' => if k' =? k then d' else (k', v') :: remove d' k
end.

(** [d.pop(k, None)]: the value returned and the dictionary left. *)
Definition pop (d : t) (k : Z) : option V * t := (get d k, remove d k).

(** [k in d] *)
Definition contains (d : t) (k : Z) : bool :=
match get d k with Some _ => true | None => false end.

(** [d.copy()]: the content of the fresh dictionary. *)
Definition copy (d : t) : t := d.

(** [d.items()] *)
Definition items (d : t) : list (Z * V) := d.

(** [len(d)] *)
Definition len (d : t) : Z := Z.of_nat (List.length d).

(** Representation invariant: keys are pairwise distinct. *)
Definition wf (d : t) : Prop := NoDup (map fst d).
End Dict.
Arguments t : clear implicits.
End dict.

(* ------------------------------------------------------------------ *)
(** ** Small pieces of Python's [str] and [int] behaviour *)

(** Text is ASCII: a [string] stands for a [str] all of whose characters
    are below 128, one [ascii] per character.  On such text indexing,
    [isdigit], [isspace], [split], [lower], [upper] and [int] below are
    Python's; characters from 128 on are outside the embedding. *)
Module py.

(** [str(n)] for an [int]. *)
Definition str_of_int (n : Z) : string := NilZero.string_of_int (Z.to_int n).

Definition ord (c : ascii) : Z := Z.of_nat (nat_of_ascii c).

(** [chr(n)], used here only with [97 <= n <= 104]. *)
Definition chr (n : Z) : ascii := ascii_of_nat (Z.to_nat n).

Definition isupper (c : ascii) : bool := (65 <=? ord c) && (ord c <=? 90).
Definition islower (c : ascii) : bool := (97 <=? ord c) && (ord c <=? 122).
Definition isdigit (c : ascii) : bool := (48 <=? ord c) && (ord c <=? 57).

Definition lower (c : ascii) : ascii := if isupper c then chr (ord c + 32) else c.
Definition upper (c : ascii) : ascii := if islower c then chr (ord c - 32) else c.

(** Whitespace as [str.split()] sees it among the ASCII characters. *)
Definition isspace (c : ascii) : bool :=
  let n := ord c in
  ((9 <=? n) && (n <=? 13)) || ((28 <=? n) && (n <=? 32)).

Definition str1 (c : ascii) : string := String c EmptyString.

(** [s.split()]: maximal runs of non-whitespace characters. *)
Fixpoint split_aux (s : string) (cur : string) : list string :=
  match s with
  | EmptyString => if (String.length cur =? 0)%nat then [] else [cur]
  | String c s' =>
      if isspace c
      then (if (String.length cur =? 0)%nat then split_aux s' EmptyString
            else cur :: split_aux s' EmptyString)
      else split_aux s' (String.append cur (str1 c))
  end.
Definition split (s : string) : list string := split_aux s EmptyString.

(** Digits of a decimal literal after the sign: groups of digits separated
    by single underscores.  [prev_digit] tells whether the previous
    character was a digit. *)
Fixpoint int_digits (s : string) (prev_digit : bool) (acc : Z) : option Z :=
  match s with
  | EmptyString => if prev_digit then Some acc else None
  | String c s' =>
      if isdigit c then int_digits s' true (10 * acc + (ord c - 48))
      else if Ascii.eqb c "_"%char
           then (if prev_digit then int_digits s' false acc else None)
           else None
  end.

(** [int(s)] on a string without surrounding whitespace; [None] is
    [ValueError]. *)
Definition int (s : string) : option Z :=
  match s with
  | String "+"%char s' => int_digits s' false 0
  | String "-"%char s' => option_map Z.opp (int_digits s' false 0)
  | _ => int_digits s false 0
  end.

(** A set of hashable values: [add] keeps the list duplicate-free. *)
Section PySet.
Context {A : Type} (eqb : A -> A -> bool).
Definition set_contains (x : A) (s : list A) : bool := existsb (eqb x) s.
Definition set_add (x : A) (s : list A) : list A :=
  if set_contains x s then s else s ++ [x].
End PySet.

(** [len(l)] *)
Definition len {A : Type} (l : list A) : Z := Z.of_nat (List.length l).

(** The plain data the analyses return: [None], booleans, integers,
    strings, lists, tuples and dictionaries with string keys (in the order
    the dict literal lists them). *)
#[local] Unset Elimination Schemes.
Inductive value :=
| VNone
| VBool (b : bool)
| VInt (n : Z)
| VStr (s : string)
| VList (l : list value)
| VTuple (l : list value)
| VDict (d : list (string * value)).
#[local] Set Elimination Schemes.

(** Truth value of such a value in an [if]. *)
Definition truthy (v : value) : bool :=
  match v with
  | VNone => false
  | VBool b => b
  | VInt n => negb (n =? 0)
  | VStr s => negb (String.eqb s "")
  | VList l | VTuple l => negb (Nat.eqb (List.length l) 0)
  | VDict d => negb (Nat.eqb (List.length d) 0)
  end.

(** Concatenation of the pieces of an f-string. *)
Definition fstr (parts : list string) : string := String.concat "" parts.

(** [d.get(k)] on such a dictionary; [None] when the key is absent. *)
Fixpoint lookup (d : list (string * value)) (k : string) : option value :=
  match d with
  | [] => None
  | (k', v) :: d' => if String.eqb k' k then Some v else lookup d' k
  end.

(** [k in d] *)
Definition has_key (d : list (string * value)) (k : string) : bool :=
  match lookup d k with Some _ => true | None => false end.

Definition keys (d : list (string * value)) : list string := map fst d.

End py.

(* ------------------------------------------------------------------ *)
(** ** board.py *)

Module board.

Inductive Color := WHITE | BLACK.

Definition Color_eqb (a b : Color) : bool :=
  match a, b with
  | WHITE, WHITE | BLACK, BLACK => true
  | _, _ => false
  end.

(** [Color.opposite] *)
Definition opposite (c : Color) : Color :=
  if Color_eqb c WHITE then BLACK else WHITE.

Inductive PieceType := PAWN | KNIGHT | BISHOP | ROOK | QUEEN | KING.

Definition PieceType_eqb (a b : PieceType) : bool :=
  match a, b with
  | PAWN, PAWN | KNIGHT, KNIGHT | BISHOP, BISHOP
  | ROOK, ROOK | QUEEN, QUEEN | KING, KING => true
  | _, _ => false
  end.

(** [PieceType.value] *)
Definition PieceType_value (t : PieceType) : ascii :=
  match t with
  | PAWN => "p" | KNIGHT => "n" | BISHOP => "b"
  | ROOK => "r" | QUEEN => "q" | KING => "k"
  end%char.

(** [PieceType(c)]; [None] is [ValueError]. *)
Definition PieceType_of_value (c : ascii) : option PieceType :=
  if Ascii.eqb c "p" then Some PAWN
  else if Ascii.eqb c "n" then Some KNIGHT
  else if Ascii.eqb c "b" then Some BISHOP
  else if Ascii.eqb c "r" then Some ROOK
  else if Ascii.eqb c "q" then Some QUEEN
  else if Ascii.eqb c "k" then Some KING
  else None.

Record Piece := mkPiece { piece_type : PieceType; color : Color }.

(** [Piece.__str__] *)
Definition Piece_str (p : Piece) : string :=
  let char := PieceType_value (piece_type p) in
  py.str1 (if Color_eqb (color p) WHITE then py.upper char else char).

(** [Piece.from_char] *)
Definition from_char (char : ascii) : option Piece :=
  let c := if py.isupper char then WHITE else BLACK in
  match PieceType_of_value (py.lower char) with
  | Some t => Some (mkPiece t c)
  | None => None
  end.

Record Square := mkSquare { index : Z }.

Definition Square_eqb (a b : Square) : bool := index a =? index b.

(** [Square.file], [Square.rank] *)
Definition file (s : Square) : Z := index s mod 8.
Definition rank (s : Square) : Z := index s / 8.

Definition file_char (s : Square) : string := py.str1 (py.chr (py.ord "a" + file s)).
Definition rank_char (s : Square) : string := py.str_of_int (rank s + 1).

(** [Square.name], which is also [Square.__str__] *)
Definition name (s : Square) : string := String.append (file_char s) (rank_char s).

(** [Square.from_algebraic] on ASCII text; [None] is [IndexError] or
    [ValueError]. *)
Definition from_algebraic (nm : string) : option Square :=
  match nm with
  | String c0 (String c1 _) =>
      let file := py.ord (py.lower c0) - py.ord "a" in
      match py.int (py.str1 c1) with
      | Some r => let rank := r - 1 in Some (mkSquare (rank * 8 + file))
      | None => None
      end
  | _ => None
  end.

(** [Square.offset] *)
Definition offset (s : Square) (file_delta rank_delta : Z) : option Square :=
  let new_file := file s + file_delta in
  let new_rank := rank s + rank_delta in
  if (0 <=? new_file) && (new_file <=? 7) && (0 <=? new_rank) && (new_rank <=? 7)
  then Some (mkSquare (new_rank * 8 + new_file))
  else None.

(** The attributes of a [Board], with the content of its [pieces] dict. *)
Record Board := mkBoard {
  pieces : dict.t Piece;
  turn : Color;
  castling_rights : string;
  en_passant : option Square;
  halfmove_clock : Z;
  fullmove_number : Z
}.

(** [Board.__init__] *)
Definition Board_init : Board := mkBoard dict.empty WHITE "KQkq" None 0 1.

(** [Board.get] *)
Definition get (b : Board) (square : Square) : option Piece :=
  dict.get (pieces b) (index square).

Definition with_pieces (b : Board) (d : dict.t Piece) : Board :=
  mkBoard d (turn b) (castling_rights b) (en_passant b)
          (halfmove_clock b) (fullmove_number b).

(** The board left by [Board.set]. *)
Definition set (b : Board) (square : Square) (piece : option Piece) : Board :=
  match piece with
  | None => with_pieces b (snd (dict.pop (pieces b) (index square)))
  | Some p => with_pieces b (dict.setitem (pieces b) (index square) p)
  end.

(** [Board.is_empty] *)
Definition is_empty (b : Board) (square : Square) : bool :=
  negb (dict.contains (pieces b) (index square)).

(** [Board.get_pieces_by_color] *)
Definition get_pieces_by_color (b : Board) (c : Color) : list (Square * Piece) :=
  flat_map (fun kv : Z * Piece =>
              let (idx, piece) := kv in
              if Color_eqb (color piece) c then [(mkSquare idx, piece)] else [])
           (dict.items (pieces b)).

(** [Board.get_pieces_by_type] *)
Definition get_pieces_by_type (b : Board) (t : PieceType) (c : option Color)
  : list (Square * Piece) :=
  flat_map (fun kv : Z * Piece =>
              let (idx, piece) := kv in
              if PieceType_eqb (piece_type piece) t
              then match c with
                   | None => [(mkSquare idx, piece)]
                   | Some c' => if Color_eqb (color piece) c'
                                then [(mkSquare idx, piece)] else []
                   end
              else [])
           (dict.items (pieces b)).

(** [Board.find_king] *)
Definition find_king (b : Board) (c : Color) : option Square :=
  match get_pieces_by_type b KING (Some c) with
  | k :: _ => Some (fst k)
  | [] => None
  end.

(** One iteration of the piece-placement loop of [from_fen], on the
    loop state (pieces, rank, file). *)
Definition place_char (st : dict.t Piece * Z * Z) (char : ascii)
  : option (dict.t Piece * Z * Z) :=
  let '(d, rank, file) := st in
  if Ascii.eqb char "/" then Some (d, rank - 1, 0)
  else if py.isdigit char then
    match py.int (py.str1 char) with
    | Some n => Some (d, rank, file + n)
    | None => None
    end
  else
    let square_idx := rank * 8 + file in
    match from_char char with
    | Some p => Some (dict.setitem d square_idx p, rank, file + 1)
    | None => None
    end.

Fixpoint place_all (s : string) (st : dict.t Piece * Z * Z)
  : option (dict.t Piece * Z * Z) :=
  match s with
  | EmptyString => Some st
  | String c s' =>
      match place_char st c with
      | Some st' => place_all s' st'
      | None => None
      end
  end.

(** [Board.from_fen] on ASCII text; [None] when the Python raises. *)
Definition from_fen (fen : string) : option Board :=
  let parts := py.split fen in
  match parts with
  | [] => None
  | piece_placement :: _ =>
    match place_all piece_placement (dict.empty, 7, 0) with
    | None => None
    | Some (d, _, _) =>
      let turn :=
        match nth_error parts 1 with
        | Some p1 => if String.eqb p1 "w" then WHITE else BLACK
        | None => WHITE
        end in
      let castling :=
        match nth_error parts 2 with
        | Some p2 => if negb (String.eqb p2 "-") then p2 else ""
        | None => "KQkq"
        end in
      let ep :=
        match nth_error parts 3 with
        | Some p3 => if negb (String.eqb p3 "-")
                     then option_map Some (from_algebraic p3)
                     else Some None
        | None => Some None
        end in
      let half :=
        match nth_error parts 4 with
        | Some p4 => py.int p4
        | None => Some 0
        end in
      let full :=
        match nth_error parts 5 with
        | Some p5 => py.int p5
        | None => Some 1
        end in
      match ep, half, full with
      | Some ep, Some half, Some full => Some (mkBoard d turn castling ep half full)
      | _, _, _ => None
      end
    end
  end.

(** [Board.starting_position] *)
Definition starting_position : option Board :=
  from_fen "rnbqkbnr/pppppppp/8/8/8/8/PPPPPPPP/RNBQKBNR w KQkq - 0 1".

(** [Color.value] *)
Definition Color_value (c : Color) : string :=
  match c with WHITE => "w" | BLACK => "b" end.

(** One iteration of the inner loop of [to_fen] over the files of a rank,
    on the loop state (row, empty_count). *)
Definition fen_file (b : Board) (rank : Z) (st : string * Z) (file : Z)
  : string * Z :=
  let (row, empty_count) := st in
  let square_idx := rank * 8 + file in
  match dict.get (pieces b) square_idx with
  | Some piece =>
      let row :=
        if empty_count >? 0
        then String.append row (py.str_of_int empty_count)
        else row in
      (String.append row (Piece_str piece), 0)
  | None => (row, empty_count + 1)
  end.

(** The row of [to_fen] for one rank: the inner loop over the files, then
    the trailing count. *)
Definition fen_row (b : Board) (rank : Z) : string :=
  let '(row, empty_count) :=
    fold_left (fen_file b rank) [0; 1; 2; 3; 4; 5; 6; 7] ("", 0) in
  if empty_count >? 0 then String.append row (py.str_of_int empty_count) else row.

(** The [piece_placement] of [to_fen]: the rows of ranks 8 down to 1 joined
    by slashes. *)
Definition fen_placement (b : Board) : string :=
  String.concat "/" (map (fen_row b) [7; 6; 5; 4; 3; 2; 1; 0]).

(** [Board.to_fen] *)
Definition to_fen (b : Board) : string :=
  let piece_placement := fen_placement b in
  let turn := Color_value (turn b) in
  let castling :=
    if negb (String.eqb (castling_rights b) "") then castling_rights b else "-" in
  let ep := match en_passant b with Some s => name s | None => "-" end in
  py.fstr [piece_placement; " "; turn; " "; castling; " "; ep; " ";
           py.str_of_int (halfmove_clock b); " ";
           py.str_of_int (fullmove_number b)].

(** [sq] *)
Definition sq (nm : string) : option Square := from_algebraic nm.

End board.

(* ------------------------------------------------------------------ *)
(** ** attacks.py *)

Module attacks.
Import board.

Definition KNIGHT_OFFSETS : list (Z * Z) :=
  [(1, 2); (2, 1); (2, -1); (1, -2);
   (-1, -2); (-2, -1); (-2, 1); (-1, 2)].

Definition KING_OFFSETS : list (Z * Z) :=
  [(0, 1); (1, 1); (1, 0); (1, -1);
   (0, -1); (-1, -1); (-1, 0); (-1, 1)].

Definition BISHOP_DIRECTIONS : list (Z * Z) := [(1, 1); (1, -1); (-1, 1); (-1, -1)].
Definition ROOK_DIRECTIONS : list (Z * Z) := [(0, 1); (0, -1); (1, 0); (-1, 0)].
Definition QUEEN_DIRECTIONS : list (Z * Z) := BISHOP_DIRECTIONS ++ ROOK_DIRECTIONS.

(** [by_color is None or piece.color == by_color] *)
Definition color_matches (by_color : option Color) (piece : Piece) : bool :=
  match by_color with
  | None => true
  | Some c => Color_eqb (color piece) c
  end.

(** [t in valid_types] *)
Definition type_in (t : PieceType) (valid_types : list PieceType) : bool :=
  existsb (PieceType_eqb t) valid_types.

(** Iterations granted to a [while True] ray walk.  A walk calls
    [offset] once per iteration and the ninth call in a row is always
    off the board ([ray_nine_steps_off_board]), so eight iterations reach
    every [break] of the Python loop ([sliding_walk_fuel]). *)
Definition WALK_FUEL : nat := 8%nat.

(** The [while True] loop of [check_sliding] from [current] along
    [(dx, dy)]: what it appends to [attackers]. *)
Fixpoint sliding_walk (fuel : nat) (b : Board) (by_color : option Color)
         (valid_types : list PieceType) (current : Square) (dx dy : Z)
  : list (Square * Piece) :=
  match fuel with
  | O => []
  | S fuel' =>
      match offset current dx dy with
      | None => []
      | Some next_sq =>
          match get b next_sq with
          | Some piece =>
              if type_in (piece_type piece) valid_types
              then (if color_matches by_color piece then [(next_sq, piece)] else [])
              else []
          | None => sliding_walk fuel' b by_color valid_types next_sq dx dy
          end
      end
  end.

(** The nested [check_sliding] of [get_attackers]. *)
Definition check_sliding (b : Board) (target : Square) (by_color : option Color)
           (directions : list (Z * Z)) (valid_types : list PieceType)
  : list (Square * Piece) :=
  flat_map (fun d : Z * Z =>
              let (dx, dy) := d in
              sliding_walk WALK_FUEL b by_color valid_types target dx dy)
           directions.

(** First loop of [get_attackers]: knight attackers. *)
Definition knight_attackers (b : Board) (target : Square) (by_color : option Color)
  : list (Square * Piece) :=
  flat_map (fun off : Z * Z =>
              match offset target (fst off) (snd off) with
              | Some attacker_sq =>
                  match get b attacker_sq with
                  | Some piece =>
                      if PieceType_eqb (piece_type piece) KNIGHT
                      then (if color_matches by_color piece
                            then [(attacker_sq, piece)] else [])
                      else []
                  | None => []
                  end
              | None => []
              end) KNIGHT_OFFSETS.

(** Second loop of [get_attackers]: king attackers. *)
Definition king_attackers (b : Board) (target : Square) (by_color : option Color)
  : list (Square * Piece) :=
  flat_map (fun off : Z * Z =>
              match offset target (fst off) (snd off) with
              | Some attacker_sq =>
                  match get b attacker_sq with
                  | Some piece =>
                      if PieceType_eqb (piece_type piece) KING
                      then (if color_matches by_color piece
                            then [(attacker_sq, piece)] else [])
                      else []
                  | None => []
                  end
              | None => []
              end) KING_OFFSETS.

(** Third loop of [get_attackers]: pawn attackers, per colour with the rank
    direction from the target back to the pawn. *)
Definition pawn_attackers (b : Board) (target : Square) (by_color : option Color)
  : list (Square * Piece) :=
  flat_map (fun cr : Color * Z =>
              let (c, rank_dir) := cr in
              if match by_color with
                 | Some bc => negb (Color_eqb bc c)
                 | None => false
                 end
              then []
              else
                flat_map (fun file_dir : Z =>
                            match offset target file_dir rank_dir with
                            | Some attacker_sq =>
                                match get b attacker_sq with
                                | Some piece =>
                                    if PieceType_eqb (piece_type piece) PAWN
                                       && Color_eqb (color piece) c
                                    then [(attacker_sq, piece)] else []
                                | None => []
                                end
                            | None => []
                            end) [-1; 1])
           [(WHITE, -1); (BLACK, 1)].

(** [get_attackers]; [by_color = None] is the default argument.  The list
    [attackers] is appended to by the three offset loops and then by the two
    calls of [check_sliding], in this order. *)
Definition get_attackers (b : Board) (target : Square) (by_color : option Color)
  : list (Square * Piece) :=
  knight_attackers b target by_color
    ++ king_attackers b target by_color
    ++ pawn_attackers b target by_color
    ++ check_sliding b target by_color BISHOP_DIRECTIONS [BISHOP; QUEEN]
    ++ check_sliding b target by_color ROOK_DIRECTIONS [ROOK; QUEEN].

(** [get_defenders] *)
Definition get_defenders (b : Board) (target : Square) : list (Square * Piece) :=
  match get b target with
  | None => []
  | Some piece => get_attackers b target (Some (color piece))
  end.

(** [is_attacked] *)
Definition is_attacked (b : Board) (target : Square) (by_color : Color) : bool :=
  py.len (get_attackers b target (Some by_color)) >? 0.

(** [is_defended] *)
Definition is_defended (b : Board) (target : Square) : bool :=
  py.len (get_defenders b target) >? 0.

(** [is_hanging] *)
Definition is_hanging (b : Board) (target : Square) : bool :=
  match get b target with
  | None => false
  | Some piece =>
      let enemy_color := opposite (color piece) in
      let attackers := get_attackers b target (Some enemy_color) in
      let defenders := get_defenders b target in
      (py.len attackers >? 0) && (py.len defenders =? 0)
  end.

(** [is_protected] *)
Definition is_protected (b : Board) (target : Square) : bool :=
  match get b target with
  | None => true
  | Some piece =>
      let enemy_color := opposite (color piece) in
      let attackers := get_attackers b target (Some enemy_color) in
      let defenders := get_defenders b target in
      py.len defenders >=? py.len attackers
  end.

(** [attack_count], [defense_count] *)
Definition attack_count (b : Board) (target : Square) (by_color : Color) : Z :=
  py.len (get_attackers b target (Some by_color)).
Definition defense_count (b : Board) (target : Square) : Z :=
  py.len (get_defenders b target).

(** The [while True] loop of the slider branches of
    [get_attacked_by_piece]: the set [attacked] it leaves. *)
Fixpoint attack_walk (fuel : nat) (b : Board) (current : Square) (dx dy : Z)
         (attacked : list Square) : list Square :=
  match fuel with
  | O => attacked
  | S fuel' =>
      match offset current dx dy with
      | None => attacked
      | Some target =>
          let attacked := py.set_add Square_eqb target attacked in
          match get b target with
          | Some _ => attacked
          | None => attack_walk fuel' b target dx dy attacked
          end
      end
  end.

(** [for offset in OFFSETS: target = from_square.offset(...); if target: attacked.add(target)] *)
Definition add_offsets (from_square : Square) (offsets : list (Z * Z))
           (attacked : list Square) : list Square :=
  fold_left (fun acc (off : Z * Z) =>
               match offset from_square (fst off) (snd off) with
               | Some target => py.set_add Square_eqb target acc
               | None => acc
               end) offsets attacked.

Definition add_rays (b : Board) (from_square : Square) (directions : list (Z * Z))
           (attacked : list Square) : list Square :=
  fold_left (fun acc (d : Z * Z) =>
               let (dx, dy) := d in
               attack_walk WALK_FUEL b from_square dx dy acc) directions attacked.

(** [get_attacked_by_piece]: an [if/elif] chain on the piece type, then a
    separate [if] for the orthogonal rays of rook and queen. *)
Definition get_attacked_by_piece (b : Board) (from_square : Square) (piece : Piece)
  : list Square :=
  let attacked : list Square := [] in
  let attacked :=
    match piece_type piece with
    | KNIGHT => add_offsets from_square KNIGHT_OFFSETS attacked
    | KING => add_offsets from_square KING_OFFSETS attacked
    | PAWN =>
        let rank_dir := if Color_eqb (color piece) WHITE then 1 else -1 in
        add_offsets from_square [(-1, rank_dir); (1, rank_dir)] attacked
    | BISHOP | QUEEN => add_rays b from_square BISHOP_DIRECTIONS attacked
    | ROOK => attacked
    end in
  if type_in (piece_type piece) [ROOK; QUEEN]
  then add_rays b from_square ROOK_DIRECTIONS attacked
  else attacked.

(** [get_all_attacked_squares] *)
Definition get_all_attacked_squares (b : Board) (by_color : Color) : list Square :=
  fold_left (fun attacked (kv : Z * Piece) =>
               let (square_idx, piece) := kv in
               if Color_eqb (color piece) by_color
               then fold_left (fun acc s => py.set_add Square_eqb s acc)
                              (get_attacked_by_piece b (mkSquare square_idx) piece)
                              attacked
               else attacked)
            (dict.items (pieces b)) [].

(** [find_hanging_pieces] *)
Definition find_hanging_pieces (b : Board) (c : Color) : list (Square * Piece) :=
  filter (fun sp : Square * Piece => is_hanging b (fst sp)) (get_pieces_by_color b c).

(** [find_undefended_pieces] *)
Definition find_undefended_pieces (b : Board) (c : Color) : list (Square * Piece) :=
  filter (fun sp : Square * Piece => negb (is_defended b (fst sp)))
         (get_pieces_by_color b c).

(** [[(s.name, str(p)) for s, p in l]] *)
Definition named (l : list (Square * Piece)) : py.value :=
  py.VList (map (fun sp : Square * Piece =>
                   py.VTuple [py.VStr (name (fst sp)); py.VStr (Piece_str (snd sp))]) l).

(** [analyze_square] *)
Definition analyze_square (b : Board) (target : Square) : list (string * py.value) :=
  let piece := get b target in
  let white_attackers := get_attackers b target (Some WHITE) in
  let black_attackers := get_attackers b target (Some BLACK) in
  let '(defenders, hanging, protected) :=
    match piece with
    | Some pc =>
        let enemy_color := opposite (color pc) in
        let enemy_attackers :=
          if Color_eqb enemy_color WHITE then white_attackers else black_attackers in
        let defenders := get_defenders b target in
        let hanging := (py.len enemy_attackers >? 0) && (py.len defenders =? 0) in
        let protected := py.len defenders >=? py.len enemy_attackers in
        (defenders, hanging, protected)
    | None => ([], false, true)
    end in
  [ ("square", py.VStr (name target));
    ("piece", match piece with Some pc => py.VStr (Piece_str pc) | None => py.VNone end);
    ("white_attackers", named white_attackers);
    ("black_attackers", named black_attackers);
    ("defenders", named defenders);
    ("is_hanging", py.VBool hanging);
    ("is_protected", py.VBool protected) ].

End attacks.

(* ------------------------------------------------------------------ *)
(** ** tactics.py (pins) *)

Module tactics.
Import board attacks.

(** [PIECE_VALUES[piece.piece_type]] of tactics.py *)
Definition PIECE_VALUES (t : PieceType) : Z :=
  match t with
  | PAWN => 1 | KNIGHT => 3 | BISHOP => 3
  | ROOK => 5 | QUEEN => 9 | KING => 100
  end.

Definition get_piece_value (piece : Piece) : Z := PIECE_VALUES (piece_type piece).

(** The [while True] loop of [find_pins]: the first and second occupied
    squares along [(dx, dy)], given the first one found so far. *)
Fixpoint pin_walk (fuel : nat) (b : Board) (current : Square) (dx dy : Z)
         (first : option (Square * Piece))
  : option (Square * Piece) * option (Square * Piece) :=
  match fuel with
  | O => (first, None)
  | S fuel' =>
      match offset current dx dy with
      | None => (first, None)
      | Some current' =>
          match get b current' with
          | Some piece =>
              match first with
              | None => pin_walk fuel' b current' dx dy (Some (current', piece))
              | Some _ => (first, Some (current', piece))
              end
          | None => pin_walk fuel' b current' dx dy first
          end
      end
  end.

(** The dict appended to [pins]. *)
Definition pin_record (first second protected : Square * Piece) (is_diagonal : bool)
  : list (string * py.value) :=
  let pin_type := if is_diagonal then "diagonal" else "orthogonal" in
  [ ("pinned_piece", py.VStr (Piece_str (snd first)));
    ("pinned_square", py.VStr (name (fst first)));
    ("pinned_value", py.VInt (get_piece_value (snd first)));
    ("pinning_piece", py.VStr (Piece_str (snd second)));
    ("pinning_square", py.VStr (name (fst second)));
    ("protected_piece", py.VStr (Piece_str (snd protected)));
    ("protected_square", py.VStr (name (fst protected)));
    ("protected_value", py.VInt (get_piece_value (snd protected)));
    ("pin_type", py.VStr pin_type);
    ("is_absolute", py.VBool (PieceType_eqb (piece_type (snd protected)) KING)) ].

(** The body of the direction loop of [find_pins]: what one direction
    from one protected piece appends. *)
Definition pins_along (b : Board) (c : Color) (protected : Square * Piece) (d : Z * Z)
  : list (list (string * py.value)) :=
  let enemy_color := opposite c in
  let (dx, dy) := d in
  match pin_walk WALK_FUEL b (fst protected) dx dy None with
  | (Some first, Some second) =>
      if Color_eqb (color (snd first)) c && Color_eqb (color (snd second)) enemy_color
      then
        let is_diagonal := Z.abs dx =? Z.abs dy in
        let can_pin :=
          if is_diagonal
          then type_in (piece_type (snd second)) [BISHOP; QUEEN]
          else type_in (piece_type (snd second)) [ROOK; QUEEN] in
        if can_pin then [pin_record first second protected is_diagonal] else []
      else []
  | _ => []
  end.

(** [find_pins] *)
Definition find_pins (b : Board) (c : Color) : list (list (string * py.value)) :=
  flat_map (fun protected : Square * Piece =>
              if negb (type_in (piece_type (snd protected)) [KING; QUEEN; ROOK])
              then []
              else
                let all_directions := BISHOP_DIRECTIONS ++ ROOK_DIRECTIONS in
                flat_map (pins_along b c protected) all_directions)
           (get_pieces_by_color b c).

(** The [directions] list of a sliding piece, as [find_skewers],
    [find_discoveries], [get_reachable_squares] and
    [get_attacks_from_square] build it. *)
Definition slider_directions (t : PieceType) : list (Z * Z) :=
  (if type_in t [BISHOP; QUEEN] then BISHOP_DIRECTIONS else [])
    ++ (if type_in t [ROOK; QUEEN] then ROOK_DIRECTIONS else []).

(** The [while True] loop of the slider branch of [get_reachable_squares]:
    the set [reachable] it leaves. *)
Fixpoint reach_walk (fuel : nat) (b : Board) (piece : Piece) (current : Square)
         (dx dy : Z) (reachable : list Square) : list Square :=
  match fuel with
  | O => reachable
  | S fuel' =>
      match offset current dx dy with
      | None => reachable
      | Some sq_new =>
          match get b sq_new with
          | Some occupant =>
              if negb (Color_eqb (color occupant) (color piece))
              then py.set_add Square_eqb sq_new reachable
              else reachable
          | None =>
              reach_walk fuel' b piece sq_new dx dy
                         (py.set_add Square_eqb sq_new reachable)
          end
      end
  end.

(** [get_reachable_squares] *)
Definition get_reachable_squares (b : Board) (from_sq : Square) (piece : Piece)
  : list Square :=
  let reachable : list Square := [] in
  match piece_type piece with
  | KNIGHT => add_offsets from_sq KNIGHT_OFFSETS reachable
  | KING => add_offsets from_sq KING_OFFSETS reachable
  | PAWN =>
      let direction := if Color_eqb (color piece) WHITE then 1 else -1 in
      let reachable :=
        match offset from_sq 0 direction with
        | Some sq_new =>
            if is_empty b sq_new then
              let reachable := py.set_add Square_eqb sq_new reachable in
              if (Color_eqb (color piece) WHITE && (rank from_sq =? 1))
                 || (Color_eqb (color piece) BLACK && (rank from_sq =? 6))
              then
                match offset from_sq 0 (direction * 2) with
                | Some sq_new2 =>
                    if is_empty b sq_new2
                    then py.set_add Square_eqb sq_new2 reachable
                    else reachable
                | None => reachable
                end
              else reachable
            else reachable
        | None => reachable
        end in
      fold_left (fun acc (file_dir : Z) =>
                   match offset from_sq file_dir direction with
                   | Some sq_cap =>
                       match get b sq_cap with
                       | Some target =>
                           if negb (Color_eqb (color target) (color piece))
                           then py.set_add Square_eqb sq_cap acc
                           else acc
                       | None => acc
                       end
                   | None => acc
                   end) [-1; 1] reachable
  | BISHOP | ROOK | QUEEN =>
      fold_left (fun acc (d : Z * Z) =>
                   let (dx, dy) := d in
                   reach_walk WALK_FUEL b piece from_sq dx dy acc)
                (slider_directions (piece_type piece)) reachable
  end.

(** [get_attacks_from_square]; the loop of its slider branch is the loop of
    [get_attacked_by_piece] ([attack_walk]). *)
Definition get_attacks_from_square (b : Board) (from_sq : Square) (piece : Piece)
  : list Square :=
  let attacked : list Square := [] in
  match piece_type piece with
  | KNIGHT => add_offsets from_sq KNIGHT_OFFSETS attacked
  | KING => add_offsets from_sq KING_OFFSETS attacked
  | PAWN =>
      let direction := if Color_eqb (color piece) WHITE then 1 else -1 in
      add_offsets from_sq [(-1, direction); (1, direction)] attacked
  | BISHOP | ROOK | QUEEN =>
      add_rays b from_sq (slider_directions (piece_type piece)) attacked
  end.

(** The dict appended to [skewers]. *)
Definition skewer_record (our first second : Square * Piece)
  : list (string * py.value) :=
  [ ("attacking_piece", py.VStr (Piece_str (snd our)));
    ("attacking_square", py.VStr (name (fst our)));
    ("front_target", py.VStr (Piece_str (snd first)));
    ("front_square", py.VStr (name (fst first)));
    ("front_value", py.VInt (get_piece_value (snd first)));
    ("back_target", py.VStr (Piece_str (snd second)));
    ("back_square", py.VStr (name (fst second)));
    ("back_value", py.VInt (get_piece_value (snd second))) ].

(** The body of the direction loop of [find_skewers]; its [while True]
    loop is the one of [find_pins] ([pin_walk]). *)
Definition skewers_along (b : Board) (c : Color) (our : Square * Piece) (d : Z * Z)
  : list (list (string * py.value)) :=
  let enemy_color := opposite c in
  let (dx, dy) := d in
  match pin_walk WALK_FUEL b (fst our) dx dy None with
  | (Some first, Some second) =>
      if Color_eqb (color (snd first)) enemy_color
         && Color_eqb (color (snd second)) enemy_color
      then
        let front_value := get_piece_value (snd first) in
        let back_value := get_piece_value (snd second) in
        if front_value >? back_value then [skewer_record our first second] else []
      else []
  | _ => []
  end.

(** [find_skewers] *)
Definition find_skewers (b : Board) (c : Color) : list (list (string * py.value)) :=
  flat_map (fun our : Square * Piece =>
              if negb (type_in (piece_type (snd our)) [BISHOP; ROOK; QUEEN])
              then []
              else flat_map (skewers_along b c our)
                            (slider_directions (piece_type (snd our))))
           (get_pieces_by_color b c).

(** The [while True] loop of [find_discoveries]: the blocking piece and the
    target it leaves, given the blocking piece found so far. *)
Fixpoint discovery_walk (fuel : nat) (b : Board) (c : Color) (current : Square)
         (dx dy : Z) (blocking : option (Square * Piece))
  : option (Square * Piece) * option (Square * Piece) :=
  match fuel with
  | O => (blocking, None)
  | S fuel' =>
      match offset current dx dy with
      | None => (blocking, None)
      | Some current' =>
          match get b current' with
          | Some piece =>
              match blocking with
              | None =>
                  if Color_eqb (color piece) c
                  then discovery_walk fuel' b c current' dx dy (Some (current', piece))
                  else (blocking, None)
              | Some _ =>
                  if Color_eqb (color piece) (opposite c)
                  then (blocking, Some (current', piece))
                  else (blocking, None)
              end
          | None => discovery_walk fuel' b c current' dx dy blocking
          end
      end
  end.

(** The dict appended to [discoveries]. *)
Definition discovery_record (slider blocking target : Square * Piece)
  : list (string * py.value) :=
  [ ("hidden_attacker", py.VStr (Piece_str (snd slider)));
    ("hidden_square", py.VStr (name (fst slider)));
    ("blocking_piece", py.VStr (Piece_str (snd blocking)));
    ("blocking_square", py.VStr (name (fst blocking)));
    ("target", py.VStr (Piece_str (snd target)));
    ("target_square", py.VStr (name (fst target)));
    ("target_value", py.VInt (get_piece_value (snd target)));
    ("is_check", py.VBool (PieceType_eqb (piece_type (snd target)) KING)) ].

(** The body of the direction loop of [find_discoveries]. *)
Definition discoveries_along (b : Board) (c : Color) (slider : Square * Piece)
           (d : Z * Z) : list (list (string * py.value)) :=
  let (dx, dy) := d in
  match discovery_walk WALK_FUEL b c (fst slider) dx dy None with
  | (Some blocking, Some target) => [discovery_record slider blocking target]
  | _ => []
  end.

(** [find_discoveries] *)
Definition find_discoveries (b : Board) (c : Color)
  : list (list (string * py.value)) :=
  flat_map (fun slider : Square * Piece =>
              if negb (type_in (piece_type (snd slider)) [BISHOP; ROOK; QUEEN])
              then []
              else flat_map (discoveries_along b c slider)
                            (slider_directions (piece_type (snd slider))))
           (get_pieces_by_color b c).

End tactics.

(* ------------------------------------------------------------------ *)
(** ** Mutable objects: the heap of [Board] and [dict] objects *)

Module store.
Import board.

(** A [Board] object; [o_pieces] is the reference held by its [pieces]
    attribute. *)
Record BoardObj := mkBoardObj {
  o_pieces : nat;
  o_turn : Color;
  o_castling_rights : string;
  o_en_passant : option Square;
  o_halfmove_clock : Z;
  o_fullmove_number : Z
}.

(** References are positions in the allocation order. *)
Record Heap := mkHeap {
  dicts : list (dict.t Piece);
  boards : list BoardObj
}.

(** Heap-threading computations; [None] is a dangling reference, which
    no reference handed out by [alloc_dict] or [alloc_board] is. *)
Definition M (A : Type) : Type := Heap -> option (A * Heap).

Definition ret {A : Type} (a : A) : M A := fun h => Some (a, h).

Definition bind {A B : Type} (m : M A) (k : A -> M B) : M B :=
  fun h => match m h with
           | Some (a, h') => k a h'
           | None => None
           end.

Fixpoint update {A : Type} (l : list A) (i : nat) (x : A) : list A :=
  match l, i with
  | [], _ => []
  | _ :: l', O => x :: l'
  | y :: l', S i' => y :: update l' i' x
  end.

Definition alloc_dict (d : dict.t Piece) : M nat :=
  fun h => Some (List.length (dicts h), mkHeap (dicts h ++ [d]) (boards h)).

Definition read_dict (r : nat) : M (dict.t Piece) :=
  fun h => match nth_error (dicts h) r with
           | Some d => Some (d, h)
           | None => None
           end.

Definition write_dict (r : nat) (d : dict.t Piece) : M unit :=
  fun h => match nth_error (dicts h) r with
           | Some _ => Some (tt, mkHeap (update (dicts h) r d) (boards h))
           | None => None
           end.

Definition alloc_board (o : BoardObj) : M nat :=
  fun h => Some (List.length (boards h), mkHeap (dicts h) (boards h ++ [o])).

Definition read_board (r : nat) : M BoardObj :=
  fun h => match nth_error (boards h) r with
           | Some o => Some (o, h)
           | None => None
           end.

Definition write_board (r : nat) (o : BoardObj) : M unit :=
  fun h => match nth_error (boards h) r with
           | Some _ => Some (tt, mkHeap (dicts h) (update (boards h) r o))
           | None => None
           end.

(** The snapshot of the board object [r]: its attributes and the content
    of its [pieces] dict. *)
Definition load (r : nat) : M Board :=
  fun h => match nth_error (boards h) r with
           | Some o =>
               match nth_error (dicts h) (o_pieces o) with
               | Some d =>
                   Some (mkBoard d (o_turn o) (o_castling_rights o) (o_en_passant o)
                                 (o_halfmove_clock o) (o_fullmove_number o), h)
               | None => None
               end
           | None => None
           end.

(** [r] refers to a board object whose [pieces] refers to a dict object. *)
Definition valid_board (h : Heap) (r : nat) : Prop :=
  exists o d, nth_error (boards h) r = Some o
              /\ nth_error (dicts h) (o_pieces o) = Some d.

End store.

Declare Scope heap_scope.
Delimit Scope heap_scope with heap.
Notation "x <- m ;; k" := (store.bind m (fun x => k))
  (at level 100, m at next level, right associativity) : heap_scope.
Notation "m ;;; k" := (store.bind m (fun _ => k))
  (at level 100, right associativity) : heap_scope.

(* ------------------------------------------------------------------ *)
(** ** analyze_move.py *)

Module analyze_move.
Import board attacks store.
Local Open Scope heap_scope.

(** [PIECE_VALUES[piece.piece_type]] of analyze_move.py *)
Definition PIECE_VALUES (t : PieceType) : Z :=
  match t with
  | PAWN => 1 | KNIGHT => 3 | BISHOP => 3
  | ROOK => 5 | QUEEN => 9 | KING => 1000
  end.

Definition get_piece_value (piece : Piece) : Z := PIECE_VALUES (piece_type piece).

(** [Board()]: a fresh dict object and a fresh board object. *)
Definition new_Board : M nat :=
  d <- alloc_dict dict.empty ;;
  alloc_board (mkBoardObj d WHITE "KQkq" None 0 1).

(** Attribute assignments [obj.attr = v]. *)
Definition set_pieces (r : nat) (v : nat) : M unit :=
  o <- read_board r ;;
  write_board r (mkBoardObj v (o_turn o) (o_castling_rights o) (o_en_passant o)
                            (o_halfmove_clock o) (o_fullmove_number o)).
Definition set_turn (r : nat) (v : Color) : M unit :=
  o <- read_board r ;;
  write_board r (mkBoardObj (o_pieces o) v (o_castling_rights o) (o_en_passant o)
                            (o_halfmove_clock o) (o_fullmove_number o)).
Definition set_castling_rights (r : nat) (v : string) : M unit :=
  o <- read_board r ;;
  write_board r (mkBoardObj (o_pieces o) (o_turn o) v (o_en_passant o)
                            (o_halfmove_clock o) (o_fullmove_number o)).
Definition set_en_passant (r : nat) (v : option Square) : M unit :=
  o <- read_board r ;;
  write_board r (mkBoardObj (o_pieces o) (o_turn o) (o_castling_rights o) v
                            (o_halfmove_clock o) (o_fullmove_number o)).
Definition set_halfmove_clock (r : nat) (v : Z) : M unit :=
  o <- read_board r ;;
  write_board r (mkBoardObj (o_pieces o) (o_turn o) (o_castling_rights o)
                            (o_en_passant o) v (o_fullmove_number o)).
Definition set_fullmove_number (r : nat) (v : Z) : M unit :=
  o <- read_board r ;;
  write_board r (mkBoardObj (o_pieces o) (o_turn o) (o_castling_rights o)
                            (o_en_passant o) (o_halfmove_clock o) v).

(** [simulate_move]: returns the reference of the new board object. *)
Definition simulate_move (board : nat) (from_sq to_sq : Square) : M nat :=
  new_board <- new_Board ;;
  (* new_board.pieces = board.pieces.copy() *)
  src <- read_board board ;;
  d <- read_dict (o_pieces src) ;;
  c <- alloc_dict (dict.copy d) ;;
  set_pieces new_board c ;;;
  (* new_board.turn = board.turn.opposite *)
  src <- read_board board ;;
  set_turn new_board (opposite (o_turn src)) ;;;
  (* new_board.castling_rights = board.castling_rights *)
  src <- read_board board ;;
  set_castling_rights new_board (o_castling_rights src) ;;;
  (* new_board.en_passant = None *)
  set_en_passant new_board None ;;;
  (* new_board.halfmove_clock = board.halfmove_clock *)
  src <- read_board board ;;
  set_halfmove_clock new_board (o_halfmove_clock src) ;;;
  (* new_board.fullmove_number = board.fullmove_number *)
  src <- read_board board ;;
  set_fullmove_number new_board (o_fullmove_number src) ;;;
  (* piece = new_board.pieces.pop(from_sq.index, None) *)
  nb <- read_board new_board ;;
  d <- read_dict (o_pieces nb) ;;
  let (piece, d') := dict.pop d (index from_sq) in
  write_dict (o_pieces nb) d' ;;;
  (* if piece: new_board.pieces[to_sq.index] = piece *)
  match piece with
  | Some p =>
      nb <- read_board new_board ;;
      d <- read_dict (o_pieces nb) ;;
      write_dict (o_pieces nb) (dict.setitem d (index to_sq) p)
  | None => ret tt
  end ;;;
  ret new_board.

(** [any(d[0].index == from_sq.index for d in l)] *)
Definition any_at (from_sq : Square) (l : list (Square * Piece)) : bool :=
  existsb (fun d : Square * Piece => index (fst d) =? index from_sq) l.

(** The [pieces_left_hanging] loop. *)
Definition left_hanging (b after_board : Board) (from_sq : Square) (c : Color)
  : list (Square * Piece) :=
  let enemy_color := opposite c in
  flat_map (fun kv : Z * Piece =>
              let (sq_idx, p) := kv in
              if Color_eqb (color p) c && negb (sq_idx =? index from_sq) then
                let sq_obj := mkSquare sq_idx in
                let defenders_before := get_defenders b sq_obj in
                let was_defended_by_moving := any_at from_sq defenders_before in
                if was_defended_by_moving then
                  let defenders_now := get_defenders after_board sq_obj in
                  let enemies := get_attackers after_board sq_obj (Some enemy_color) in
                  if (py.len enemies >? 0) && (py.len defenders_now =? 0)
                  then [(sq_obj, p)] else []
                else []
              else [])
           (dict.items (pieces b)).

(** The exchange estimate; [None] when the move does not capture.  (The
    Python also binds [lowest_recapturer], which nothing reads.) *)
Definition exchange (after_board : Board) (to_sq : Square) (piece : Piece)
           (capture : option Piece) (enemy_color : Color)
           (defenders_after : list (Square * Piece))
  : option (list (string * py.value)) :=
  match capture with
  | None => None
  | Some captured =>
      let gain := get_piece_value captured in
      let recapturers := get_attackers after_board to_sq (Some enemy_color) in
      match recapturers with
      | _ :: _ =>
          let loss := get_piece_value piece in
          let net :=
            if py.len defenders_after <? py.len recapturers then gain - loss else gain in
          Some [ ("capturing", py.VStr (Piece_str piece));
                 ("captured", py.VStr (Piece_str captured));
                 ("gain", py.VInt gain);
                 ("potential_loss", py.VInt loss);
                 ("recapturers", named recapturers);
                 ("our_defenders", named defenders_after);
                 ("likely_net",
                  py.VInt (if py.len recapturers >? 0 then net else gain));
                 ("safe", py.VBool (py.len defenders_after >=? py.len recapturers)) ]
      | [] =>
          Some [ ("capturing", py.VStr (Piece_str piece));
                 ("captured", py.VStr (Piece_str captured));
                 ("gain", py.VInt gain);
                 ("recapturers", py.VList []);
                 ("safe", py.VBool true) ]
      end
  end.

Definition nonempty {A : Type} (l : list A) : bool :=
  match l with [] => false | _ :: _ => true end.

Definition is_some {A : Type} (o : option A) : bool :=
  match o with Some _ => true | None => false end.

(** The warnings, in the order they are appended. *)
Definition make_warnings (b after_board : Board) (from_sq to_sq : Square)
           (piece : Piece) (capture : option Piece)
           (attackers defenders_after pieces_left_hanging : list (Square * Piece))
           (exchange_analysis : option (list (string * py.value)))
  : list string :=
  let c := color piece in
  let w_destination :=
    if nonempty attackers && negb (is_some capture) then
      if negb (nonempty defenders_after) then
        [py.fstr ["⚠️ "; Piece_str piece; " moves to "; name to_sq;
                  " which is attacked and will be undefended!"]]
      else if py.len attackers >? py.len defenders_after then
        [py.fstr ["⚠️ "; name to_sq; " has more attackers (";
                  py.str_of_int (py.len attackers); ") than defenders (";
                  py.str_of_int (py.len defenders_after); ")"]]
      else []
    else [] in
  let w_exchange :=
    match exchange_analysis with
    | Some ea =>
        if nonempty ea
           && negb (py.truthy (match py.lookup ea "safe" with
                               | Some v => v
                               | None => py.VBool true
                               end))
        then [py.fstr ["⚠️ Capture on "; name to_sq;
                       " may lose material (recapture possible)"]]
        else []
    | None => []
    end in
  let w_hanging :=
    map (fun sp : Square * Piece =>
           py.fstr ["⚠️ "; Piece_str (snd sp); " on "; name (fst sp);
                    " will be left hanging!"]) pieces_left_hanging in
  let w_king :=
    match find_king b c with
    | Some our_king_sq =>
        let king_defenders_before := get_defenders b our_king_sq in
        let was_defending_king := any_at from_sq king_defenders_before in
        if was_defending_king then
          let king_defenders_after := get_defenders after_board our_king_sq in
          if py.len king_defenders_after <? py.len king_defenders_before
          then ["⚠️ This move weakens king defense"] else []
        else []
    | None => []
    end in
  w_destination ++ w_exchange ++ w_hanging ++ w_king.

(** [analyze_move] from the call of [simulate_move] on: everything it
    computes from the input board [b] and the successor [after_board],
    both only read. *)
Definition report (b after_board : Board) (from_sq to_sq : Square)
           (piece : Piece) (capture : option Piece)
  : list (string * py.value) :=
  let c := color piece in
  let enemy_color := opposite c in
  let attackers := get_attackers b to_sq (Some enemy_color) in
  let defenders_after := get_defenders after_board to_sq in
  let pieces_left_hanging := left_hanging b after_board from_sq c in
  let is_check :=
    match find_king after_board enemy_color with
    | Some enemy_king_sq => is_attacked after_board enemy_king_sq c
    | None => false
    end in
  let exchange_analysis :=
    exchange after_board to_sq piece capture enemy_color defenders_after in
  let warnings :=
    make_warnings b after_board from_sq to_sq piece capture
                  attackers defenders_after pieces_left_hanging exchange_analysis in
  [ ("move",
     py.VStr (String.append
                (py.fstr [Piece_str piece; name from_sq; "-"; name to_sq])
                (match capture with
                 | Some cp => String.append "x" (Piece_str cp)
                 | None => ""
                 end)));
    ("piece", py.VStr (Piece_str piece));
    ("from", py.VStr (name from_sq));
    ("to", py.VStr (name to_sq));
    ("capture", match capture with Some cp => py.VStr (Piece_str cp) | None => py.VNone end);
    ("destination_attacked_by", named attackers);
    ("defenders_after_move", named defenders_after);
    ("pieces_left_hanging", named pieces_left_hanging);
    ("gives_check", py.VBool is_check);
    ("exchange_analysis",
     match exchange_analysis with Some ea => py.VDict ea | None => py.VNone end);
    ("warnings", py.VList (map py.VStr warnings)) ].

(** [analyze_move] *)
Definition analyze_move (board : nat) (from_sq to_sq : Square)
  : M (list (string * py.value)) :=
  b <- load board ;;
  match get b from_sq with
  | None => ret [("error", py.VStr (py.fstr ["No piece on "; name from_sq]))]
  | Some piece =>
      let capture := get b to_sq in
      after_board <- simulate_move board from_sq to_sq ;;
      b <- load board ;;
      a <- load after_board ;;
      ret (report b a from_sq to_sq piece capture)
  end.

(** A heap holding exactly the board [b] (as object 0, with dict 0). *)
Definition heap_of (b : Board) : Heap :=
  mkHeap [pieces b]
         [mkBoardObj 0 (turn b) (castling_rights b) (en_passant b)
                     (halfmove_clock b) (fullmove_number b)].

End analyze_move.

(* ------------------------------------------------------------------ *)
(** ** Vocabulary of the statements *)

Import board attacks tactics store.

(** A square of the board: index in [0, 63]. *)
Definition on_board (s : Square) : Prop := 0 <= index s <= 63.

(** The square [k] steps from [s] along [(dx, dy)]; [None] as soon as one
    step leaves the board. *)
Fixpoint ray (k : nat) (s : Square) (dx dy : Z) : option Square :=
  match k with
  | O => Some s
  | S k' =>
      match offset s dx dy with
      | Some s' => ray k' s' dx dy
      | None => None
      end
  end.

(** [s], holding [p], is the first occupied square met when walking from
    [target] along [(dx, dy)]: it is [k >= 1] steps away and every square
    nearer to [target] on the ray is empty. *)
Definition first_occupied (b : Board) (target : Square) (dx dy : Z)
           (k : nat) (s : Square) (p : Piece) : Prop :=
  (1 <= k)%nat
  /\ ray k target dx dy = Some s
  /\ get b s = Some p
  /\ forall j s', (1 <= j < k)%nat -> ray j target dx dy = Some s' -> get b s' = None.

(** Every square strictly nearer than [k] steps on the ray is empty. *)
Definition clear_before (b : Board) (s : Square) (dx dy : Z) (k : nat) : Prop :=
  forall j s', (1 <= j < k)%nat -> ray j s dx dy = Some s' -> get b s' = None.

(** The ray [(dx, dy)] is one of the four diagonals. *)
Definition diagonal (d : Z * Z) : Prop := In d BISHOP_DIRECTIONS.
Definition orthogonal (d : Z * Z) : Prop := In d ROOK_DIRECTIONS.

(** Piece type compatible with the geometry of the ray. *)
Definition compatible (d : Z * Z) (t : PieceType) : Prop :=
  (diagonal d /\ (t = BISHOP \/ t = QUEEN))
  \/ (orthogonal d /\ (t = ROOK \/ t = QUEEN)).

Definition slider (t : PieceType) : Prop := t = BISHOP \/ t = ROOK \/ t = QUEEN.

(** Rank direction from a target back to a pawn of colour [c] attacking it. *)
Definition pawn_back (c : Color) : Z := match c with WHITE => -1 | BLACK => 1 end.

(** The optional colour filter is absent or matches. *)
Definition filter_ok (by_color : option Color) (p : Piece) : Prop :=
  by_color = None \/ by_color = Some (color p).

(** The position of the pin example, [4k3/8/8/4n3/8/8/8/4R2K w - - 0 1]. *)
Definition pin_board : Board :=
  mkBoard [(60, mkPiece KING BLACK); (36, mkPiece KNIGHT BLACK);
           (4, mkPiece ROOK WHITE); (7, mkPiece KING WHITE)]
          WHITE "" None 0 1.

(** The dictionary of the successor: the source square is popped and, when
    it held a piece, that piece is stored on the destination. *)
Definition moved (d : dict.t Piece) (from_sq to_sq : Square) : dict.t Piece :=
  match dict.get d (index from_sq) with
  | Some p => dict.setitem (dict.remove d (index from_sq)) (index to_sq) p
  | None => dict.remove d (index from_sq)
  end.

(** The snapshot [load] takes of a board object [o] whose dict holds [d]. *)
Definition snapshot (o : BoardObj) (d : dict.t Piece) : Board :=
  mkBoard d (o_turn o) (o_castling_rights o) (o_en_passant o)
          (o_halfmove_clock o) (o_fullmove_number o).

(** The successor position of [b] for the move from [from_sq] to [to_sq]. *)
Definition successor (b : Board) (from_sq to_sq : Square) : Board :=
  mkBoard (moved (pieces b) from_sq to_sq) (opposite (turn b))
          (castling_rights b) None (halfmove_clock b) (fullmove_number b).

(** The heap [simulate_move] leaves. *)
Definition heap_after (h : Heap) (o : BoardObj) (d : dict.t Piece)
           (from_sq to_sq : Square) : Heap :=
  mkHeap ((dicts h ++ [dict.empty]) ++ [moved d from_sq to_sq])
         (boards h ++ [mkBoardObj (List.length (dicts h ++ [dict.empty]))
                                  (opposite (o_turn o))
                                  (o_castling_rights o) None
                                  (o_halfmove_clock o)
                                  (o_fullmove_number o)]).

(** The keys of a report, in order. *)
Definition REPORT_KEYS : list string :=
  ["move"; "piece"; "from"; "to"; "capture"; "destination_attacked_by";
   "defenders_after_move"; "pieces_left_hanging"; "gives_check";
   "exchange_analysis"; "warnings"].

(** Boolean check of [dict.wf]. *)
Fixpoint distinct_keys (ks : list Z) : bool :=
  match ks with
  | [] => true
  | k :: ks' => negb (existsb (Z.eqb k) ks') && distinct_keys ks'
  end.

(** Squares and pieces of the examples. *)
Definition e1 : Square := mkSquare 4.
Definition e4 : Square := mkSquare 28.
Definition e5 : Square := mkSquare 36.
Definition e6 : Square := mkSquare 44.
Definition e8 : Square := mkSquare 60.
Definition d5 : Square := mkSquare 35.
Definition f3 : Square := mkSquare 21.
Definition g3 : Square := mkSquare 22.

(** The position after 1.e4 e5 2.Nf3, with Black to move
    ([example_boards_from_fen]). *)
Definition e5_board : Board :=
  mkBoard [(56, mkPiece ROOK BLACK); (57, mkPiece KNIGHT BLACK);
           (58, mkPiece BISHOP BLACK); (59, mkPiece QUEEN BLACK);
           (60, mkPiece KING BLACK); (61, mkPiece BISHOP BLACK);
           (62, mkPiece KNIGHT BLACK); (63, mkPiece ROOK BLACK);
           (48, mkPiece PAWN BLACK); (49, mkPiece PAWN BLACK);
           (50, mkPiece PAWN BLACK); (51, mkPiece PAWN BLACK);
           (53, mkPiece PAWN BLACK); (54, mkPiece PAWN BLACK);
           (55, mkPiece PAWN BLACK); (36, mkPiece PAWN BLACK);
           (28, mkPiece PAWN WHITE); (21, mkPiece KNIGHT WHITE);
           (8, mkPiece PAWN WHITE); (9, mkPiece PAWN WHITE);
           (10, mkPiece PAWN WHITE); (11, mkPiece PAWN WHITE);
           (13, mkPiece PAWN WHITE); (14, mkPiece PAWN WHITE);
           (15, mkPiece PAWN WHITE); (0, mkPiece ROOK WHITE);
           (1, mkPiece KNIGHT WHITE); (2, mkPiece BISHOP WHITE);
           (3, mkPiece QUEEN WHITE); (4, mkPiece KING WHITE);
           (5, mkPiece BISHOP WHITE); (7, mkPiece ROOK WHITE)]
          BLACK "KQkq" None 1 2.

(** The position after 1.e4 e5 2.Nf3 Nc6, with White to move
    ([example_boards_from_fen]). *)
Definition capture_board : Board :=
  mkBoard [(56, mkPiece ROOK BLACK); (58, mkPiece BISHOP BLACK);
           (59, mkPiece QUEEN BLACK); (60, mkPiece KING BLACK);
           (61, mkPiece BISHOP BLACK); (62, mkPiece KNIGHT BLACK);
           (63, mkPiece ROOK BLACK); (48, mkPiece PAWN BLACK);
           (49, mkPiece PAWN BLACK); (50, mkPiece PAWN BLACK);
           (51, mkPiece PAWN BLACK); (53, mkPiece PAWN BLACK);
           (54, mkPiece PAWN BLACK); (55, mkPiece PAWN BLACK);
           (42, mkPiece KNIGHT BLACK); (36, mkPiece PAWN BLACK);
           (28, mkPiece PAWN WHITE); (21, mkPiece KNIGHT WHITE);
           (8, mkPiece PAWN WHITE); (9, mkPiece PAWN WHITE);
           (10, mkPiece PAWN WHITE); (11, mkPiece PAWN WHITE);
           (13, mkPiece PAWN WHITE); (14, mkPiece PAWN WHITE);
           (15, mkPiece PAWN WHITE); (0, mkPiece ROOK WHITE);
           (1, mkPiece KNIGHT WHITE); (2, mkPiece BISHOP WHITE);
           (3, mkPiece QUEEN WHITE); (4, mkPiece KING WHITE);
           (5, mkPiece BISHOP WHITE); (7, mkPiece ROOK WHITE)]
          WHITE "KQkq" None 2 3.

(** A white pawn on e4 defended by the queen on e1 alone and attacked by
    the black pawn on d5 alone. *)
Definition count_only_board : Board :=
  mkBoard [(28, mkPiece PAWN WHITE); (4, mkPiece QUEEN WHITE);
           (35, mkPiece PAWN BLACK)]
          WHITE "" None 0 1.

(** Rank direction in which a pawn of colour [c] attacks. *)
Definition pawn_forward (c : Color) : Z := match c with WHITE => 1 | BLACK => -1 end.

(** [piece], standing on [from_sq], attacks [x]: a knight, king or pawn
    offset leads there, or an unobstructed ray of a direction compatible with
    the piece does. *)
Definition attacked_from (b : Board) (from_sq : Square) (piece : Piece) (x : Square)
  : Prop :=
  match piece_type piece with
  | KNIGHT =>
      exists off, In off KNIGHT_OFFSETS /\ offset from_sq (fst off) (snd off) = Some x
  | KING =>
      exists off, In off KING_OFFSETS /\ offset from_sq (fst off) (snd off) = Some x
  | PAWN =>
      exists file_dir, (file_dir = -1 \/ file_dir = 1)
                       /\ offset from_sq file_dir (pawn_forward (color piece)) = Some x
  | BISHOP | ROOK | QUEEN =>
      exists d k, compatible d (piece_type piece) /\ (1 <= k)%nat
                  /\ ray k from_sq (fst d) (snd d) = Some x
                  /\ clear_before b from_sq (fst d) (snd d) k
  end.

(** Every piece of the board stands on a square of the board. *)
Definition keys_on_board (b : Board) : Prop :=
  forall idx p, In (idx, p) (pieces b) -> 0 <= idx <= 63.

(** A white rook on e1 facing the black queen on e5, with a black rook on
    e8 behind her. *)
Definition skewer_board : Board :=
  mkBoard [(4, mkPiece ROOK WHITE); (36, mkPiece QUEEN BLACK);
           (60, mkPiece ROOK BLACK)]
          WHITE "" None 0 1.

(** A white rook on e1 behind the white knight on e4, with the black queen
    on e8 further up the file. *)
Definition discovery_board : Board :=
  mkBoard [(4, mkPiece ROOK WHITE); (28, mkPiece KNIGHT WHITE);
           (60, mkPiece QUEEN BLACK)]
          WHITE "" None 0 1.

(** A white king on e1 guarding the pawn on e2 that the black rook on e8
    attacks. *)
Definition guard_board : Board :=
  mkBoard [(4, mkPiece KING WHITE); (12, mkPiece PAWN WHITE);
           (60, mkPiece ROOK BLACK)]
          WHITE "" None 0 1.

(** The string has no whitespace character. *)
Fixpoint nospace (s : string) : bool :=
  match s with
  | EmptyString => true
  | String c s' => negb (py.isspace c) && nospace s'
  end.

(** The value of a decimal numeral read from the left, continuing from
    [acc]. *)
Fixpoint acc_val (d : Decimal.uint) (acc : Z) : Z :=
  match d with
  | Nil => acc
  | D0 d' => acc_val d' (10 * acc + 0)
  | D1 d' => acc_val d' (10 * acc + 1)
  | D2 d' => acc_val d' (10 * acc + 2)
  | D3 d' => acc_val d' (10 * acc + 3)
  | D4 d' => acc_val d' (10 * acc + 4)
  | D5 d' => acc_val d' (10 * acc + 5)
  | D6 d' => acc_val d' (10 * acc + 6)
  | D7 d' => acc_val d' (10 * acc + 7)
  | D8 d' => acc_val d' (10 * acc + 8)
  | D9 d' => acc_val d' (10 * acc + 9)
  end.

(** The files [f], [f + 1], ... ([n] of them). *)
Fixpoint zrange (f : Z) (n : nat) : list Z :=
  match n with
  | O => []
  | S n' => f :: zrange (f + 1) n'
  end.

(** The square [i] has been written when the FEN placement, read rank 8
    first and file a first, has reached file [f] of rank [r]. *)
Definition fen_done (r f i : Z) : bool :=
  ((r * 8 + 8 <=? i) && (i <=? 63)) || ((r * 8 <=? i) && (i <? r * 8 + f)).

(** The dictionary [d] holds exactly the pieces of [b] on the squares
    written so far. *)
Definition fen_inv (b : Board) (r f : Z) (d : dict.t Piece) : Prop :=
  forall i, dict.get d i = if fen_done r f i then dict.get (pieces b) i else None.

(** White to move after the double step of the black pawn to d5, which the
    pawn on e5 may take en passant on d6. *)
Definition en_passant_board : Board :=
  mkBoard [(4, mkPiece KING WHITE); (60, mkPiece KING BLACK);
           (36, mkPiece PAWN WHITE); (35, mkPiece PAWN BLACK)]
          WHITE "Kq" (Some (mkSquare 43)) 0 12.

(** Every character of the string is below 128. *)
Fixpoint is_ascii (s : string) : bool :=
  match s with
  | EmptyString => true
  | String c s' => (py.ord c <? 128) && is_ascii s'
  end.

(** An ASCII castling field that [to_fen] prints as a single token other
    than the placeholder. *)
Definition castling_token (s : string) : Prop :=
  is_ascii s = true /\ nospace s = true /\ s <> "-".

(* ------------------------------------------------------------------ *)
(** ** Dictionaries *)

Section DictFacts.
Context {V : Type}.
Implicit Types (d : dict.t V) (k : Z) (v : V).

Lemma dict_get_setitem_same d k v : dict.get (dict.setitem d k v) k = Some v.
Proof.
  induction d as [|[k' v'] d IH]; simpl.
  - now rewrite Z.eqb_refl.
  - destruct (k' =? k) eqn:E; simpl; rewrite E; auto.
Qed.

Lemma dict_get_setitem_other d k k' v :
  k <> k' -> dict.get (dict.setitem d k v) k' = dict.get d k'.
Proof.
  intros Hne. induction d as [|[k0 v0] d IH]; simpl.
  - destruct (k =? k') eqn:E; auto. apply Z.eqb_eq in E. contradiction.
  - destruct (k0 =? k) eqn:E; simpl.
    + apply Z.eqb_eq in E. subst k0.
      destruct (k =? k') eqn:E'; auto. apply Z.eqb_eq in E'. contradiction.
    + now rewrite IH.
Qed.

Lemma dict_get_In d k v : dict.get d k = Some v -> In (k, v) d.
Proof.
  induction d as [|[k0 v0] d IH]; simpl; [discriminate|].
  destruct (k0 =? k) eqn:E.
  - apply Z.eqb_eq in E. intros [= ->]. subst. now left.
  - intros H. right. auto.
Qed.

Lemma dict_get_None_notin d k : dict.get d k = None -> ~ In k (map fst d).
Proof.
  induction d as [|[k0 v0] d IH]; simpl; [tauto|].
  destruct (k0 =? k) eqn:E; [discriminate|].
  apply Z.eqb_neq in E. intros H [H1|H1]; [contradiction|]. now apply IH.
Qed.

Lemma dict_In_get d k v : dict.wf d -> In (k, v) d -> dict.get d k = Some v.
Proof.
  unfold dict.wf. induction d as [|[k0 v0] d IH]; simpl; [tauto|].
  intros Hnd [H|H].
  - injection H as -> ->. now rewrite Z.eqb_refl.
  - inversion Hnd as [|? ? Hnotin Hnd']; subst.
    destruct (k0 =? k) eqn:E.
    + apply Z.eqb_eq in E. subst k0. exfalso. apply Hnotin.
      change k with (fst (k, v)). now apply in_map.
    + auto.
Qed.

Lemma dict_remove_keys d k x : In x (map fst (dict.remove d k)) -> In x (map fst d).
Proof.
  induction d as [|[k0 v0] d IH]; simpl; [tauto|].
  destruct (k0 =? k); simpl; intuition.
Qed.

Lemma dict_wf_remove d k : dict.wf d -> dict.wf (dict.remove d k).
Proof.
  unfold dict.wf. induction d as [|[k0 v0] d IH]; simpl; intros Hnd; [constructor|].
  inversion Hnd; subst. destruct (k0 =? k); simpl; auto.
  constructor; auto. intros Hin. now apply dict_remove_keys in Hin.
Qed.

Lemma dict_get_remove_same d k : dict.wf d -> dict.get (dict.remove d k) k = None.
Proof.
  unfold dict.wf. induction d as [|[k0 v0] d IH]; simpl; intros Hnd; auto.
  inversion Hnd as [|? ? Hnotin Hnd']; subst.
  destruct (k0 =? k) eqn:E; simpl.
  - apply Z.eqb_eq in E. subst k0.
    destruct (dict.get d k) eqn:G; auto.
    apply dict_get_In in G. exfalso. apply Hnotin.
    change k with (fst (k, v)). now apply in_map.
  - rewrite E. auto.
Qed.

Lemma dict_get_remove_other d k k' :
  k <> k' -> dict.get (dict.remove d k) k' = dict.get d k'.
Proof.
  intros Hne. induction d as [|[k0 v0] d IH]; simpl; auto.
  destruct (k0 =? k) eqn:E; simpl.
  - apply Z.eqb_eq in E. subst k0.
    destruct (k =? k') eqn:E'; auto. apply Z.eqb_eq in E'. contradiction.
  - now rewrite IH.
Qed.

Lemma dict_len_remove d k :
  dict.len (dict.remove d k)
  = match dict.get d k with Some _ => dict.len d - 1 | None => dict.len d end.
Proof.
  unfold dict.len. induction d as [|[k0 v0] d IH]; simpl List.length; simpl dict.get; auto.
  simpl dict.remove. destruct (k0 =? k) eqn:E.
  - lia.
  - simpl List.length. destruct (dict.get d k); lia.
Qed.

Lemma dict_len_setitem d k v :
  dict.len (dict.setitem d k v)
  = match dict.get d k with Some _ => dict.len d | None => dict.len d + 1 end.
Proof.
  unfold dict.len. induction d as [|[k0 v0] d IH]; simpl; auto.
  destruct (k0 =? k) eqn:E; simpl List.length; auto.
  destruct (dict.get d k); lia.
Qed.

Lemma dict_setitem_keys d k v x :
  In x (map fst (dict.setitem d k v)) -> x = k \/ In x (map fst d).
Proof.
  induction d as [|[k0 v0] d IH]; simpl.
  - intuition.
  - destruct (k0 =? k); simpl; intuition.
Qed.

Lemma dict_wf_setitem d k v : dict.wf d -> dict.wf (dict.setitem d k v).
Proof.
  unfold dict.wf. induction d as [|[k0 v0] d IH]; simpl; intros Hnd.
  - constructor; [simpl; tauto | constructor].
  - inversion Hnd as [|? ? Hnotin Hnd']; subst.
    destruct (k0 =? k) eqn:E; simpl.
    + constructor; auto.
    + constructor; auto. intros Hin. apply dict_setitem_keys in Hin.
      apply Z.eqb_neq in E. destruct Hin; [congruence | contradiction].
Qed.
End DictFacts.

(* ------------------------------------------------------------------ *)
(** ** Geometry of [Square.offset] *)

Lemma file_range (s : Square) : 0 <= file s <= 7.
Proof. unfold file. pose proof (Z.mod_pos_bound (index s) 8). lia. Qed.

Lemma index_file_rank (s : Square) : index s = rank s * 8 + file s.
Proof. unfold file, rank. pose proof (Z.div_mod (index s) 8). lia. Qed.

Lemma on_board_rank (s : Square) : on_board s <-> 0 <= rank s <= 7.
Proof.
  unfold on_board. pose proof (index_file_rank s). pose proof (file_range s). lia.
Qed.

Lemma Square_eq (a b : Square) : index a = index b -> a = b.
Proof. destruct a, b; simpl; congruence. Qed.

Lemma Square_eqb_eq (a b : Square) : Square_eqb a b = true <-> a = b.
Proof.
  unfold Square_eqb. rewrite Z.eqb_eq. split; [apply Square_eq | congruence].
Qed.

Lemma file_mk (r f : Z) : 0 <= f <= 7 -> file (mkSquare (r * 8 + f)) = f.
Proof.
  intros H. unfold file; simpl. rewrite Z.add_comm, Z.mod_add by lia.
  apply Z.mod_small. lia.
Qed.

Lemma rank_mk (r f : Z) : 0 <= f <= 7 -> rank (mkSquare (r * 8 + f)) = r.
Proof.
  intros H. unfold rank; simpl. rewrite Z.add_comm, Z.div_add by lia.
  rewrite Z.div_small; lia.
Qed.

(** What a successful [offset] returns. *)
Lemma offset_Some (s s' : Square) (dx dy : Z) :
  offset s dx dy = Some s' ->
  file s' = file s + dx /\ rank s' = rank s + dy
  /\ 0 <= file s + dx <= 7 /\ 0 <= rank s + dy <= 7.
Proof.
  unfold offset. intros H.
  destruct ((0 <=? file s + dx) && (file s + dx <=? 7)
            && (0 <=? rank s + dy) && (rank s + dy <=? 7)) eqn:E; [|discriminate].
  injection H as <-.
  rewrite !andb_true_iff, !Z.leb_le in E.
  rewrite file_mk, rank_mk by lia. lia.
Qed.

Lemma offset_on_board (s s' : Square) (dx dy : Z) :
  offset s dx dy = Some s' -> on_board s'.
Proof. intros H. apply offset_Some in H. apply on_board_rank. lia. Qed.

Lemma offset_None (s : Square) (dx dy : Z) :
  offset s dx dy = None ->
  ~ (0 <= file s + dx <= 7 /\ 0 <= rank s + dy <= 7).
Proof.
  unfold offset. intros H.
  destruct ((0 <=? file s + dx) && (file s + dx <=? 7)
            && (0 <=? rank s + dy) && (rank s + dy <=? 7)) eqn:E; [discriminate|].
  intros [H1 H2]. rewrite !andb_false_iff, !Z.leb_gt in E. lia.
Qed.

Lemma offset_in_range (s : Square) (dx dy : Z) :
  0 <= file s + dx <= 7 -> 0 <= rank s + dy <= 7 ->
  offset s dx dy = Some (mkSquare ((rank s + dy) * 8 + (file s + dx))).
Proof.
  intros H1 H2. unfold offset.
  replace ((0 <=? file s + dx) && (file s + dx <=? 7)
           && (0 <=? rank s + dy) && (rank s + dy <=? 7)) with true; auto.
  symmetry. rewrite !andb_true_iff, !Z.leb_le. lia.
Qed.

(** Stepping back along the opposite offset returns to an on-board start. *)
Lemma offset_back (s s' : Square) (dx dy : Z) :
  on_board s -> offset s dx dy = Some s' -> offset s' (- dx) (- dy) = Some s.
Proof.
  intros Hs H. apply on_board_rank in Hs. pose proof (file_range s) as Hf.
  apply offset_Some in H. destruct H as (Hf' & Hr' & _ & _).
  rewrite offset_in_range by lia. f_equal. apply Square_eq; simpl.
  rewrite (index_file_rank s). lia.
Qed.

(** Coordinates along a ray. *)
Lemma ray_coords (k : nat) : forall (s s' : Square) (dx dy : Z),
  ray k s dx dy = Some s' ->
  file s' = file s + Z.of_nat k * dx /\ rank s' = rank s + Z.of_nat k * dy.
Proof.
  induction k as [|k IH]; intros s s' dx dy H.
  - injection H as <-. lia.
  - simpl in H. destruct (offset s dx dy) as [s1|] eqn:E; [|discriminate].
    apply IH in H. apply offset_Some in E. lia.
Qed.

Lemma ray_first_step (k : nat) (s s' : Square) (dx dy : Z) :
  (1 <= k)%nat -> ray k s dx dy = Some s' ->
  0 <= file s + dx <= 7 /\ 0 <= rank s + dy <= 7.
Proof.
  destruct k; [lia|]. intros _ H. simpl in H.
  destruct (offset s dx dy) as [s1|] eqn:E; [|discriminate].
  apply offset_Some in E. lia.
Qed.

Lemma ray_on_board (k : nat) (s s' : Square) (dx dy : Z) :
  (1 <= k)%nat -> ray k s dx dy = Some s' -> on_board s'.
Proof.
  revert s. induction k as [|k IH]; intros s Hk H; [lia|].
  simpl in H. destruct (offset s dx dy) as [s1|] eqn:E; [|discriminate].
  destruct k.
  - injection H as <-. eapply offset_on_board; eauto.
  - eapply IH; eauto. lia.
Qed.

(** [ray] splits at any intermediate step. *)
Lemma ray_add (j k : nat) : forall (s : Square) (dx dy : Z),
  ray (j + k) s dx dy
  = match ray j s dx dy with Some s1 => ray k s1 dx dy | None => None end.
Proof.
  induction j as [|j IH]; intros s dx dy; simpl; auto.
  destruct (offset s dx dy); auto.
Qed.

Lemma ray_prefix (j k : nat) (s s' : Square) (dx dy : Z) :
  (j <= k)%nat -> ray k s dx dy = Some s' -> exists s1, ray j s dx dy = Some s1.
Proof.
  intros Hjk H. replace k with (j + (k - j))%nat in H by lia.
  rewrite ray_add in H. destruct (ray j s dx dy); [eauto | discriminate].
Qed.

Lemma ray_S_last (k : nat) (s : Square) (dx dy : Z) :
  ray (S k) s dx dy
  = match ray k s dx dy with Some s1 => offset s1 dx dy | None => None end.
Proof.
  replace (S k) with (k + 1)%nat by lia. rewrite ray_add.
  destruct (ray k s dx dy); auto. simpl. destruct (offset s0 dx dy); auto.
Qed.

Lemma In_QUEEN_DIRECTIONS (dx dy : Z) :
  In (dx, dy) QUEEN_DIRECTIONS ->
  (dx = 1 \/ dx = -1 \/ dx = 0) /\ (dy = 1 \/ dy = -1 \/ dy = 0)
  /\ (dx <> 0 \/ dy <> 0).
Proof.
  unfold QUEEN_DIRECTIONS, BISHOP_DIRECTIONS, ROOK_DIRECTIONS. simpl.
  intros H. repeat (destruct H as [H|H]; [injection H as <- <-; lia|]).
  contradiction.
Qed.

(** No ray of the direction tables has more than eight squares: the ninth
    [offset] in a row is off the board, whatever the start. *)
Lemma ray_bound (k : nat) (s s' : Square) (dx dy : Z) :
  In (dx, dy) QUEEN_DIRECTIONS -> ray k s dx dy = Some s' -> (k <= 8)%nat.
Proof.
  intros Hd H. apply In_QUEEN_DIRECTIONS in Hd.
  destruct (Nat.le_gt_cases k 8) as [|Hk]; auto. exfalso.
  pose proof (ray_coords _ _ _ _ _ H) as [Hf Hr].
  pose proof (ray_first_step k s s' dx dy ltac:(lia) H) as [Hf1 Hr1].
  pose proof (ray_on_board k s s' dx dy ltac:(lia) H) as Hb.
  apply on_board_rank in Hb.
  pose proof (file_range s). pose proof (file_range s').
  assert (9 <= Z.of_nat k) by lia.
  destruct Hd as ([->| [->| ->]] & [->| [->| ->]] & Hnz); lia.
Qed.

Lemma ray_nine_steps_off_board (s : Square) (dx dy : Z) :
  In (dx, dy) QUEEN_DIRECTIONS -> ray 9 s dx dy = None.
Proof.
  intros Hd. destruct (ray 9 s dx dy) eqn:E; auto.
  apply ray_bound in E; auto. lia.
Qed.

(** Two rays from the same square do not meet again, and a ray does not
    meet itself. *)
Lemma ray_injective (j k : nat) (t s : Square) (d1 d2 : Z * Z) :
  In d1 QUEEN_DIRECTIONS -> In d2 QUEEN_DIRECTIONS ->
  (1 <= j)%nat -> (1 <= k)%nat ->
  ray j t (fst d1) (snd d1) = Some s -> ray k t (fst d2) (snd d2) = Some s ->
  d1 = d2 /\ j = k.
Proof.
  destruct d1 as [dx1 dy1], d2 as [dx2 dy2]; simpl.
  intros H1 H2 Hj Hk R1 R2.
  apply In_QUEEN_DIRECTIONS in H1, H2.
  apply ray_coords in R1, R2.
  assert (Z.of_nat j * dx1 = Z.of_nat k * dx2) by lia.
  assert (Z.of_nat j * dy1 = Z.of_nat k * dy2) by lia.
  assert (1 <= Z.of_nat j) by lia. assert (1 <= Z.of_nat k) by lia.
  destruct H1 as ([->| [->| ->]] & [->| [->| ->]] & Hnz1);
    destruct H2 as ([->| [->| ->]] & [->| [->| ->]] & Hnz2);
    try lia; split; try reflexivity; try lia.
Qed.

(* ------------------------------------------------------------------ *)
(** ** First occupied square of a ray *)

Lemma first_occupied_off_board b cur dx dy k s p :
  offset cur dx dy = None -> ~ first_occupied b cur dx dy k s p.
Proof.
  intros E (Hk & Hr & _). destruct k; [lia|]. simpl in Hr. now rewrite E in Hr.
Qed.

Lemma first_occupied_blocked b cur next piece dx dy k s p :
  offset cur dx dy = Some next -> get b next = Some piece ->
  (first_occupied b cur dx dy k s p <-> k = 1%nat /\ s = next /\ p = piece).
Proof.
  intros E G. split.
  - intros (Hk & Hr & Hg & Hclear).
    destruct (Nat.eq_dec k 1) as [->|Hne].
    + simpl in Hr. rewrite E in Hr. injection Hr as <-.
      rewrite G in Hg. injection Hg as <-. auto.
    + exfalso. specialize (Hclear 1%nat next ltac:(lia)).
      simpl in Hclear. rewrite E in Hclear. specialize (Hclear eq_refl). congruence.
  - intros (-> & -> & ->). repeat split; auto.
    + simpl. now rewrite E.
    + intros j s' Hj. lia.
Qed.

Lemma first_occupied_step b cur next dx dy k s p :
  offset cur dx dy = Some next -> get b next = None ->
  (first_occupied b cur dx dy k s p
   <-> exists k', k = S k' /\ first_occupied b next dx dy k' s p).
Proof.
  intros E G. split.
  - intros (Hk & Hr & Hg & Hclear).
    destruct k as [|k']; [lia|]. exists k'. split; auto.
    simpl in Hr. rewrite E in Hr.
    destruct k' as [|k''].
    + injection Hr as <-. congruence.
    + repeat split; auto; try lia.
      intros j s' Hj Hj'. apply (Hclear (S j) s'); [lia|].
      simpl. now rewrite E.
  - intros (k' & -> & Hk & Hr & Hg & Hclear).
    repeat split; auto; try lia.
    + simpl. now rewrite E.
    + intros j s' Hj Hj'. destruct j as [|j]; [lia|].
      simpl in Hj'. rewrite E in Hj'. destruct j as [|j].
      * injection Hj' as <-. auto.
      * apply (Hclear (S j) s'); auto. lia.
Qed.

(** At most one square is the first occupied one of a ray. *)
Lemma first_occupied_unique b t dx dy k1 k2 s1 s2 p1 p2 :
  first_occupied b t dx dy k1 s1 p1 -> first_occupied b t dx dy k2 s2 p2 ->
  k1 = k2 /\ s1 = s2 /\ p1 = p2.
Proof.
  intros (Hk1 & Hr1 & Hg1 & Hc1) (Hk2 & Hr2 & Hg2 & Hc2).
  destruct (Nat.lt_trichotomy k1 k2) as [H|[H|H]].
  - specialize (Hc2 k1 s1 ltac:(lia) Hr1). congruence.
  - subst. rewrite Hr1 in Hr2. injection Hr2 as <-. split; auto. split; congruence.
  - specialize (Hc1 k2 s2 ltac:(lia) Hr2). congruence.
Qed.

(** What the sliding walk records: the first occupied square of the ray,
    if its occupant passes the type and colour tests. *)
Lemma sliding_walk_In (n : nat) b by_color valid_types dx dy s p :
  forall cur,
  In (s, p) (sliding_walk n b by_color valid_types cur dx dy)
  <-> exists k, (k <= n)%nat /\ first_occupied b cur dx dy k s p
                /\ type_in (piece_type p) valid_types = true
                /\ color_matches by_color p = true.
Proof.
  induction n as [|n IH]; intros cur; simpl.
  - split; [tauto|]. intros (k & Hk & (Hk1 & _) & _). lia.
  - destruct (offset cur dx dy) as [next|] eqn:E.
    + destruct (get b next) as [piece|] eqn:G.
      * split.
        -- intros H. exists 1%nat.
           destruct (type_in (piece_type piece) valid_types) eqn:T; [|contradiction].
           destruct (color_matches by_color piece) eqn:C; [|contradiction].
           destruct H as [H|[]]. injection H as <- <-.
           split; [lia|]. split; auto.
           apply (first_occupied_blocked b cur next piece dx dy); auto.
        -- intros (k & Hk & Hfo & T & C).
           apply (first_occupied_blocked b cur next piece dx dy) in Hfo; auto.
           destruct Hfo as (-> & -> & ->). rewrite T, C. now left.
      * rewrite IH. split.
        -- intros (k & Hk & Hfo & T & C). exists (S k). split; [lia|].
           split; auto. apply (first_occupied_step b cur next); eauto.
        -- intros (k & Hk & Hfo & T & C).
           apply (first_occupied_step b cur next) in Hfo; auto.
           destruct Hfo as (k' & -> & Hfo). exists k'. split; [lia|]. auto.
    + split; [intros H; inversion H|]. intros (k & _ & Hfo & _).
      now apply first_occupied_off_board in Hfo.
Qed.

(** The fuel of a walk is enough as soon as the ray is shorter. *)
Lemma sliding_walk_stable (n : nat) b by_color valid_types dx dy :
  forall cur m, ray (S n) cur dx dy = None -> (n <= m)%nat ->
  sliding_walk m b by_color valid_types cur dx dy
  = sliding_walk n b by_color valid_types cur dx dy.
Proof.
  induction n as [|n IH]; intros cur m Hr Hm.
  - simpl in Hr. destruct (offset cur dx dy) eqn:E; [discriminate|].
    destruct m; simpl; auto. now rewrite E.
  - destruct m as [|m]; [lia|]. simpl.
    destruct (offset cur dx dy) as [next|] eqn:E; auto.
    destruct (get b next); auto. apply IH; [|lia].
    change (ray (S (S n)) cur dx dy) with
      (match offset cur dx dy with Some s' => ray (S n) s' dx dy | None => None end) in Hr.
    now rewrite E in Hr.
Qed.

(** Eight iterations reach the [break] of every sliding walk: more fuel
    never changes what the walk records. *)
Lemma sliding_walk_fuel (m : nat) b by_color valid_types cur dx dy :
  In (dx, dy) QUEEN_DIRECTIONS -> (WALK_FUEL <= m)%nat ->
  sliding_walk m b by_color valid_types cur dx dy
  = sliding_walk WALK_FUEL b by_color valid_types cur dx dy.
Proof.
  intros Hd Hm. apply sliding_walk_stable; auto.
  now apply ray_nine_steps_off_board.
Qed.

Lemma type_in_spec t l : type_in t l = true <-> In t l.
Proof.
  unfold type_in. rewrite existsb_exists. split.
  - intros (x & Hx & E). destruct t, x; try discriminate; auto.
  - intros H. exists t. split; auto. destruct t; reflexivity.
Qed.

Lemma Color_eqb_eq a b : Color_eqb a b = true <-> a = b.
Proof. destruct a, b; simpl; split; congruence. Qed.

Lemma PieceType_eqb_eq a b : PieceType_eqb a b = true <-> a = b.
Proof. destruct a, b; simpl; split; congruence. Qed.

Lemma color_matches_spec by_color p :
  color_matches by_color p = true <-> filter_ok by_color p.
Proof.
  unfold color_matches, filter_ok. destruct by_color as [c|].
  - rewrite Color_eqb_eq. split; [intros ->; auto | intros [H|H]; congruence].
  - split; auto.
Qed.

Lemma check_sliding_In b target by_color directions valid_types s p :
  (forall d, In d directions -> In d QUEEN_DIRECTIONS) ->
  In (s, p) (check_sliding b target by_color directions valid_types)
  <-> exists d k, In d directions
                  /\ first_occupied b target (fst d) (snd d) k s p
                  /\ In (piece_type p) valid_types
                  /\ filter_ok by_color p.
Proof.
  intros Hsub. unfold check_sliding. rewrite in_flat_map. split.
  - intros ([dx dy] & Hd & H). apply sliding_walk_In in H.
    destruct H as (k & _ & Hfo & T & C).
    exists (dx, dy), k. rewrite <- type_in_spec, <- color_matches_spec. auto.
  - intros ([dx dy] & k & Hd & Hfo & T & C). exists (dx, dy). split; auto.
    apply sliding_walk_In. exists k.
    rewrite type_in_spec, color_matches_spec. split; [|auto].
    destruct Hfo as (_ & Hr & _). simpl in Hr.
    apply ray_bound in Hr; auto.
Qed.

(* ------------------------------------------------------------------ *)
(** ** What [get_attackers] records *)

Lemma knight_attackers_In b target by_color s p :
  In (s, p) (knight_attackers b target by_color)
  <-> exists off, In off KNIGHT_OFFSETS
                  /\ offset target (fst off) (snd off) = Some s
                  /\ get b s = Some p /\ piece_type p = KNIGHT
                  /\ filter_ok by_color p.
Proof.
  unfold knight_attackers. rewrite in_flat_map.
  split; intros (off & Hoff & H); exists off; (split; [exact Hoff|]).
  - destruct (offset target (fst off) (snd off)) as [a|]; [|inversion H].
    destruct (get b a) as [piece|] eqn:G; [|inversion H].
    destruct (PieceType_eqb (piece_type piece) KNIGHT) eqn:T; [|inversion H].
    destruct (color_matches by_color piece) eqn:C; [|inversion H].
    destruct H as [H|[]]. injection H as -> ->.
    apply PieceType_eqb_eq in T. apply color_matches_spec in C. auto.
  - destruct H as (-> & -> & T & C).
    apply PieceType_eqb_eq in T. apply color_matches_spec in C.
    rewrite T, C. now left.
Qed.

Lemma king_attackers_In b target by_color s p :
  In (s, p) (king_attackers b target by_color)
  <-> exists off, In off KING_OFFSETS
                  /\ offset target (fst off) (snd off) = Some s
                  /\ get b s = Some p /\ piece_type p = KING
                  /\ filter_ok by_color p.
Proof.
  unfold king_attackers. rewrite in_flat_map.
  split; intros (off & Hoff & H); exists off; (split; [exact Hoff|]).
  - destruct (offset target (fst off) (snd off)) as [a|]; [|inversion H].
    destruct (get b a) as [piece|] eqn:G; [|inversion H].
    destruct (PieceType_eqb (piece_type piece) KING) eqn:T; [|inversion H].
    destruct (color_matches by_color piece) eqn:C; [|inversion H].
    destruct H as [H|[]]. injection H as -> ->.
    apply PieceType_eqb_eq in T. apply color_matches_spec in C. auto.
  - destruct H as (-> & -> & T & C).
    apply PieceType_eqb_eq in T. apply color_matches_spec in C.
    rewrite T, C. now left.
Qed.

Lemma pawn_attackers_In b target by_color s p :
  In (s, p) (pawn_attackers b target by_color)
  <-> exists file_dir, (file_dir = -1 \/ file_dir = 1)
                       /\ offset target file_dir (pawn_back (color p)) = Some s
                       /\ get b s = Some p /\ piece_type p = PAWN
                       /\ filter_ok by_color p.
Proof.
  unfold pawn_attackers. rewrite in_flat_map. split.
  - intros ([c rd] & Hc & H).
    destruct (match by_color with Some bc => negb (Color_eqb bc c) | None => false end)
      eqn:F; [inversion H|].
    apply in_flat_map in H. destruct H as (fd & Hfd & H).
    destruct (offset target fd rd) as [a|] eqn:E; [|inversion H].
    destruct (get b a) as [piece|] eqn:G; [|inversion H].
    destruct (PieceType_eqb (piece_type piece) PAWN && Color_eqb (color piece) c)
      eqn:T; [|inversion H].
    destruct H as [H|[]]. injection H as -> ->.
    apply andb_true_iff in T. destruct T as [T C].
    apply PieceType_eqb_eq in T. apply Color_eqb_eq in C.
    exists fd. split; [simpl in Hfd; intuition|].
    assert (rd = pawn_back (color p)) as ->.
    { simpl in Hc. destruct Hc as [Hc|[Hc|[]]]; injection Hc as <- <-;
        rewrite C; reflexivity. }
    repeat split; auto.
    unfold filter_ok. destruct by_color as [bc|]; auto. right.
    apply negb_false_iff, Color_eqb_eq in F. congruence.
  - intros (fd & Hfd & E & G & T & C).
    exists (color p, pawn_back (color p)). split.
    { destruct (color p); simpl; auto. }
    replace (match by_color with Some bc => negb (Color_eqb bc (color p)) | None => false end)
      with false.
    + apply in_flat_map. exists fd. split; [simpl; intuition|].
      rewrite E, G. apply PieceType_eqb_eq in T. rewrite T.
      replace (Color_eqb (color p) (color p)) with true
        by (symmetry; now apply Color_eqb_eq).
      now left.
    + destruct C as [->| ->]; auto. symmetry.
      apply negb_false_iff. now apply Color_eqb_eq.
Qed.

Lemma BISHOP_in_QUEEN d : In d BISHOP_DIRECTIONS -> In d QUEEN_DIRECTIONS.
Proof. unfold QUEEN_DIRECTIONS. intros H. apply in_or_app. auto. Qed.

Lemma ROOK_in_QUEEN d : In d ROOK_DIRECTIONS -> In d QUEEN_DIRECTIONS.
Proof. unfold QUEEN_DIRECTIONS. intros H. apply in_or_app. auto. Qed.

Lemma QUEEN_DIRECTIONS_split d :
  In d QUEEN_DIRECTIONS <-> diagonal d \/ orthogonal d.
Proof. unfold QUEEN_DIRECTIONS, diagonal, orthogonal. apply in_app_iff. Qed.

(** The sliding records of [get_attackers]: first occupied square of one of
    the eight rays, compatible type, colour filter passed. *)
Lemma sliding_attackers_In b target by_color s p :
  In (s, p) (check_sliding b target by_color BISHOP_DIRECTIONS [BISHOP; QUEEN]
             ++ check_sliding b target by_color ROOK_DIRECTIONS [ROOK; QUEEN])
  <-> exists d k, In d QUEEN_DIRECTIONS
                  /\ first_occupied b target (fst d) (snd d) k s p
                  /\ compatible d (piece_type p)
                  /\ filter_ok by_color p.
Proof.
  rewrite in_app_iff.
  rewrite (check_sliding_In _ _ _ _ _ _ _ BISHOP_in_QUEEN).
  rewrite (check_sliding_In _ _ _ _ _ _ _ ROOK_in_QUEEN).
  unfold compatible, diagonal, orthogonal. split.
  - intros [(d & k & Hd & Hfo & T & C)|(d & k & Hd & Hfo & T & C)];
      exists d, k; simpl in T.
    + split; [now apply BISHOP_in_QUEEN|]. intuition.
    + split; [now apply ROOK_in_QUEEN|]. intuition.
  - intros (d & k & Hd & Hfo & [[Hdiag T]|[Horth T]] & C).
    + left. exists d, k. simpl. intuition.
    + right. exists d, k. simpl. intuition.
Qed.

Lemma get_attackers_slider_In b target by_color s p :
  slider (piece_type p) ->
  (In (s, p) (get_attackers b target by_color)
   <-> exists d k, In d QUEEN_DIRECTIONS
                   /\ first_occupied b target (fst d) (snd d) k s p
                   /\ compatible d (piece_type p)
                   /\ filter_ok by_color p).
Proof.
  intros Hs. unfold get_attackers.
  rewrite <- sliding_attackers_In.
  rewrite in_app_iff, in_app_iff, in_app_iff.
  rewrite knight_attackers_In, king_attackers_In, pawn_attackers_In.
  unfold slider in Hs. split.
  - intros [(off & _ & _ & _ & T & _)|[(off & _ & _ & _ & T & _)
            |[(fd & _ & _ & _ & T & _)|H]]]; auto;
      rewrite T in Hs; destruct Hs as [Hs|[Hs|Hs]]; discriminate.
  - intros H. right. right. right. exact H.
Qed.

Lemma get_set_same b x q : get (set b x (Some q)) x = Some q.
Proof. unfold get, set, with_pieces; simpl. apply dict_get_setitem_same. Qed.

Lemma get_set_other b x y q :
  index x <> index y -> get (set b x (Some q)) y = get b y.
Proof.
  intros H. unfold get, set, with_pieces; simpl. now apply dict_get_setitem_other.
Qed.

Lemma get_attackers_slider_sliding b target by_color s p :
  slider (piece_type p) ->
  (In (s, p) (get_attackers b target by_color)
   <-> In (s, p) (check_sliding b target by_color BISHOP_DIRECTIONS [BISHOP; QUEEN]
                  ++ check_sliding b target by_color ROOK_DIRECTIONS [ROOK; QUEEN])).
Proof.
  intros Hs. rewrite sliding_attackers_In. now apply get_attackers_slider_In.
Qed.

(** A piece standing strictly between the target and a square of the same
    ray hides that square from the sliding probe. *)
Lemma occluded_not_attacker b target by_color d j k x a p q :
  In d QUEEN_DIRECTIONS -> (1 <= j < k)%nat ->
  ray j target (fst d) (snd d) = Some x ->
  ray k target (fst d) (snd d) = Some a ->
  slider (piece_type p) ->
  ~ In (a, p) (get_attackers (set b x (Some q)) target by_color).
Proof.
  intros Hd Hjk Hx Ha Hs Hin.
  apply get_attackers_slider_In in Hin; auto.
  destruct Hin as (d' & k' & Hd' & (Hk' & Hr' & Hg' & Hclear) & _).
  destruct (ray_injective k' k target a d' d Hd' Hd ltac:(lia) ltac:(lia) Hr' Ha)
    as [-> ->].
  specialize (Hclear j x ltac:(lia) Hx).
  rewrite get_set_same in Hclear. discriminate.
Qed.

(** C1 — sliding probe of [get_attackers].  For every board, target and
    optional colour filter: (1) the sliding probe records a pair (square,
    piece) exactly when, on one of the eight rays from the target, the square
    is the first occupied one, the piece's type is compatible with the ray
    (diagonal: bishop or queen; orthogonal: rook or queen) and the colour
    filter is absent or matches, so an incompatible first occupant ends its
    ray unrecorded and nothing behind it is recorded; (2) bishops, rooks and
    queens enter the attacker list through the sliding probe only; (3) after
    a piece is put on a square strictly between the target and a slider on
    the same ray, that slider is not in the attacker list. *)
Theorem get_attackers_sliding_probe :
  forall (b : Board) (target : Square) (by_color : option Color),
    (forall s p,
        In (s, p) (check_sliding b target by_color BISHOP_DIRECTIONS [BISHOP; QUEEN]
                   ++ check_sliding b target by_color ROOK_DIRECTIONS [ROOK; QUEEN])
        <-> exists d k, In d QUEEN_DIRECTIONS
                        /\ first_occupied b target (fst d) (snd d) k s p
                        /\ compatible d (piece_type p)
                        /\ filter_ok by_color p)
    /\ (forall s p,
           slider (piece_type p) ->
           (In (s, p) (get_attackers b target by_color)
            <-> In (s, p)
                   (check_sliding b target by_color BISHOP_DIRECTIONS [BISHOP; QUEEN]
                    ++ check_sliding b target by_color ROOK_DIRECTIONS [ROOK; QUEEN])))
    /\ (forall d j k x a p q,
           In d QUEEN_DIRECTIONS -> (1 <= j < k)%nat ->
           ray j target (fst d) (snd d) = Some x ->
           ray k target (fst d) (snd d) = Some a ->
           slider (piece_type p) ->
           ~ In (a, p) (get_attackers (set b x (Some q)) target by_color)).
Proof.
  intros b target by_color. split; [|split].
  - intros s p. apply sliding_attackers_In.
  - intros s p. apply get_attackers_slider_sliding.
  - intros d j k x a p q. apply occluded_not_attacker.
Qed.

(* ------------------------------------------------------------------ *)
(** ** Hanging and protected *)

Lemma len_pos {A : Type} (l : list A) : (py.len l >? 0) = true <-> (0 < List.length l)%nat.
Proof. unfold py.len. rewrite Z.gtb_lt. lia. Qed.

Lemma len_zero {A : Type} (l : list A) : (py.len l =? 0) = true <-> List.length l = 0%nat.
Proof. unfold py.len. rewrite Z.eqb_eq. lia. Qed.

Lemma len_geb {A B : Type} (l : list A) (l' : list B) :
  (py.len l >=? py.len l') = (List.length l' <=? List.length l)%nat.
Proof.
  unfold py.len. rewrite Z.geb_leb.
  destruct (Nat.leb_spec (List.length l') (List.length l)).
  - apply Z.leb_le. lia.
  - apply Z.leb_gt. lia.
Qed.

Lemma len_ltb {A B : Type} (l : list A) (l' : list B) :
  (py.len l <? py.len l') = (List.length l <? List.length l')%nat.
Proof.
  unfold py.len.
  destruct (Nat.ltb_spec (List.length l) (List.length l')).
  - apply Z.ltb_lt. lia.
  - apply Z.ltb_ge. lia.
Qed.

(** C2 — [is_hanging].  On an empty square the answer is [False]; on a
    square holding [piece] it is [True] exactly when at least one piece of the
    opposite colour attacks the square and the square has no defender, the
    defenders being the attackers of the occupant's own colour. *)
Theorem is_hanging_spec :
  forall (b : Board) (S : Square),
    (get b S = None -> is_hanging b S = false)
    /\ (forall piece,
           get b S = Some piece ->
           get_defenders b S = get_attackers b S (Some (color piece))
           /\ (is_hanging b S = true
               <-> (0 < List.length (get_attackers b S (Some (opposite (color piece)))))%nat
                   /\ List.length (get_defenders b S) = 0%nat)).
Proof.
  intros b S. split.
  - intros H. unfold is_hanging. now rewrite H.
  - intros piece H. split.
    + unfold get_defenders. now rewrite H.
    + unfold is_hanging. rewrite H. cbv zeta.
      rewrite andb_true_iff, len_pos, len_zero. tauto.
Qed.

(** C9 — [is_protected].  On an empty square the answer is [True]; on a
    square holding [piece] it is [True] exactly when the defenders are at
    least as many as the attackers of the opposite colour.  The verdict is a
    function of the two counts alone. *)
Theorem is_protected_spec :
  forall (b : Board) (S : Square),
    (get b S = None -> is_protected b S = true)
    /\ (forall piece,
           get b S = Some piece ->
           get_defenders b S = get_attackers b S (Some (color piece))
           /\ is_protected b S
              = (List.length (get_attackers b S (Some (opposite (color piece))))
                 <=? List.length (get_defenders b S))%nat
           /\ (is_protected b S = true
               <-> (List.length (get_defenders b S)
                    >= List.length (get_attackers b S (Some (opposite (color piece)))))%nat)).
Proof.
  intros b S. split.
  - intros H. unfold is_protected. now rewrite H.
  - intros piece H.
    assert (E : is_protected b S
                = (List.length (get_attackers b S (Some (opposite (color piece))))
                   <=? List.length (get_defenders b S))%nat).
    { unfold is_protected. rewrite H. cbv zeta. apply len_geb. }
    split; [|split].
    + unfold get_defenders. now rewrite H.
    + exact E.
    + rewrite E, Nat.leb_le. lia.
Qed.

(** C10 — [analyze_square] agrees with the classifiers.  The [is_hanging]
    and [is_protected] entries of the dictionary returned by
    [analyze_square] are the results of [is_hanging] and [is_protected] on the
    same board and square; on an empty square they are [False] and [True]. *)
Theorem analyze_square_agrees :
  forall (b : Board) (S : Square),
    py.lookup (analyze_square b S) "is_hanging" = Some (py.VBool (is_hanging b S))
    /\ py.lookup (analyze_square b S) "is_protected" = Some (py.VBool (is_protected b S))
    /\ (get b S = None ->
        py.lookup (analyze_square b S) "is_hanging" = Some (py.VBool false)
        /\ py.lookup (analyze_square b S) "is_protected" = Some (py.VBool true)).
Proof.
  intros b S.
  assert (H : py.lookup (analyze_square b S) "is_hanging" = Some (py.VBool (is_hanging b S))
              /\ py.lookup (analyze_square b S) "is_protected"
                 = Some (py.VBool (is_protected b S))).
  { unfold analyze_square, is_hanging, is_protected.
    destruct (get b S) as [pc|] eqn:G.
    - destruct (color pc) eqn:C; simpl; try rewrite C; simpl; auto.
    - simpl. auto. }
  destruct H as [H1 H2]. split; [exact H1|]. split; [exact H2|].
  intros G. rewrite H1, H2. unfold is_hanging, is_protected. rewrite G. auto.
Qed.

(* ------------------------------------------------------------------ *)
(** ** Scanning from the piece: [get_attacked_by_piece] *)

Lemma set_add_In (x y : Square) (l : list Square) :
  In x (py.set_add Square_eqb y l) <-> x = y \/ In x l.
Proof.
  unfold py.set_add, py.set_contains.
  destruct (existsb (Square_eqb y) l) eqn:E.
  - split; auto. intros [->|H]; auto.
    apply existsb_exists in E. destruct E as (z & Hz & E).
    apply Square_eqb_eq in E. now subst.
  - rewrite in_app_iff. simpl. intuition.
Qed.

Lemma attack_walk_In (n : nat) b dx dy x :
  forall cur acc,
  In x (attack_walk n b cur dx dy acc) ->
  In x acc \/ exists k, (1 <= k)%nat /\ ray k cur dx dy = Some x
                        /\ clear_before b cur dx dy k.
Proof.
  induction n as [|n IH]; intros cur acc; simpl; auto.
  destruct (offset cur dx dy) as [target|] eqn:E; auto.
  assert (Hone : ray 1 cur dx dy = Some target) by (simpl; now rewrite E).
  destruct (get b target) as [piece|] eqn:G.
  - rewrite set_add_In. intros [->|H]; auto.
    right. exists 1%nat. repeat split; auto. intros j s' Hj. lia.
  - intros H. apply IH in H. rewrite set_add_In in H.
    destruct H as [[->|H]|(k & Hk & Hr & Hclear)]; auto.
    + right. exists 1%nat. repeat split; auto. intros j s' Hj. lia.
    + right. exists (S k). repeat split; [lia | simpl; now rewrite E |].
      intros j s' Hj Hj'. destruct j as [|j]; [lia|].
      simpl in Hj'. rewrite E in Hj'. destruct j as [|j].
      * injection Hj' as <-. exact G.
      * apply (Hclear (S j) s'); auto. lia.
Qed.

Lemma add_rays_In b from_square directions x :
  forall acc,
  In x (add_rays b from_square directions acc) ->
  In x acc \/ exists d k, In d directions /\ (1 <= k)%nat
                          /\ ray k from_square (fst d) (snd d) = Some x
                          /\ clear_before b from_square (fst d) (snd d) k.
Proof.
  unfold add_rays.
  induction directions as [|[dx dy] ds IH]; intros acc; cbn [fold_left]; auto.
  intros H. apply IH in H. destruct H as [H|(d & k & Hd & H)].
  - apply attack_walk_In in H. destruct H as [H|(k & H)]; auto.
    right. exists (dx, dy), k. split; [now left | exact H].
  - right. exists d, k. split; [now right | exact H].
Qed.

Lemma add_offsets_In from_square offsets x :
  forall acc,
  In x (add_offsets from_square offsets acc) ->
  In x acc \/ exists off, In off offsets
                          /\ offset from_square (fst off) (snd off) = Some x.
Proof.
  unfold add_offsets.
  induction offsets as [|off offs IH]; intros acc; cbn [fold_left]; auto.
  intros H. apply IH in H. destruct H as [H|(o & Ho & H)].
  - destruct (offset from_square (fst off) (snd off)) as [t|] eqn:E.
    + apply set_add_In in H. destruct H as [->|H]; auto.
      right. exists off. split; [now left | exact E].
    + auto.
  - right. exists o. split; [now right | exact H].
Qed.

(** Walking a ray backwards from its end visits the same squares. *)
Lemma ray_reverse (k : nat) : forall (a t : Square) (dx dy : Z),
  on_board a -> ray k a dx dy = Some t ->
  forall j, (j <= k)%nat -> ray j t (- dx) (- dy) = ray (k - j) a dx dy.
Proof.
  induction k as [|k IH]; intros a t dx dy Ha H j Hj.
  - replace j with 0%nat by lia. simpl in *. congruence.
  - simpl in H. destruct (offset a dx dy) as [a1|] eqn:E; [|discriminate].
    assert (Ha1 : on_board a1) by (eapply offset_on_board; eauto).
    destruct (Nat.eq_dec j (S k)) as [->|Hne].
    + rewrite ray_S_last, (IH a1 t dx dy Ha1 H k) by lia.
      rewrite !Nat.sub_diag. simpl. now apply offset_back.
    + rewrite (IH a1 t dx dy Ha1 H j) by lia.
      replace (S k - j)%nat with (S (k - j)) by lia. simpl. now rewrite E.
Qed.

(** An unobstructed ray from an occupied on-board square [a] to [t] makes
    [a] the first occupied square of the opposite ray from [t]. *)
Lemma first_occupied_reverse b a t p dx dy k :
  on_board a -> get b a = Some p -> (1 <= k)%nat ->
  ray k a dx dy = Some t -> clear_before b a dx dy k ->
  first_occupied b t (- dx) (- dy) k a p.
Proof.
  intros Ha G Hk Hr Hclear. repeat split; auto.
  - rewrite (ray_reverse k a t dx dy Ha Hr k) by lia.
    rewrite Nat.sub_diag. reflexivity.
  - intros j s' Hj Hj'.
    rewrite (ray_reverse k a t dx dy Ha Hr j) in Hj' by lia.
    apply (Hclear (k - j)%nat s'); auto. lia.
Qed.

Lemma KNIGHT_OFFSETS_opp off :
  In off KNIGHT_OFFSETS -> In (- fst off, - snd off) KNIGHT_OFFSETS.
Proof.
  unfold KNIGHT_OFFSETS. simpl.
  intros H. repeat (destruct H as [<-|H]; [simpl; tauto|]). contradiction.
Qed.

Lemma KING_OFFSETS_opp off :
  In off KING_OFFSETS -> In (- fst off, - snd off) KING_OFFSETS.
Proof.
  unfold KING_OFFSETS. simpl.
  intros H. repeat (destruct H as [<-|H]; [simpl; tauto|]). contradiction.
Qed.

Lemma BISHOP_DIRECTIONS_opp d :
  In d BISHOP_DIRECTIONS -> In (- fst d, - snd d) BISHOP_DIRECTIONS.
Proof.
  unfold BISHOP_DIRECTIONS. simpl.
  intros H. repeat (destruct H as [<-|H]; [simpl; tauto|]). contradiction.
Qed.

Lemma ROOK_DIRECTIONS_opp d :
  In d ROOK_DIRECTIONS -> In (- fst d, - snd d) ROOK_DIRECTIONS.
Proof.
  unfold ROOK_DIRECTIONS. simpl.
  intros H. repeat (destruct H as [<-|H]; [simpl; tauto|]). contradiction.
Qed.

Lemma filter_ok_None p : filter_ok None p.
Proof. now left. Qed.

(** A slider reaching [t] along an unobstructed ray is found by the sliding
    probe from [t]. *)
Lemma slider_found_from_target b a t p d k :
  on_board a -> get b a = Some p -> In d QUEEN_DIRECTIONS ->
  compatible d (piece_type p) ->
  (1 <= k)%nat -> ray k a (fst d) (snd d) = Some t ->
  clear_before b a (fst d) (snd d) k ->
  In (a, p) (get_attackers b t None).
Proof.
  intros Ha G Hd Hc Hk Hr Hclear.
  assert (Hs : slider (piece_type p)).
  { unfold slider. destruct Hc as [[_ [H|H]]|[_ [H|H]]]; auto. }
  apply get_attackers_slider_In; auto.
  exists (- fst d, - snd d), k. simpl. split; [|split; [|split]].
  - apply QUEEN_DIRECTIONS_split. apply QUEEN_DIRECTIONS_split in Hd.
    destruct Hd as [Hd|Hd]; [left; now apply BISHOP_DIRECTIONS_opp
                            | right; now apply ROOK_DIRECTIONS_opp].
  - now apply first_occupied_reverse.
  - unfold compatible, diagonal, orthogonal in *.
    destruct Hc as [[Hd' T]|[Hd' T]];
      [left; split; auto; now apply BISHOP_DIRECTIONS_opp
      | right; split; auto; now apply ROOK_DIRECTIONS_opp].
  - apply filter_ok_None.
Qed.

(** C3 — symmetry of threat.  If the piece [P] stands on the on-board
    square [A] and [B] is among the squares [get_attacked_by_piece] projects
    from it, then [(A, P)] is among the attackers [get_attackers] finds for
    [B]: for knights, kings, pawns of either colour and sliders behind any
    occlusion. *)
Theorem threat_symmetry :
  forall (b : Board) (A : Square) (P : Piece) (B : Square),
    on_board A ->
    get b A = Some P ->
    In B (get_attacked_by_piece b A P) ->
    In (A, P) (get_attackers b B None).
Proof.
  intros b A P B HA G HB.
  unfold get_attacked_by_piece in HB. cbv zeta in HB.
  destruct (piece_type P) eqn:T; simpl type_in in HB; cbv iota in HB.
  - (* pawn *)
    apply add_offsets_In in HB. destruct HB as [[]|(off & Hoff & E)].
    unfold get_attackers. apply in_or_app. right. apply in_or_app. right.
    apply in_or_app. left. apply pawn_attackers_In.
    exists (- fst off). apply offset_back in E; auto.
    destruct (color P) eqn:C; simpl in Hoff;
      destruct Hoff as [<-|[<-|[]]]; simpl in *;
      (split; [lia|]); repeat split; auto using filter_ok_None.
  - (* knight *)
    apply add_offsets_In in HB. destruct HB as [[]|(off & Hoff & E)].
    unfold get_attackers. apply in_or_app. left. apply knight_attackers_In.
    exists (- fst off, - snd off). simpl.
    split; [now apply KNIGHT_OFFSETS_opp|].
    split; [now apply offset_back|]. auto using filter_ok_None.
  - (* bishop *)
    apply add_rays_In in HB. destruct HB as [[]|(d & k & Hd & Hk & Hr & Hclear)].
    apply (slider_found_from_target b A B P d k); auto.
    + now apply BISHOP_in_QUEEN.
    + left. rewrite T. split; auto.
  - (* rook *)
    apply add_rays_In in HB. destruct HB as [[]|(d & k & Hd & Hk & Hr & Hclear)].
    apply (slider_found_from_target b A B P d k); auto.
    + now apply ROOK_in_QUEEN.
    + right. rewrite T. split; auto.
  - (* queen *)
    apply add_rays_In in HB. destruct HB as [HB|(d & k & Hd & Hk & Hr & Hclear)].
    + apply add_rays_In in HB. destruct HB as [[]|(d & k & Hd & Hk & Hr & Hclear)].
      apply (slider_found_from_target b A B P d k); auto.
      * now apply BISHOP_in_QUEEN.
      * left. rewrite T. split; auto.
    + apply (slider_found_from_target b A B P d k); auto.
      * now apply ROOK_in_QUEEN.
      * right. rewrite T. split; auto.
  - (* king *)
    apply add_offsets_In in HB. destruct HB as [[]|(off & Hoff & E)].
    unfold get_attackers. apply in_or_app. right. apply in_or_app. left.
    apply king_attackers_In.
    exists (- fst off, - snd off). simpl.
    split; [now apply KING_OFFSETS_opp|].
    split; [now apply offset_back|]. auto using filter_ok_None.
Qed.

(* ------------------------------------------------------------------ *)
(** ** Pins *)

Lemma pin_walk_second (n : nat) b dx dy f r1 s2 p2 :
  forall cur,
  pin_walk n b cur dx dy (Some f) = (r1, Some (s2, p2))
  <-> r1 = Some f /\ exists k, (k <= n)%nat /\ first_occupied b cur dx dy k s2 p2.
Proof.
  induction n as [|n IH]; intros cur; simpl.
  - split; [discriminate|]. intros (_ & k & Hk & (Hk1 & _)). lia.
  - destruct (offset cur dx dy) as [next|] eqn:E.
    + destruct (get b next) as [piece|] eqn:G.
      * split.
        -- intros [= <- <- <-]. split; auto. exists 1%nat. split; [lia|].
           apply (proj2 (first_occupied_blocked _ _ _ _ _ _ _ _ _ E G)); auto.
        -- intros (-> & k & Hk & Hfo).
           apply (first_occupied_blocked b cur next piece dx dy) in Hfo; auto.
           destruct Hfo as (_ & -> & ->). reflexivity.
      * rewrite IH. split.
        -- intros (-> & k & Hk & Hfo). split; auto. exists (S k). split; [lia|].
           apply (first_occupied_step b cur next); eauto.
        -- intros (-> & k & Hk & Hfo). split; auto.
           apply (first_occupied_step b cur next) in Hfo; auto.
           destruct Hfo as (k' & -> & Hfo). exists k'. split; [lia|]. auto.
    + split; [discriminate|]. intros (_ & k & _ & Hfo).
      now apply first_occupied_off_board in Hfo.
Qed.

(** The walk of [find_pins] returns the first occupied square of the ray
    and the first occupied square beyond it. *)
Lemma pin_walk_first (n : nat) b dx dy s1 p1 s2 p2 :
  forall cur,
  pin_walk n b cur dx dy None = (Some (s1, p1), Some (s2, p2))
  <-> exists k1 k2, (k1 + k2 <= n)%nat
                    /\ first_occupied b cur dx dy k1 s1 p1
                    /\ first_occupied b s1 dx dy k2 s2 p2.
Proof.
  induction n as [|n IH]; intros cur; simpl.
  - split; [discriminate|]. intros (k1 & k2 & Hk & (Hk1 & _) & _). lia.
  - destruct (offset cur dx dy) as [next|] eqn:E.
    + destruct (get b next) as [piece|] eqn:G.
      * rewrite pin_walk_second. split.
        -- intros ([= <- <-] & k & Hk & Hfo). exists 1%nat, k.
           split; [lia|]. split; auto.
           apply (proj2 (first_occupied_blocked _ _ _ _ _ _ _ _ _ E G)); auto.
        -- intros (k1 & k2 & Hk & Hfo1 & Hfo2).
           apply (first_occupied_blocked b cur next piece dx dy) in Hfo1; auto.
           destruct Hfo1 as (-> & -> & ->). split; auto.
           exists k2. split; [lia|]. auto.
      * rewrite IH. split.
        -- intros (k1 & k2 & Hk & Hfo1 & Hfo2). exists (S k1), k2.
           split; [lia|]. split; auto.
           apply (first_occupied_step b cur next); eauto.
        -- intros (k1 & k2 & Hk & Hfo1 & Hfo2).
           apply (first_occupied_step b cur next) in Hfo1; auto.
           destruct Hfo1 as (k' & -> & Hfo1). exists k', k2. split; [lia|]. auto.
    + split; [discriminate|]. intros (k1 & k2 & _ & Hfo & _).
      now apply first_occupied_off_board in Hfo.
Qed.

Lemma pin_walk_stable (n : nat) b dx dy :
  forall cur first m, ray (S n) cur dx dy = None -> (n <= m)%nat ->
  pin_walk m b cur dx dy first = pin_walk n b cur dx dy first.
Proof.
  induction n as [|n IH]; intros cur first m Hr Hm.
  - simpl in Hr. destruct (offset cur dx dy) eqn:E; [discriminate|].
    destruct m; simpl; auto. now rewrite E.
  - destruct m as [|m]; [lia|]. simpl.
    destruct (offset cur dx dy) as [next|] eqn:E; auto.
    change (ray (S (S n)) cur dx dy) with
      (match offset cur dx dy with Some s' => ray (S n) s' dx dy | None => None end) in Hr.
    rewrite E in Hr.
    destruct (get b next); [destruct first|]; auto; apply IH; auto; lia.
Qed.

(** Eight iterations reach the [break] of every pin walk. *)
Lemma pin_walk_fuel (m : nat) b cur dx dy first :
  In (dx, dy) QUEEN_DIRECTIONS -> (WALK_FUEL <= m)%nat ->
  pin_walk m b cur dx dy first = pin_walk WALK_FUEL b cur dx dy first.
Proof.
  intros Hd Hm. apply pin_walk_stable; auto.
  now apply ray_nine_steps_off_board.
Qed.

(** Two consecutive stretches of a ray from the direction tables stay
    within the eight iterations. *)
Lemma two_stretches_bound b cur dx dy k1 k2 s1 p1 s2 p2 :
  In (dx, dy) QUEEN_DIRECTIONS ->
  first_occupied b cur dx dy k1 s1 p1 -> first_occupied b s1 dx dy k2 s2 p2 ->
  (k1 + k2 <= WALK_FUEL)%nat.
Proof.
  intros Hd (_ & Hr1 & _) (_ & Hr2 & _).
  apply (ray_bound (k1 + k2) cur s2 dx dy Hd).
  rewrite ray_add, Hr1. exact Hr2.
Qed.

Lemma get_pieces_by_color_In b c s p :
  In (s, p) (get_pieces_by_color b c) <-> In (index s, p) (pieces b) /\ color p = c.
Proof.
  unfold get_pieces_by_color, dict.items. rewrite in_flat_map. split.
  - intros ([idx piece] & Hin & H).
    destruct (Color_eqb (color piece) c) eqn:C; [|inversion H].
    destruct H as [H|[]]. injection H as <- <-. simpl.
    apply Color_eqb_eq in C. auto.
  - intros [Hin C]. exists (index s, p). split; auto.
    apply Color_eqb_eq in C. rewrite C. left. destruct s; reflexivity.
Qed.

(** With distinct keys, the pieces of a colour are the occupants of that
    colour. *)
Lemma get_pieces_by_color_get b c s p :
  dict.wf (pieces b) ->
  (In (s, p) (get_pieces_by_color b c) <-> get b s = Some p /\ color p = c).
Proof.
  intros Hwf. rewrite get_pieces_by_color_In. unfold get. split.
  - intros [Hin C]. split; auto. now apply dict_In_get.
  - intros [G C]. split; auto. now apply dict_get_In.
Qed.

Lemma is_diagonal_BISHOP d :
  In d BISHOP_DIRECTIONS -> (Z.abs (fst d) =? Z.abs (snd d)) = true.
Proof.
  unfold BISHOP_DIRECTIONS. simpl.
  intros H. repeat (destruct H as [<-|H]; [reflexivity|]). contradiction.
Qed.

Lemma is_diagonal_ROOK d :
  In d ROOK_DIRECTIONS -> (Z.abs (fst d) =? Z.abs (snd d)) = false.
Proof.
  unfold ROOK_DIRECTIONS. simpl.
  intros H. repeat (destruct H as [<-|H]; [reflexivity|]). contradiction.
Qed.

(** What one direction from one protected piece contributes. *)
Lemma pins_along_In b c protected d r :
  In d QUEEN_DIRECTIONS ->
  (In r (pins_along b c protected d)
   <-> exists k1 k2 first second,
         first_occupied b (fst protected) (fst d) (snd d) k1 (fst first) (snd first)
         /\ first_occupied b (fst first) (fst d) (snd d) k2 (fst second) (snd second)
         /\ color (snd first) = c
         /\ color (snd second) = opposite c
         /\ compatible d (piece_type (snd second))
         /\ r = pin_record first second protected (Z.abs (fst d) =? Z.abs (snd d))).
Proof.
  intros Hd. destruct d as [dx dy]. unfold pins_along. cbn [fst snd].
  destruct (pin_walk WALK_FUEL b (fst protected) dx dy None) as [[[s1 p1]|] [[s2 p2]|]] eqn:W.
  2-4: split; [intros []|];
       intros (k1 & k2 & [s1' p1'] & [s2' p2'] & Hfo1 & Hfo2 & _);
       assert (W' : pin_walk WALK_FUEL b (fst protected) dx dy None
                    = (Some (s1', p1'), Some (s2', p2')))
         by (apply pin_walk_first; exists k1, k2; split; auto;
             eapply two_stretches_bound; eauto);
       rewrite W in W'; discriminate.
  apply pin_walk_first in W. destruct W as (k1 & k2 & Hk & Hfo1 & Hfo2).
  cbn [fst snd].
  assert (Hcompat : (if Z.abs dx =? Z.abs dy
                     then type_in (piece_type p2) [BISHOP; QUEEN]
                     else type_in (piece_type p2) [ROOK; QUEEN]) = true
                    <-> compatible (dx, dy) (piece_type p2)).
  { unfold compatible, diagonal, orthogonal.
    apply QUEEN_DIRECTIONS_split in Hd. destruct Hd as [Hd|Hd].
    - rewrite (is_diagonal_BISHOP _ Hd : (Z.abs dx =? Z.abs dy) = true).
      rewrite type_in_spec. simpl. split.
      + intros [H|[H|[]]]; left; auto.
      + intros [[_ [H|H]]|[Ho _]]; auto.
        apply is_diagonal_ROOK in Ho. apply is_diagonal_BISHOP in Hd.
        simpl in *. congruence.
    - rewrite (is_diagonal_ROOK _ Hd : (Z.abs dx =? Z.abs dy) = false).
      rewrite type_in_spec. simpl. split.
      + intros [H|[H|[]]]; right; auto.
      + intros [[Hb _]|[_ [H|H]]]; auto.
        apply is_diagonal_ROOK in Hd. apply is_diagonal_BISHOP in Hb.
        simpl in *. congruence. }
  split.
  - intros H.
    destruct (Color_eqb (color p1) c && Color_eqb (color p2) (opposite c)) eqn:C;
      [|inversion H].
    apply andb_true_iff in C. destruct C as [C1 C2].
    apply Color_eqb_eq in C1, C2.
    destruct (if Z.abs dx =? Z.abs dy
              then type_in (piece_type p2) [BISHOP; QUEEN]
              else type_in (piece_type p2) [ROOK; QUEEN]) eqn:T; [|inversion H].
    destruct H as [<-|[]].
    exists k1, k2, (s1, p1), (s2, p2). cbn [fst snd].
    repeat split; auto; try apply Hfo1; try apply Hfo2. now apply Hcompat.
  - intros (k1' & k2' & [s1' p1'] & [s2' p2'] & Hfo1' & Hfo2' & C1 & C2 & T & ->).
    cbn [fst snd] in *.
    destruct (first_occupied_unique _ _ _ _ _ _ _ _ _ _ Hfo1 Hfo1') as (<- & <- & <-).
    destruct (first_occupied_unique _ _ _ _ _ _ _ _ _ _ Hfo2 Hfo2') as (<- & <- & <-).
    apply Color_eqb_eq in C1, C2. rewrite C1, C2. cbn [andb].
    apply Hcompat in T. rewrite T. now left.
Qed.

Lemma find_pins_In b c r :
  In r (find_pins b c)
  <-> exists protected d,
        In protected (get_pieces_by_color b c)
        /\ In (piece_type (snd protected)) [KING; QUEEN; ROOK]
        /\ In d QUEEN_DIRECTIONS
        /\ In r (pins_along b c protected d).
Proof.
  unfold find_pins. rewrite in_flat_map. split.
  - intros (protected & Hp & H).
    destruct (type_in (piece_type (snd protected)) [KING; QUEEN; ROOK]) eqn:T;
      cbn [negb] in H; [|inversion H].
    apply in_flat_map in H. destruct H as (d & Hd & H).
    exists protected, d. rewrite <- type_in_spec. auto.
  - intros (protected & d & Hp & T & Hd & H). exists protected. split; auto.
    apply type_in_spec in T. rewrite T. cbn [negb].
    apply in_flat_map. exists d. auto.
Qed.

(** The pin example, from the piece placement alone and from the whole FEN. *)
Lemma pin_example_placement :
  exists b,
    from_fen "4k3/8/8/4n3/8/8/8/4R2K" = Some b
    /\ find_pins b BLACK
       = [[ ("pinned_piece", py.VStr "n");
            ("pinned_square", py.VStr "e5");
            ("pinned_value", py.VInt 3);
            ("pinning_piece", py.VStr "R");
            ("pinning_square", py.VStr "e1");
            ("protected_piece", py.VStr "k");
            ("protected_square", py.VStr "e8");
            ("protected_value", py.VInt 100);
            ("pin_type", py.VStr "orthogonal");
            ("is_absolute", py.VBool true) ]].
Proof. eexists. split; [vm_compute; reflexivity|]. vm_compute. reflexivity. Qed.

Lemma pin_example_full :
  exists b,
    from_fen "4k3/8/8/4n3/8/8/8/4R2K w - - 0 1" = Some b
    /\ find_pins b BLACK
       = [[ ("pinned_piece", py.VStr "n");
            ("pinned_square", py.VStr "e5");
            ("pinned_value", py.VInt 3);
            ("pinning_piece", py.VStr "R");
            ("pinning_square", py.VStr "e1");
            ("protected_piece", py.VStr "k");
            ("protected_square", py.VStr "e8");
            ("protected_value", py.VInt 100);
            ("pin_type", py.VStr "orthogonal");
            ("is_absolute", py.VBool true) ]].
Proof. eexists. split; [vm_compute; reflexivity|]. vm_compute. reflexivity. Qed.

(** C4 — [find_pins].  (1) On a board whose squares hold at most one piece
    each, a record is in [find_pins b c] exactly when some piece of colour [c]
    of type king, queen or rook (the protected piece), one of the eight ray
    directions from it, the first occupied square of that ray holding a piece
    of colour [c] and the next occupied square beyond it holding a piece of
    the other colour whose type is compatible with the ray (diagonal: bishop
    or queen; orthogonal: rook or queen) exist, the record being built from
    these three pieces.  (2) A record has [is_absolute] true exactly when the
    protected piece is the king, and its [pin_type] names the geometry of the
    ray.  (3) On [4k3/8/8/4n3/8/8/8/4R2K], with or without the
    fields [w - - 0 1], the search for Black returns one record: the knight
    on e5 pinned by the rook on e1 in front of the king on e8, orthogonal and
    absolute. *)
Theorem find_pins_spec :
  (forall (b : Board) (c : Color),
      dict.wf (pieces b) ->
      forall r,
        In r (find_pins b c)
        <-> exists protected d k1 k2 first second,
              get b (fst protected) = Some (snd protected)
              /\ color (snd protected) = c
              /\ In (piece_type (snd protected)) [KING; QUEEN; ROOK]
              /\ In d QUEEN_DIRECTIONS
              /\ first_occupied b (fst protected) (fst d) (snd d) k1
                                (fst first) (snd first)
              /\ first_occupied b (fst first) (fst d) (snd d) k2
                                (fst second) (snd second)
              /\ color (snd first) = c
              /\ color (snd second) = opposite c
              /\ compatible d (piece_type (snd second))
              /\ r = pin_record first second protected
                                (Z.abs (fst d) =? Z.abs (snd d)))
  /\ (forall first second protected is_diagonal,
         (py.lookup (pin_record first second protected is_diagonal) "is_absolute"
          = Some (py.VBool true)
          <-> piece_type (snd protected) = KING)
         /\ py.lookup (pin_record first second protected is_diagonal) "pin_type"
            = Some (py.VStr (if is_diagonal then "diagonal" else "orthogonal")))
  /\ (forall fen,
         In fen ["4k3/8/8/4n3/8/8/8/4R2K"; "4k3/8/8/4n3/8/8/8/4R2K w - - 0 1"] ->
         exists b,
         from_fen fen = Some b
         /\ find_pins b BLACK
            = [[ ("pinned_piece", py.VStr "n");
                 ("pinned_square", py.VStr "e5");
                 ("pinned_value", py.VInt 3);
                 ("pinning_piece", py.VStr "R");
                 ("pinning_square", py.VStr "e1");
                 ("protected_piece", py.VStr "k");
                 ("protected_square", py.VStr "e8");
                 ("protected_value", py.VInt 100);
                 ("pin_type", py.VStr "orthogonal");
                 ("is_absolute", py.VBool true) ]]).
Proof.
  split; [|split].
  - intros b c Hwf r. rewrite find_pins_In. split.
    + intros (protected & d & Hp & T & Hd & H).
      apply pins_along_In in H; auto.
      destruct H as (k1 & k2 & first & second & H).
      exists protected, d, k1, k2, first, second.
      destruct protected as [ps pp]. apply get_pieces_by_color_get in Hp; auto.
      cbn [fst snd] in *. intuition.
    + intros (protected & d & k1 & k2 & first & second
              & G & C & T & Hd & H).
      exists protected, d. split; [|split; [|split]]; auto.
      * destruct protected as [ps pp]. apply get_pieces_by_color_get; auto.
      * apply pins_along_In; auto. exists k1, k2, first, second. exact H.
  - intros first second protected is_diagonal. split.
    + cbn. rewrite <- PieceType_eqb_eq. split; [intros [= ->]|intros ->]; auto.
    + reflexivity.
  - intros fen [H|[H|[]]]; subst fen.
    + exact pin_example_placement.
    + exact pin_example_full.
Qed.

(* ------------------------------------------------------------------ *)
(** ** The heap during [simulate_move] *)

Lemma nth_error_app_Some {A : Type} (l l' : list A) (i : nat) (x : A) :
  nth_error l i = Some x -> nth_error (l ++ l') i = Some x.
Proof.
  intros H. rewrite nth_error_app1; auto. apply nth_error_Some. congruence.
Qed.

Lemma nth_error_app_new {A : Type} (l l' : list A) (x : A) :
  nth_error (l ++ x :: l') (List.length l) = Some x.
Proof. rewrite nth_error_app2 by lia. now rewrite Nat.sub_diag. Qed.

Lemma update_app_new {A : Type} (l l' : list A) (x y : A) :
  update (l ++ x :: l') (List.length l) y = l ++ y :: l'.
Proof. induction l as [|a l IH]; simpl; auto. now rewrite IH. Qed.

(** [simulate_move] allocates two dict objects (the one of [Board()] and
    the copy) and one board object, and writes to nothing else. *)
Lemma simulate_move_run h r o d from_sq to_sq :
  nth_error (boards h) r = Some o ->
  nth_error (dicts h) (o_pieces o) = Some d ->
  analyze_move.simulate_move r from_sq to_sq h
  = Some (List.length (boards h),
          mkHeap ((dicts h ++ [dict.empty]) ++ [moved d from_sq to_sq])
                 (boards h ++ [mkBoardObj (List.length (dicts h ++ [dict.empty]))
                                          (opposite (o_turn o))
                                          (o_castling_rights o) None
                                          (o_halfmove_clock o)
                                          (o_fullmove_number o)])).
Proof.
  intros Hr Hd. destruct h as [ds bs]. simpl in Hr, Hd.
  unfold analyze_move.simulate_move, analyze_move.new_Board,
    analyze_move.set_pieces, analyze_move.set_turn,
    analyze_move.set_castling_rights, analyze_move.set_en_passant,
    analyze_move.set_halfmove_clock, analyze_move.set_fullmove_number,
    bind, ret, alloc_dict, alloc_board, read_board, write_board,
    read_dict, write_dict, dict.pop, dict.copy, moved.
  cbn [dicts boards o_pieces o_turn o_castling_rights o_en_passant
       o_halfmove_clock o_fullmove_number].
  repeat (rewrite ?(nth_error_app_Some bs _ r o Hr), ?nth_error_app_new,
           ?update_app_new,
           ?(nth_error_app_Some ds _ (o_pieces o) d Hd);
          cbn [dicts boards o_pieces o_turn o_castling_rights o_en_passant
               o_halfmove_clock o_fullmove_number fst snd]).
  destruct (dict.get d (index from_sq)) as [p|];
    repeat (rewrite ?(nth_error_app_Some bs _ r o Hr), ?nth_error_app_new,
             ?update_app_new,
             ?(nth_error_app_Some ds _ (o_pieces o) d Hd);
            cbn [dicts boards o_pieces o_turn o_castling_rights o_en_passant
                 o_halfmove_clock o_fullmove_number fst snd]);
    reflexivity.
Qed.

Lemma load_run h r o d :
  nth_error (boards h) r = Some o ->
  nth_error (dicts h) (o_pieces o) = Some d ->
  load r h = Some (snapshot o d, h).
Proof. intros Hr Hd. unfold load. now rewrite Hr, Hd. Qed.

Lemma load_inv h r b h' :
  load r h = Some (b, h') ->
  h' = h /\ exists o d, nth_error (boards h) r = Some o
                        /\ nth_error (dicts h) (o_pieces o) = Some d
                        /\ b = snapshot o d.
Proof.
  unfold load. destruct (nth_error (boards h) r) as [o|] eqn:Hr; [|discriminate].
  destruct (nth_error (dicts h) (o_pieces o)) as [d|] eqn:Hd; [|discriminate].
  intros [= <- <-]. split; auto. exists o, d. auto.
Qed.

Lemma load_old_after h r o d o' d' from_sq to_sq :
  nth_error (boards h) r = Some o ->
  nth_error (dicts h) (o_pieces o) = Some d ->
  load r (heap_after h o' d' from_sq to_sq)
  = Some (snapshot o d, heap_after h o' d' from_sq to_sq).
Proof.
  intros Hr Hd. apply load_run; unfold heap_after; cbn [boards dicts].
  - now apply nth_error_app_Some.
  - now apply nth_error_app_Some, nth_error_app_Some.
Qed.

Lemma load_new_after h o d from_sq to_sq :
  load (List.length (boards h)) (heap_after h o d from_sq to_sq)
  = Some (successor (snapshot o d) from_sq to_sq, heap_after h o d from_sq to_sq).
Proof.
  unfold load, heap_after. cbn [boards dicts].
  rewrite nth_error_app_new. cbn [o_pieces]. rewrite nth_error_app_new.
  reflexivity.
Qed.

(** [analyze_move], run on a valid board reference. *)
Lemma analyze_move_run h r o d from_sq to_sq :
  nth_error (boards h) r = Some o ->
  nth_error (dicts h) (o_pieces o) = Some d ->
  analyze_move.analyze_move r from_sq to_sq h
  = match get (snapshot o d) from_sq with
    | None =>
        Some ([("error", py.VStr (py.fstr ["No piece on "; name from_sq]))], h)
    | Some piece =>
        Some (analyze_move.report (snapshot o d)
                                  (successor (snapshot o d) from_sq to_sq)
                                  from_sq to_sq piece (get (snapshot o d) to_sq),
              heap_after h o d from_sq to_sq)
    end.
Proof.
  intros Hr Hd. unfold analyze_move.analyze_move, bind.
  rewrite (load_run h r o d Hr Hd).
  destruct (get (snapshot o d) from_sq) as [piece|]; [|reflexivity].
  rewrite (simulate_move_run h r o d from_sq to_sq Hr Hd).
  fold (heap_after h o d from_sq to_sq).
  rewrite (load_old_after h r o d o d from_sq to_sq Hr Hd).
  rewrite load_new_after. reflexivity.
Qed.

(* ------------------------------------------------------------------ *)
(** ** Move pre-analysis *)

Lemma moved_len d from_sq to_sq piece :
  dict.get d (index from_sq) = Some piece -> index from_sq <> index to_sq ->
  dict.len (moved d from_sq to_sq)
  = match dict.get d (index to_sq) with
    | Some _ => dict.len d - 1
    | None => dict.len d
    end.
Proof.
  intros G Hne. unfold moved. rewrite G.
  rewrite dict_len_setitem, dict_get_remove_other by auto.
  rewrite dict_len_remove, G. destruct (dict.get d (index to_sq)); lia.
Qed.

Lemma moved_get_from d from_sq to_sq piece :
  dict.wf d ->
  dict.get d (index from_sq) = Some piece -> index from_sq <> index to_sq ->
  dict.get (moved d from_sq to_sq) (index from_sq) = None.
Proof.
  intros Hwf G Hne. unfold moved. rewrite G.
  rewrite dict_get_setitem_other by auto. now apply dict_get_remove_same.
Qed.

Lemma moved_get_to d from_sq to_sq piece :
  dict.get d (index from_sq) = Some piece ->
  dict.get (moved d from_sq to_sq) (index to_sq) = Some piece.
Proof.
  intros G. unfold moved. rewrite G. apply dict_get_setitem_same.
Qed.

(** C5 (amended) — move simulation and piece counts.  For every board
    whose source square [from_sq] holds a piece and every destination
    [to_sq] different from it, the successor board built by [simulate_move]
    inside [analyze_move] has one piece fewer than the input when [to_sq] was
    occupied and as many otherwise, holds nothing on [from_sq] and holds the
    moved piece on [to_sq]. *)
Theorem simulate_move_counts :
  forall (h : Heap) (r : nat) (from_sq to_sq : Square) (b : Board) (piece : Piece),
    load r h = Some (b, h) ->
    dict.wf (pieces b) ->
    get b from_sq = Some piece ->
    from_sq <> to_sq ->
    exists res h' after,
      analyze_move.analyze_move r from_sq to_sq h = Some (res, h')
      /\ analyze_move.simulate_move r from_sq to_sq h
         = Some (List.length (boards h), h')
      /\ load (List.length (boards h)) h' = Some (after, h')
      /\ dict.len (pieces after)
         = match get b to_sq with
           | Some _ => dict.len (pieces b) - 1
           | None => dict.len (pieces b)
           end
      /\ get after from_sq = None
      /\ get after to_sq = Some piece.
Proof.
  intros h r from_sq to_sq b piece Hload Hwf G Hne.
  apply load_inv in Hload. destruct Hload as (_ & o & d & Hr & Hd & ->).
  assert (Hidx : index from_sq <> index to_sq).
  { intros E. apply Hne. now apply Square_eq. }
  exists (analyze_move.report (snapshot o d) (successor (snapshot o d) from_sq to_sq)
                              from_sq to_sq piece (get (snapshot o d) to_sq)),
         (heap_after h o d from_sq to_sq),
         (successor (snapshot o d) from_sq to_sq).
  split; [|split; [|split; [|split; [|split]]]].
  - rewrite (analyze_move_run h r o d from_sq to_sq Hr Hd), G. reflexivity.
  - apply simulate_move_run; auto.
  - apply load_new_after.
  - unfold get in *. cbn [pieces successor snapshot] in *.
    now apply (moved_len d from_sq to_sq piece).
  - unfold get in *. cbn [pieces successor snapshot] in *.
    now apply (moved_get_from d from_sq to_sq piece).
  - unfold get in *. cbn [pieces successor snapshot] in *.
    now apply (moved_get_to d from_sq to_sq piece).
Qed.

Lemma simulate_move_fresh h r o d from_sq to_sq :
  nth_error (boards h) r = Some o ->
  nth_error (dicts h) (o_pieces o) = Some d ->
  exists h1 o',
    analyze_move.simulate_move r from_sq to_sq h = Some (List.length (boards h), h1)
    /\ h1 = heap_after h o d from_sq to_sq
    /\ nth_error (boards h) (List.length (boards h)) = None
    /\ nth_error (boards h1) (List.length (boards h)) = Some o'
    /\ (List.length (dicts h) <= o_pieces o')%nat
    /\ load (List.length (boards h)) h1
       = Some (successor (snapshot o d) from_sq to_sq, h1)
    /\ load r h1 = Some (snapshot o d, h1)
    /\ (forall i o0, nth_error (boards h) i = Some o0 -> nth_error (boards h1) i = Some o0)
    /\ (forall i d0, nth_error (dicts h) i = Some d0 -> nth_error (dicts h1) i = Some d0).
Proof.
  intros Hr Hd.
  exists (heap_after h o d from_sq to_sq),
         (mkBoardObj (List.length (dicts h ++ [dict.empty]))
                     (opposite (o_turn o)) (o_castling_rights o) None
                     (o_halfmove_clock o) (o_fullmove_number o)).
  split; [now apply simulate_move_run|]. split; [reflexivity|].
  split; [apply nth_error_None; lia|].
  split; [unfold heap_after; cbn [boards]; apply nth_error_app_new|].
  split; [cbn [o_pieces]; rewrite length_app; lia|].
  split; [apply load_new_after|].
  split; [now apply load_old_after|].
  unfold heap_after; cbn [boards dicts]. split.
  - intros i o0 H. now apply nth_error_app_Some.
  - intros i d0 H. now apply nth_error_app_Some, nth_error_app_Some.
Qed.

(** C6 — the input board is left unchanged, the successor is a new
    snapshot.  Running [analyze_move] on a valid board reference returns;
    every board object and every dict object that existed before the call is
    unchanged after it, so the snapshot of the input board (piece map, side to
    move, castling rights, en-passant square and both counters) is the same
    before and after; and every board object the call allocates keeps its
    pieces in a dict object allocated by the call, never in one that existed
    before.  Its internal [simulate_move] always returns a reference that no
    board object had before, to a new board object whose pieces are in a new
    dict object and whose snapshot is the successor position, and leaves
    every earlier object, so the input's snapshot, as it was; when the source
    square holds a piece the heap [analyze_move] leaves is the one
    [simulate_move] leaves, and otherwise no object is allocated at all. *)
Theorem analyze_move_frame :
  forall (h : Heap) (r : nat) (from_sq to_sq : Square),
    valid_board h r ->
    exists res h',
      analyze_move.analyze_move r from_sq to_sq h = Some (res, h')
      /\ (forall i o, nth_error (boards h) i = Some o -> nth_error (boards h') i = Some o)
      /\ (forall i d, nth_error (dicts h) i = Some d -> nth_error (dicts h') i = Some d)
      /\ (exists b, load r h = Some (b, h) /\ load r h' = Some (b, h'))
      /\ (forall i o', (List.length (boards h) <= i)%nat ->
                       nth_error (boards h') i = Some o' ->
                       (List.length (dicts h) <= o_pieces o')%nat)
      /\ (forall b, load r h = Some (b, h) ->
           exists h1 o',
             analyze_move.simulate_move r from_sq to_sq h
             = Some (List.length (boards h), h1)
             /\ nth_error (boards h) (List.length (boards h)) = None
             /\ nth_error (boards h1) (List.length (boards h)) = Some o'
             /\ (List.length (dicts h) <= o_pieces o')%nat
             /\ load (List.length (boards h)) h1
                = Some (successor b from_sq to_sq, h1)
             /\ load r h1 = Some (b, h1)
             /\ (forall i o, nth_error (boards h) i = Some o ->
                             nth_error (boards h1) i = Some o)
             /\ (forall i d, nth_error (dicts h) i = Some d ->
                             nth_error (dicts h1) i = Some d)
             /\ (forall piece, get b from_sq = Some piece -> h' = h1)
             /\ (get b from_sq = None -> h' = h)).
Proof.
  intros h r from_sq to_sq (o & d & Hr & Hd).
  assert (Hsim : forall h',
             (forall piece, get (snapshot o d) from_sq = Some piece ->
                            h' = heap_after h o d from_sq to_sq) ->
             (get (snapshot o d) from_sq = None -> h' = h) ->
             forall b, load r h = Some (b, h) ->
             exists h1 o',
               analyze_move.simulate_move r from_sq to_sq h
               = Some (List.length (boards h), h1)
               /\ nth_error (boards h) (List.length (boards h)) = None
               /\ nth_error (boards h1) (List.length (boards h)) = Some o'
               /\ (List.length (dicts h) <= o_pieces o')%nat
               /\ load (List.length (boards h)) h1
                  = Some (successor b from_sq to_sq, h1)
               /\ load r h1 = Some (b, h1)
               /\ (forall i o, nth_error (boards h) i = Some o ->
                               nth_error (boards h1) i = Some o)
               /\ (forall i d, nth_error (dicts h) i = Some d ->
                               nth_error (dicts h1) i = Some d)
               /\ (forall piece, get b from_sq = Some piece -> h' = h1)
               /\ (get b from_sq = None -> h' = h)).
  { intros h' Hsome Hnone b Hb.
    rewrite (load_run h r o d Hr Hd) in Hb. injection Hb as <-.
    destruct (simulate_move_fresh h r o d from_sq to_sq Hr Hd)
      as (h1 & o' & S1 & Eh & S2 & S3 & S4 & S5 & S6 & S7 & S8).
    exists h1, o'. subst h1. repeat split; auto. }
  rewrite (analyze_move_run h r o d from_sq to_sq Hr Hd).
  destruct (get (snapshot o d) from_sq) as [piece|] eqn:G.
  - eexists _, _. split; [reflexivity|].
    split; [|split; [|split; [|split]]];
      [| | | |apply Hsim; [reflexivity | discriminate]];
      unfold heap_after; cbn [boards dicts].
    + intros i o0 H. now apply nth_error_app_Some.
    + intros i d0 H. now apply nth_error_app_Some, nth_error_app_Some.
    + exists (snapshot o d). split; [now apply load_run|].
      apply (load_old_after h r o d o d from_sq to_sq Hr Hd).
    + intros i o' Hi H.
      assert (i < List.length (boards h ++ [
                mkBoardObj (List.length (dicts h ++ [dict.empty]))
                           (opposite (o_turn o)) (o_castling_rights o) None
                           (o_halfmove_clock o) (o_fullmove_number o)]))%nat as Hlt
          by (apply nth_error_Some; congruence).
      rewrite length_app in Hlt. simpl in Hlt.
      replace i with (List.length (boards h)) in H by lia.
      rewrite nth_error_app_new in H. injection H as <-.
      cbn [o_pieces]. rewrite length_app. lia.
  - eexists _, _. split; [reflexivity|].
    split; [|split; [|split; [|split]]];
      [| | | |apply Hsim; [discriminate | reflexivity]]; auto.
    + exists (snapshot o d). split; now apply load_run.
    + intros i o' Hi H.
      assert (i < List.length (boards h))%nat by (apply nth_error_Some; congruence).
      lia.
Qed.

(** C7 — invalid move source.  On a valid board reference [analyze_move]
    returns (no dangling reference, no failing step).  If [from_sq] holds no
    piece the result is a dictionary with the single key [error], so none of
    the analysis fields, and the heap is untouched; if [from_sq] holds a
    piece the result has the eleven analysis fields and no [error] key. *)
Theorem analyze_move_error_result :
  forall (h : Heap) (r : nat) (from_sq to_sq : Square) (b : Board),
    load r h = Some (b, h) ->
    (get b from_sq = None ->
     exists msg,
       analyze_move.analyze_move r from_sq to_sq h = Some ([("error", py.VStr msg)], h)
       /\ forall k, In k REPORT_KEYS -> py.has_key [("error", py.VStr msg)] k = false)
    /\ (forall piece,
           get b from_sq = Some piece ->
           exists res h',
             analyze_move.analyze_move r from_sq to_sq h = Some (res, h')
             /\ py.keys res = REPORT_KEYS
             /\ py.has_key res "error" = false).
Proof.
  intros h r from_sq to_sq b Hload.
  apply load_inv in Hload. destruct Hload as (_ & o & d & Hr & Hd & ->).
  rewrite (analyze_move_run h r o d from_sq to_sq Hr Hd). split.
  - intros ->. eexists. split; [reflexivity|].
    intros k Hk. simpl in Hk.
    repeat (destruct Hk as [<-|Hk]; [reflexivity|]). contradiction.
  - intros piece ->. eexists _, _. split; [reflexivity|]. split; reflexivity.
Qed.

(** C8 — exchange estimate of a capture.  When [from_sq] holds [piece] and
    [to_sq] holds [captured], the report has an [exchange_analysis]
    dictionary in which [gain] is the value of [captured]; when at least one
    enemy piece attacks [to_sq] on the successor board (a recapturer),
    [potential_loss] is the value of [piece] and [likely_net] is gain minus
    loss if the defenders of [to_sq] on the successor board are fewer than the
    recapturers and gain otherwise; and [safe] is true exactly when the
    defenders are at least as many as the recapturers.  The successor board is the snapshot of
    the board object [simulate_move] returns for this move, on which the
    moving piece stands on [to_sq]. *)
Theorem analyze_move_exchange :
  forall (h : Heap) (r : nat) (from_sq to_sq : Square) (b : Board)
         (piece captured : Piece),
    load r h = Some (b, h) ->
    get b from_sq = Some piece ->
    get b to_sq = Some captured ->
    color captured = opposite (color piece) ->
    exists res h' after ea,
      analyze_move.analyze_move r from_sq to_sq h = Some (res, h')
      /\ analyze_move.simulate_move r from_sq to_sq h
         = Some (List.length (boards h), h')
      /\ load (List.length (boards h)) h' = Some (after, h')
      /\ after = successor b from_sq to_sq
      /\ get after to_sq = Some piece
      /\ py.lookup res "exchange_analysis" = Some (py.VDict ea)
      /\ let recapturers := get_attackers after to_sq (Some (opposite (color piece))) in
         let defenders := get_defenders after to_sq in
         let gain := analyze_move.get_piece_value captured in
         let loss := analyze_move.get_piece_value piece in
         py.lookup ea "gain" = Some (py.VInt gain)
         /\ ((0 < List.length recapturers)%nat ->
             py.lookup ea "potential_loss" = Some (py.VInt loss)
             /\ py.lookup ea "likely_net"
                = Some (py.VInt (if (List.length defenders <? List.length recapturers)%nat
                                 then gain - loss else gain)))
         /\ exists safe,
              py.lookup ea "safe" = Some (py.VBool safe)
              /\ (safe = true
                  <-> (List.length defenders >= List.length recapturers)%nat).
Proof.
  intros h r from_sq to_sq b piece captured Hload G Gto _.
  apply load_inv in Hload. destruct Hload as (_ & o & d & Hr & Hd & ->).
  rewrite (analyze_move_run h r o d from_sq to_sq Hr Hd), G, Gto.
  set (after := successor (snapshot o d) from_sq to_sq).
  set (recapturers := get_attackers after to_sq (Some (opposite (color piece)))).
  set (defenders := get_defenders after to_sq).
  destruct recapturers as [|rc rcs] eqn:R.
  - eexists _, _, after, _. split; [reflexivity|].
    split; [now apply simulate_move_run|]. split; [apply load_new_after|].
    split; [reflexivity|].
    split; [exact (moved_get_to d from_sq to_sq piece G)|].
    split.
    + unfold analyze_move.report, analyze_move.exchange. cbn zeta.
      fold after. fold defenders. unfold recapturers in R. rewrite R.
      reflexivity.
    + cbn zeta. fold recapturers. rewrite R. split; [reflexivity|].
      split; [simpl; lia|]. exists true. split; [reflexivity|]. simpl. lia.
  - eexists _, _, after, _. split; [reflexivity|].
    split; [now apply simulate_move_run|]. split; [apply load_new_after|].
    split; [reflexivity|].
    split; [exact (moved_get_to d from_sq to_sq piece G)|].
    split.
    + unfold analyze_move.report, analyze_move.exchange. cbn zeta.
      fold after. fold defenders. unfold recapturers in R. rewrite R.
      reflexivity.
    + cbn zeta. fold recapturers. rewrite R. fold defenders.
      split; [reflexivity|]. split.
      * intros _. split; [reflexivity|].
        cbn [py.lookup String.eqb Ascii.eqb Bool.eqb].
        replace (py.len (rc :: rcs) >? 0) with true
          by (symmetry; apply Z.gtb_lt; unfold py.len; simpl; lia).
        rewrite len_ltb. reflexivity.
      * eexists. split; [reflexivity|].
        rewrite len_geb, Nat.leb_le. lia.
Qed.

(* ------------------------------------------------------------------ *)
(** ** Termination of the remaining walk *)

Lemma attack_walk_stable (n : nat) b dx dy :
  forall cur acc m, ray (S n) cur dx dy = None -> (n <= m)%nat ->
  attack_walk m b cur dx dy acc = attack_walk n b cur dx dy acc.
Proof.
  induction n as [|n IH]; intros cur acc m Hr Hm.
  - simpl in Hr. destruct (offset cur dx dy) eqn:E; [discriminate|].
    destruct m; simpl; auto. now rewrite E.
  - destruct m as [|m]; [lia|]. simpl.
    destruct (offset cur dx dy) as [next|] eqn:E; auto.
    change (ray (S (S n)) cur dx dy) with
      (match offset cur dx dy with Some s' => ray (S n) s' dx dy | None => None end) in Hr.
    rewrite E in Hr.
    destruct (get b next); auto. apply IH; auto. lia.
Qed.

(** Eight iterations reach the [break] of every walk of
    [get_attacked_by_piece]. *)
Lemma attack_walk_fuel (m : nat) b cur dx dy acc :
  In (dx, dy) QUEEN_DIRECTIONS -> (WALK_FUEL <= m)%nat ->
  attack_walk m b cur dx dy acc = attack_walk WALK_FUEL b cur dx dy acc.
Proof.
  intros Hd Hm. apply attack_walk_stable; auto.
  now apply ray_nine_steps_off_board.
Qed.

(* ------------------------------------------------------------------ *)
(** ** Instances on concrete positions *)

(** The example positions are what [from_fen] builds. *)
Lemma example_boards_from_fen :
  from_fen "rnbqkbnr/pppp1ppp/8/4p3/4P3/5N2/PPPP1PPP/RNBQKB1R b KQkq - 1 2"
  = Some e5_board
  /\ from_fen "r1bqkbnr/pppp1ppp/2n5/4p3/4P3/5N2/PPPP1PPP/RNBQKB1R w KQkq - 2 3"
     = Some capture_board
  /\ from_fen "4k3/8/8/4n3/8/8/8/4R2K w - - 0 1" = Some pin_board.
Proof. repeat split; vm_compute; reflexivity. Qed.

Lemma distinct_keys_NoDup (ks : list Z) : distinct_keys ks = true -> NoDup ks.
Proof.
  induction ks as [|k ks IH]; simpl; intros H; constructor.
  - apply andb_true_iff in H. destruct H as [H _].
    apply negb_true_iff in H. intros Hin.
    assert (existsb (Z.eqb k) ks = true)
      by (apply existsb_exists; exists k; split; auto; apply Z.eqb_refl).
    congruence.
  - apply IH. apply andb_true_iff in H. tauto.
Defined.

Lemma distinct_keys_wf (d : dict.t Piece) :
  distinct_keys (map fst d) = true -> dict.wf d.
Proof. apply distinct_keys_NoDup. Defined.

(** The rook on e1 standing seven squares down the e-file from e8, a pawn
    put on e5 hides it from e8. *)
Lemma get_attackers_sliding_probe_witness :
  In (0, -1) QUEEN_DIRECTIONS
  /\ (1 <= 3 < 7)%nat
  /\ ray 3 e8 0 (-1) = Some e5
  /\ ray 7 e8 0 (-1) = Some e1
  /\ slider (piece_type (mkPiece ROOK WHITE))
  /\ ~ In (e1, mkPiece ROOK WHITE)
          (get_attackers (set pin_board e5 (Some (mkPiece PAWN BLACK))) e8 None).
Proof.
  assert (Hd : In (0, -1) QUEEN_DIRECTIONS) by (vm_compute; auto 10).
  assert (Hs : slider (piece_type (mkPiece ROOK WHITE))) by (right; left; reflexivity).
  assert (Hjk : (1 <= 3 < 7)%nat) by lia.
  split; [exact Hd|]. split; [exact Hjk|]. split; [reflexivity|].
  split; [reflexivity|]. split; [exact Hs|].
  exact (proj2 (proj2 (get_attackers_sliding_probe pin_board e8 None))
               (0, -1) 3%nat 7%nat e5 e1 (mkPiece ROOK WHITE) (mkPiece PAWN BLACK)
               Hd Hjk eq_refl eq_refl Hs).
Defined.

(** After 1.e4 e5 2.Nf3 the pawn on e5 hangs; the empty square e6 does not. *)
Lemma is_hanging_spec_witness :
  get e5_board e6 = None
  /\ is_hanging e5_board e6 = false
  /\ get e5_board e5 = Some (mkPiece PAWN BLACK)
  /\ is_hanging e5_board e5 = true.
Proof.
  split; [reflexivity|]. split.
  - exact (proj1 (is_hanging_spec e5_board e6) eq_refl).
  - split; [reflexivity|].
    apply (proj2 (proj2 (is_hanging_spec e5_board e5) (mkPiece PAWN BLACK) eq_refl)).
    vm_compute. split; [apply le_n | reflexivity].
Defined.

(** The pawn on e4, defended by a queen against a pawn, counts as
    protected; an empty square does too. *)
Lemma is_protected_spec_witness :
  get count_only_board e6 = None
  /\ is_protected count_only_board e6 = true
  /\ get count_only_board e4 = Some (mkPiece PAWN WHITE)
  /\ get_attackers count_only_board e4 (Some BLACK) = [(d5, mkPiece PAWN BLACK)]
  /\ get_defenders count_only_board e4 = [(e1, mkPiece QUEEN WHITE)]
  /\ is_protected count_only_board e4 = true.
Proof.
  split; [reflexivity|]. split.
  - exact (proj1 (is_protected_spec count_only_board e6) eq_refl).
  - split; [reflexivity|]. split; [reflexivity|]. split; [reflexivity|].
    apply (proj2 (proj2 (proj2 (is_protected_spec count_only_board e4)
                                 (mkPiece PAWN WHITE) eq_refl))).
    vm_compute. apply le_n.
Defined.

Lemma analyze_square_agrees_witness :
  get e5_board e6 = None
  /\ py.lookup (analyze_square e5_board e6) "is_hanging" = Some (py.VBool false)
  /\ py.lookup (analyze_square e5_board e6) "is_protected" = Some (py.VBool true).
Proof.
  split; [reflexivity|].
  exact (proj2 (proj2 (analyze_square_agrees e5_board e6)) eq_refl).
Defined.

(** The rook on e1 projects onto e5, and the scan towards e5 finds it. *)
Lemma threat_symmetry_witness :
  on_board e1
  /\ get pin_board e1 = Some (mkPiece ROOK WHITE)
  /\ In e5 (get_attacked_by_piece pin_board e1 (mkPiece ROOK WHITE))
  /\ In (e1, mkPiece ROOK WHITE) (get_attackers pin_board e5 None).
Proof.
  assert (Hb : on_board e1) by (unfold on_board, e1; simpl; lia).
  assert (Hin : In e5 (get_attacked_by_piece pin_board e1 (mkPiece ROOK WHITE)))
    by (vm_compute; auto 10).
  split; [exact Hb|]. split; [reflexivity|]. split; [exact Hin|].
  exact (threat_symmetry pin_board e1 (mkPiece ROOK WHITE) e5 Hb eq_refl Hin).
Defined.

Lemma find_pins_spec_witness :
  dict.wf (pieces pin_board)
  /\ exists protected d k1 k2 first second,
       get pin_board (fst protected) = Some (snd protected)
       /\ color (snd protected) = BLACK
       /\ In (piece_type (snd protected)) [KING; QUEEN; ROOK]
       /\ In d QUEEN_DIRECTIONS
       /\ first_occupied pin_board (fst protected) (fst d) (snd d) k1
                         (fst first) (snd first)
       /\ first_occupied pin_board (fst first) (fst d) (snd d) k2
                         (fst second) (snd second)
       /\ color (snd first) = BLACK
       /\ color (snd second) = opposite BLACK
       /\ compatible d (piece_type (snd second))
       /\ pin_record (e5, mkPiece KNIGHT BLACK) (e1, mkPiece ROOK WHITE)
                     (e8, mkPiece KING BLACK) false
          = pin_record first second protected (Z.abs (fst d) =? Z.abs (snd d)).
Proof.
  assert (Hwf : dict.wf (pieces pin_board)) by (apply distinct_keys_wf; reflexivity).
  split; [exact Hwf|].
  apply (proj1 (proj1 find_pins_spec pin_board BLACK Hwf _)).
  vm_compute. left. reflexivity.
Defined.

(** Nxe5 in the position after 2...Nc6: 32 pieces before, 31 after, f3
    empty and the knight on e5. *)
Lemma simulate_move_counts_witness :
  load 0 (analyze_move.heap_of capture_board)
  = Some (capture_board, analyze_move.heap_of capture_board)
  /\ dict.wf (pieces capture_board)
  /\ get capture_board f3 = Some (mkPiece KNIGHT WHITE)
  /\ f3 <> e5
  /\ exists res h' after,
       analyze_move.analyze_move 0 f3 e5 (analyze_move.heap_of capture_board)
       = Some (res, h')
       /\ load 1 h' = Some (after, h')
       /\ dict.len (pieces after) = 31
       /\ get after f3 = None
       /\ get after e5 = Some (mkPiece KNIGHT WHITE).
Proof.
  assert (Hload : load 0 (analyze_move.heap_of capture_board)
                  = Some (capture_board, analyze_move.heap_of capture_board))
    by reflexivity.
  assert (Hwf : dict.wf (pieces capture_board))
    by (apply distinct_keys_wf; reflexivity).
  assert (Hne : f3 <> e5) by discriminate.
  split; [exact Hload|]. split; [exact Hwf|]. split; [reflexivity|].
  split; [exact Hne|].
  destruct (simulate_move_counts (analyze_move.heap_of capture_board) 0 f3 e5
              capture_board (mkPiece KNIGHT WHITE) Hload Hwf eq_refl Hne)
    as (res & h' & after & Ha & _ & Hl & Hlen & Hfrom & Hto).
  exists res, h', after. split; [exact Ha|]. split; [exact Hl|].
  split; [rewrite Hlen; reflexivity|]. split; [exact Hfrom | exact Hto].
Defined.

(** C5 as stated fails when the two squares coincide: after
    [analyze_move] "from e5 to e5" the successor still has the four pieces of
    the input, although the destination was occupied, and the knight still
    stands on the source square. *)
Lemma simulate_move_same_square :
  (exists res h' after,
      get pin_board e5 = Some (mkPiece KNIGHT BLACK)
      /\ analyze_move.analyze_move 0 e5 e5 (analyze_move.heap_of pin_board)
         = Some (res, h')
      /\ analyze_move.simulate_move 0 e5 e5 (analyze_move.heap_of pin_board)
         = Some (1%nat, h')
      /\ load 1 h' = Some (after, h')
      /\ dict.len (pieces pin_board) = 4
      /\ dict.len (pieces after) = 4
      /\ get after e5 = Some (mkPiece KNIGHT BLACK))
  /\ ~ (forall b piece,
           load 0 (analyze_move.heap_of pin_board)
           = Some (b, analyze_move.heap_of pin_board) ->
           get b e5 = Some piece ->
           exists res h' after,
             analyze_move.analyze_move 0 e5 e5 (analyze_move.heap_of pin_board)
             = Some (res, h')
             /\ load 1 h' = Some (after, h')
             /\ dict.len (pieces after)
                = match get b e5 with
                  | Some _ => dict.len (pieces b) - 1
                  | None => dict.len (pieces b)
                  end
             /\ get after e5 = None
             /\ get after e5 = Some piece).
Proof.
  split.
  - eexists _, _, _. split; [reflexivity|]. split; [vm_compute; reflexivity|].
    split; [vm_compute; reflexivity|]. split; [vm_compute; reflexivity|].
    split; [reflexivity|]. split; reflexivity.
  - intros H.
    destruct (H pin_board (mkPiece KNIGHT BLACK) eq_refl eq_refl)
      as (res & h' & after & Ha & Hl & Hlen & Hfrom & Hto).
    vm_compute in Ha. injection Ha as <- <-.
    vm_compute in Hl. injection Hl as <-.
    vm_compute in Hlen. discriminate.
Qed.

Lemma analyze_move_frame_witness :
  valid_board (analyze_move.heap_of capture_board) 0
  /\ exists res h',
       analyze_move.analyze_move 0 f3 e5 (analyze_move.heap_of capture_board)
       = Some (res, h')
       /\ load 0 h' = Some (capture_board, h')
       /\ analyze_move.simulate_move 0 f3 e5 (analyze_move.heap_of capture_board)
          = Some (1%nat, h')
       /\ load 1 h' = Some (successor capture_board f3 e5, h').
Proof.
  assert (Hv : valid_board (analyze_move.heap_of capture_board) 0).
  { eexists _, _. split; reflexivity. }
  split; [exact Hv|].
  assert (Hc : load 0 (analyze_move.heap_of capture_board)
               = Some (capture_board, analyze_move.heap_of capture_board))
    by reflexivity.
  destruct (analyze_move_frame (analyze_move.heap_of capture_board) 0 f3 e5 Hv)
    as (res & h' & Ha & _ & _ & (b & Hb & Hb') & _ & Hs).
  destruct (Hs capture_board Hc)
    as (h1 & o' & S1 & _ & _ & _ & S5 & _ & _ & _ & S9 & _).
  assert (E : h' = h1) by (apply (S9 (mkPiece KNIGHT WHITE)); reflexivity).
  subst h1.
  exists res, h'. split; [exact Ha|].
  assert (Eb : b = capture_board).
  { rewrite Hc in Hb. injection Hb as Hb. symmetry. exact Hb. }
  rewrite <- Eb at 1. split; [exact Hb'|]. split; [exact S1 | exact S5].
Defined.

(** No piece on g3: an error result; a knight on f3: a report. *)
Lemma analyze_move_error_result_witness :
  load 0 (analyze_move.heap_of capture_board)
  = Some (capture_board, analyze_move.heap_of capture_board)
  /\ get capture_board g3 = None
  /\ (exists msg,
         analyze_move.analyze_move 0 g3 e5 (analyze_move.heap_of capture_board)
         = Some ([("error", py.VStr msg)], analyze_move.heap_of capture_board))
  /\ get capture_board f3 = Some (mkPiece KNIGHT WHITE)
  /\ (exists res h',
         analyze_move.analyze_move 0 f3 e5 (analyze_move.heap_of capture_board)
         = Some (res, h')
         /\ py.has_key res "error" = false).
Proof.
  assert (Hload : load 0 (analyze_move.heap_of capture_board)
                  = Some (capture_board, analyze_move.heap_of capture_board))
    by reflexivity.
  split; [exact Hload|]. split; [reflexivity|]. split.
  - destruct (proj1 (analyze_move_error_result
                       (analyze_move.heap_of capture_board) 0 g3 e5
                       capture_board Hload) eq_refl) as (msg & Hm & _).
    exists msg. exact Hm.
  - split; [reflexivity|].
    destruct (proj2 (analyze_move_error_result
                       (analyze_move.heap_of capture_board) 0 f3 e5
                       capture_board Hload) (mkPiece KNIGHT WHITE) eq_refl)
      as (res & h' & Ha & _ & Hk).
    exists res, h'. split; [exact Ha | exact Hk].
Defined.

(** Nxe5, which the knight on c6 takes back: the gain is the pawn's value,
    the loss the knight's, and the capture is not safe. *)
Lemma analyze_move_exchange_witness :
  load 0 (analyze_move.heap_of capture_board)
  = Some (capture_board, analyze_move.heap_of capture_board)
  /\ get capture_board f3 = Some (mkPiece KNIGHT WHITE)
  /\ get capture_board e5 = Some (mkPiece PAWN BLACK)
  /\ color (mkPiece PAWN BLACK) = opposite (color (mkPiece KNIGHT WHITE))
  /\ exists res h' ea,
       analyze_move.analyze_move 0 f3 e5 (analyze_move.heap_of capture_board)
       = Some (res, h')
       /\ analyze_move.simulate_move 0 f3 e5 (analyze_move.heap_of capture_board)
          = Some (1%nat, h')
       /\ load 1 h' = Some (successor capture_board f3 e5, h')
       /\ py.lookup res "exchange_analysis" = Some (py.VDict ea)
       /\ py.lookup ea "gain" = Some (py.VInt 1)
       /\ py.lookup ea "potential_loss" = Some (py.VInt 3)
       /\ py.lookup ea "likely_net" = Some (py.VInt (-2))
       /\ py.lookup ea "safe" = Some (py.VBool false).
Proof.
  assert (Hload : load 0 (analyze_move.heap_of capture_board)
                  = Some (capture_board, analyze_move.heap_of capture_board))
    by reflexivity.
  split; [exact Hload|]. split; [reflexivity|]. split; [reflexivity|].
  split; [reflexivity|].
  destruct (analyze_move_exchange (analyze_move.heap_of capture_board) 0 f3 e5
              capture_board (mkPiece KNIGHT WHITE) (mkPiece PAWN BLACK)
              Hload eq_refl eq_refl eq_refl)
    as (res & h' & after & ea & Ha & Hs & Hl & -> & _ & Hea & Hex).
  cbv zeta in Hex.
  assert (R : List.length (get_attackers (successor capture_board f3 e5) e5
                             (Some (opposite (color (mkPiece KNIGHT WHITE)))))
              = 1%nat) by (vm_compute; reflexivity).
  assert (D : List.length (get_defenders (successor capture_board f3 e5) e5)
              = 0%nat) by (vm_compute; reflexivity).
  rewrite R, D in Hex.
  destruct Hex as (Hgain & Hrec & safe & Hsafe & Hiff).
  destruct (Hrec (le_n 1)) as [Hloss Hnet].
  exists res, h', ea.
  split; [exact Ha|]. split; [exact Hs|]. split; [exact Hl|].
  split; [exact Hea|]. split; [exact Hgain|]. split; [exact Hloss|].
  split; [exact Hnet|].
  destruct safe; [|exact Hsafe].
  exfalso. pose proof (proj1 Hiff eq_refl) as C. lia.
Defined.

(* ------------------------------------------------------------------ *)
(** ** Squares: offsets and names *)

(** X1 — [Square.offset].  Whatever the start, a returned square is on the
    board and its file and rank are the start's shifted by the deltas; the
    result is [None] exactly when a shifted coordinate leaves [0, 7]. *)
Theorem offset_spec :
  forall (s : Square) (dx dy : Z),
    match offset s dx dy with
    | Some s' =>
        on_board s' /\ file s' = file s + dx /\ rank s' = rank s + dy
    | None => ~ (0 <= file s + dx <= 7 /\ 0 <= rank s + dy <= 7)
    end.
Proof.
  intros s dx dy. destruct (offset s dx dy) as [s'|] eqn:E.
  - split; [eapply offset_on_board; eauto|].
    apply offset_Some in E. tauto.
  - now apply offset_None.
Qed.

(** X2 — offsets compose.  Two successive offsets are one offset by the
    summed deltas, as soon as the first one stays on the board. *)
Theorem offset_compose :
  forall (s s1 : Square) (dx dy dx' dy' : Z),
    offset s dx dy = Some s1 ->
    offset s1 dx' dy' = offset s (dx + dx') (dy + dy').
Proof.
  intros s s1 dx dy dx' dy' H. apply offset_Some in H.
  destruct H as (Hf & Hr & _). unfold offset.
  rewrite Hf, Hr, !Z.add_assoc. reflexivity.
Qed.

Lemma offset_compose_witness :
  offset e4 0 1 = Some e5
  /\ offset e5 (-1) 0 = offset e4 (0 + -1) (1 + 0).
Proof.
  split; [reflexivity|]. exact (offset_compose e4 e5 0 1 (-1) 0 eq_refl).
Defined.

(** X3 — offset round trip.  From a square of the board, stepping by an
    offset and then by the opposite offset returns to the start. *)
Theorem offset_round_trip :
  forall (s s' : Square) (dx dy : Z),
    on_board s ->
    offset s dx dy = Some s' ->
    offset s' (- dx) (- dy) = Some s.
Proof. intros s s' dx dy. apply offset_back. Qed.

Lemma offset_round_trip_witness :
  on_board e4 /\ offset e4 1 2 = Some (mkSquare 45)
  /\ offset (mkSquare 45) (- 1) (- 2) = Some e4.
Proof.
  assert (Hb : on_board e4) by (unfold on_board, e4; simpl; lia).
  split; [exact Hb|]. split; [reflexivity|].
  exact (offset_round_trip e4 (mkSquare 45) 1 2 Hb eq_refl).
Defined.

Lemma on_board_enum (s : Square) :
  on_board s -> exists n, In n (seq 0 64) /\ s = mkSquare (Z.of_nat n).
Proof.
  intros H. unfold on_board in H. exists (Z.to_nat (index s)). split.
  - apply in_seq. lia.
  - apply Square_eq. simpl. lia.
Qed.

Lemma name_round_trip_check :
  forallb (fun n => match from_algebraic (name (mkSquare (Z.of_nat n))) with
                    | Some s => index s =? Z.of_nat n
                    | None => false
                    end) (seq 0 64) = true.
Proof. vm_compute. reflexivity. Qed.

Lemma from_algebraic_name (s : Square) :
  on_board s -> from_algebraic (name s) = Some s.
Proof.
  intros H. apply on_board_enum in H. destruct H as (n & Hn & ->).
  pose proof (proj1 (forallb_forall _ _) name_round_trip_check n Hn) as C.
  cbv beta in C.
  destruct (from_algebraic (name (mkSquare (Z.of_nat n)))) as [s|]; [|discriminate].
  f_equal. apply Square_eq. simpl. now apply Z.eqb_eq.
Qed.

(** X4 — square names round trip.  For every square of the board,
    [from_algebraic] applied to its [name] returns the square. *)
Theorem name_round_trip :
  forall s : Square, on_board s -> from_algebraic (name s) = Some s.
Proof. exact from_algebraic_name. Qed.

Lemma name_round_trip_witness :
  on_board e5 /\ name e5 = "e5" /\ from_algebraic (name e5) = Some e5.
Proof.
  assert (Hb : on_board e5) by (unfold on_board, e5; simpl; lia).
  split; [exact Hb|]. split; [reflexivity|]. exact (name_round_trip e5 Hb).
Defined.

(* ------------------------------------------------------------------ *)
(** ** The board container *)

Lemma dict_get_remove d k k' (V := Piece) :
  dict.wf d ->
  dict.get (dict.remove d k) k' = if k' =? k then None else dict.get (V:=V) d k'.
Proof.
  intros Hwf. destruct (k' =? k) eqn:E.
  - apply Z.eqb_eq in E. subst. now apply dict_get_remove_same.
  - apply Z.eqb_neq in E. apply dict_get_remove_other. congruence.
Qed.

(** X6 — [Board.set] then [Board.get].  Storing a piece makes [get] return
    it on that square, clearing the square makes [get] return [None] there,
    and in both cases every other square keeps its content and the keys stay
    pairwise distinct. *)
Theorem set_get_spec :
  forall (b : Board) (s : Square) (piece : option Piece),
    dict.wf (pieces b) ->
    dict.wf (pieces (set b s piece))
    /\ forall s', get (set b s piece) s'
                  = if index s' =? index s then piece else get b s'.
Proof.
  intros b s [p|] Hwf; unfold set, get, with_pieces; cbn [pieces dict.pop snd].
  - split; [now apply dict_wf_setitem|]. intros s'.
    destruct (index s' =? index s) eqn:E.
    + apply Z.eqb_eq in E. rewrite E. apply dict_get_setitem_same.
    + apply Z.eqb_neq in E. apply dict_get_setitem_other. congruence.
  - split; [now apply dict_wf_remove|]. intros s'. now apply dict_get_remove.
Qed.

Lemma set_get_spec_witness :
  dict.wf (pieces pin_board)
  /\ get (set pin_board e5 None) e5 = None
  /\ get (set pin_board e5 None) e1 = get pin_board e1.
Proof.
  assert (Hwf : dict.wf (pieces pin_board)) by (apply distinct_keys_wf; reflexivity).
  split; [exact Hwf|].
  split; [exact (proj2 (set_get_spec pin_board e5 None Hwf) e5)
         | exact (proj2 (set_get_spec pin_board e5 None Hwf) e1)].
Defined.

Lemma place_char_wf st c st' :
  dict.wf (fst (fst st)) -> place_char st c = Some st' -> dict.wf (fst (fst st')).
Proof.
  destruct st as [[d r] f]. unfold place_char. cbn [fst].
  intros Hwf H.
  destruct (Ascii.eqb c "/"); [injection H as <-; exact Hwf|].
  destruct (py.isdigit c).
  - destruct (py.int (py.str1 c)); [|discriminate]. injection H as <-. exact Hwf.
  - destruct (from_char c); [|discriminate]. injection H as <-.
    cbn [fst]. now apply dict_wf_setitem.
Qed.

Lemma place_all_wf s : forall st st',
  dict.wf (fst (fst st)) -> place_all s st = Some st' -> dict.wf (fst (fst st')).
Proof.
  induction s as [|c s IH]; intros st st' Hwf H; simpl in H.
  - injection H as <-. exact Hwf.
  - destruct (place_char st c) as [st1|] eqn:E; [|discriminate].
    eapply IH; [|exact H]. eapply place_char_wf; eauto.
Qed.

(** X7 — boards built by [from_fen].  Whenever [from_fen] succeeds, no
    square index occurs twice in the piece dictionary it built, even when the
    placement text names a square more than once. *)
Theorem from_fen_wf :
  forall (fen : string) (b : Board), from_fen fen = Some b -> dict.wf (pieces b).
Proof.
  intros fen b H. unfold from_fen in H.
  destruct (py.split fen) as [|pp parts]; [discriminate|].
  destruct (place_all pp (dict.empty, 7, 0)) as [[[d r] f]|] eqn:E; [|discriminate].
  apply place_all_wf in E; [|constructor]. cbn [fst] in E.
  destruct (match nth_error (pp :: parts) 3 with
            | Some p3 => if negb (p3 =? "-")%string
                         then option_map Some (from_algebraic p3) else Some None
            | None => Some None
            end) as [ep|]; [|discriminate].
  destruct (match nth_error (pp :: parts) 4 with
            | Some p4 => py.int p4 | None => Some 0 end) as [half|]; [|discriminate].
  destruct (match nth_error (pp :: parts) 5 with
            | Some p5 => py.int p5 | None => Some 1 end) as [full|]; [|discriminate].
  injection H as <-. exact E.
Qed.

Lemma from_fen_wf_witness :
  from_fen "4k3/8/8/4n3/8/8/8/4R2K w - - 0 1" = Some pin_board
  /\ dict.wf (pieces pin_board).
Proof.
  assert (H : from_fen "4k3/8/8/4n3/8/8/8/4R2K w - - 0 1" = Some pin_board)
    by (vm_compute; reflexivity).
  split; [exact H|]. exact (from_fen_wf _ _ H).
Defined.

Lemma get_pieces_by_type_In b t c s p :
  In (s, p) (get_pieces_by_type b t (Some c))
  <-> In (index s, p) (pieces b) /\ piece_type p = t /\ color p = c.
Proof.
  unfold get_pieces_by_type, dict.items. rewrite in_flat_map. split.
  - intros ([idx piece] & Hin & H).
    destruct (PieceType_eqb (piece_type piece) t) eqn:T; [|inversion H].
    destruct (Color_eqb (color piece) c) eqn:C; [|inversion H].
    destruct H as [H|[]]. injection H as <- <-. simpl.
    apply PieceType_eqb_eq in T. apply Color_eqb_eq in C. auto.
  - intros (Hin & T & C). exists (index s, p). split; auto.
    apply PieceType_eqb_eq in T. apply Color_eqb_eq in C. rewrite T, C.
    left. destruct s; reflexivity.
Qed.

(** X8 — [Board.find_king].  A returned square holds a king of the asked
    colour; the result is [None] exactly when the board has no king of that
    colour (a position without a king is not an error). *)
Theorem find_king_spec :
  forall (b : Board) (c : Color),
    (forall s, find_king b c = Some s -> In (index s, mkPiece KING c) (pieces b))
    /\ (find_king b c = None
        <-> forall idx, ~ In (idx, mkPiece KING c) (pieces b)).
Proof.
  intros b c. unfold find_king.
  destruct (get_pieces_by_type b KING (Some c)) as [|[k kp] l] eqn:E.
  - split; [discriminate|]. split; auto. intros _ idx Hin.
    assert (H : In (mkSquare idx, mkPiece KING c) (get_pieces_by_type b KING (Some c)))
      by (apply get_pieces_by_type_In; auto).
    rewrite E in H. exact H.
  - assert (H : In (k, kp) (get_pieces_by_type b KING (Some c)))
      by (rewrite E; now left).
    apply get_pieces_by_type_In in H. destruct H as (Hin & T & C).
    assert (kp = mkPiece KING c) as -> by (destruct kp; simpl in *; congruence).
    split.
    + intros s [= <-]. exact Hin.
    + split; [discriminate|]. intros H. exfalso. exact (H _ Hin).
Qed.

Lemma find_king_spec_witness :
  find_king pin_board WHITE = Some (mkSquare 7)
  /\ In (7, mkPiece KING WHITE) (pieces pin_board).
Proof.
  split; [reflexivity|].
  exact (proj1 (find_king_spec pin_board WHITE) (mkSquare 7) eq_refl).
Defined.

Lemma flat_map_singleton_length {A B : Type} (p : A -> bool) (g : A -> B) (l : list A) :
  List.length (flat_map (fun x => if p x then [g x] else []) l)
  = List.length (filter p l).
Proof.
  induction l as [|x l IH]; simpl; auto.
  destruct (p x); simpl; rewrite ?IH; reflexivity.
Qed.

(** X9 — pieces by colour.  The white pieces and the black pieces listed by
    [get_pieces_by_color] are together as many as the entries of the piece
    dictionary, and every entry listed for a colour has that colour. *)
Theorem get_pieces_by_color_partition :
  forall b : Board,
    (List.length (get_pieces_by_color b WHITE)
     + List.length (get_pieces_by_color b BLACK)
     = List.length (pieces b))%nat
    /\ forall c s p, In (s, p) (get_pieces_by_color b c)
                     -> color p = c /\ In (index s, p) (pieces b).
Proof.
  intros b. split.
  - unfold get_pieces_by_color, dict.items.
    induction (pieces b) as [|[idx piece] l IH]; simpl; auto.
    destruct (color piece); simpl; rewrite ?length_app; simpl; lia.
  - intros c s p H. apply get_pieces_by_color_In in H. tauto.
Qed.

Lemma get_pieces_by_color_partition_witness :
  In (e5, mkPiece KNIGHT BLACK) (get_pieces_by_color pin_board BLACK)
  /\ color (mkPiece KNIGHT BLACK) = BLACK
  /\ In (index e5, mkPiece KNIGHT BLACK) (pieces pin_board).
Proof.
  assert (H : In (e5, mkPiece KNIGHT BLACK) (get_pieces_by_color pin_board BLACK))
    by (vm_compute; auto).
  split; [exact H|].
  exact (proj2 (get_pieces_by_color_partition pin_board) BLACK e5 _ H).
Defined.

(* ------------------------------------------------------------------ *)
(** ** More on the attack scanner *)

Lemma offset_moves (t s : Square) (dx dy : Z) :
  offset t dx dy = Some s -> dx <> 0 \/ dy <> 0 -> s <> t.
Proof.
  intros H Hnz E. subst s. apply offset_Some in H. lia.
Qed.

Lemma KNIGHT_OFFSETS_nonzero off :
  In off KNIGHT_OFFSETS -> fst off <> 0 \/ snd off <> 0.
Proof.
  unfold KNIGHT_OFFSETS. simpl.
  intros H. repeat (destruct H as [<-|H]; [simpl; lia|]). contradiction.
Qed.

Lemma KING_OFFSETS_nonzero off :
  In off KING_OFFSETS -> fst off <> 0 \/ snd off <> 0.
Proof.
  unfold KING_OFFSETS. simpl.
  intros H. repeat (destruct H as [<-|H]; [simpl; lia|]). contradiction.
Qed.

Lemma ray_moves (k : nat) (t s : Square) (d : Z * Z) :
  In d QUEEN_DIRECTIONS -> (1 <= k)%nat ->
  ray k t (fst d) (snd d) = Some s -> s <> t.
Proof.
  destruct d as [dx dy]. simpl. intros Hd Hk Hr E. subst s.
  apply In_QUEEN_DIRECTIONS in Hd. apply ray_coords in Hr.
  assert (1 <= Z.of_nat k) by lia.
  destruct Hd as ([->| [->| ->]] & [->| [->| ->]] & Hnz); lia.
Qed.

(** X10 — every reported attacker is real.  Each pair (square, piece)
    returned by [get_attackers] names a square of the board other than the
    target, which holds exactly that piece, and the piece passes the colour
    filter. *)
Theorem get_attackers_sound :
  forall (b : Board) (target : Square) (by_color : option Color) (s : Square) (p : Piece),
    In (s, p) (get_attackers b target by_color) ->
    on_board s /\ s <> target /\ get b s = Some p /\ filter_ok by_color p.
Proof.
  intros b target by_color s p H. unfold get_attackers in H.
  rewrite !in_app_iff in H.
  rewrite knight_attackers_In, king_attackers_In, pawn_attackers_In in H.
  rewrite (check_sliding_In _ _ _ _ _ _ _ BISHOP_in_QUEEN) in H.
  rewrite (check_sliding_In _ _ _ _ _ _ _ ROOK_in_QUEEN) in H.
  destruct H as [(off & Ho & E & G & _ & F)|[(off & Ho & E & G & _ & F)
                |[(fd & Hfd & E & G & _ & F)
                |[(d & k & Hd & (Hk & Hr & G & _) & _ & F)
                 |(d & k & Hd & (Hk & Hr & G & _) & _ & F)]]]].
  - split; [eapply offset_on_board; eauto|]. split; auto.
    eapply offset_moves; eauto. now apply KNIGHT_OFFSETS_nonzero.
  - split; [eapply offset_on_board; eauto|]. split; auto.
    eapply offset_moves; eauto. now apply KING_OFFSETS_nonzero.
  - split; [eapply offset_on_board; eauto|]. split; auto.
    eapply offset_moves; eauto. lia.
  - split; [eapply ray_on_board; eauto|]. split; auto.
    eapply ray_moves; eauto. now apply BISHOP_in_QUEEN.
  - split; [eapply ray_on_board; eauto|]. split; auto.
    eapply ray_moves; eauto. now apply ROOK_in_QUEEN.
Qed.

Lemma get_attackers_sound_witness :
  In (e1, mkPiece ROOK WHITE) (get_attackers pin_board e5 (Some WHITE))
  /\ on_board e1 /\ e1 <> e5
  /\ get pin_board e1 = Some (mkPiece ROOK WHITE)
  /\ filter_ok (Some WHITE) (mkPiece ROOK WHITE).
Proof.
  assert (H : In (e1, mkPiece ROOK WHITE) (get_attackers pin_board e5 (Some WHITE)))
    by (vm_compute; auto).
  split; [exact H|].
  exact (get_attackers_sound pin_board e5 (Some WHITE) e1 (mkPiece ROOK WHITE) H).
Defined.

Lemma filter_flat_map {A B : Type} (p : B -> bool) (f : A -> list B) (l : list A) :
  filter p (flat_map f l) = flat_map (fun x => filter p (f x)) l.
Proof.
  induction l as [|x l IH]; simpl; auto. now rewrite filter_app, IH.
Qed.

Lemma filter_length_split {A : Type} (p q : A -> bool) (l : list A) :
  (forall x, q x = negb (p x)) ->
  List.length l = (List.length (filter p l) + List.length (filter q l))%nat.
Proof.
  intros H. induction l as [|x l IH]; simpl; auto.
  rewrite (H x). destruct (p x); simpl; lia.
Qed.

Lemma flat_map_two {A B : Type} (f : A -> list B) (x y : A) :
  flat_map f [x; y] = f x ++ f y.
Proof. simpl. now rewrite app_nil_r. Qed.

Lemma sliding_walk_filter (n : nat) b c valid_types dx dy :
  forall cur,
  sliding_walk n b (Some c) valid_types cur dx dy
  = filter (fun sp : Square * Piece => Color_eqb (color (snd sp)) c)
           (sliding_walk n b None valid_types cur dx dy).
Proof.
  induction n as [|n IH]; intros cur; simpl; auto.
  destruct (offset cur dx dy) as [next|]; auto.
  destruct (get b next) as [piece|]; auto.
  destruct (type_in (piece_type piece) valid_types); auto;
    simpl; destruct (Color_eqb (color piece) c); reflexivity.
Qed.

Lemma pawn_probe_filter b target c c0 file_dir rank_dir :
  filter (fun sp : Square * Piece => Color_eqb (color (snd sp)) c)
         (match offset target file_dir rank_dir with
          | Some attacker_sq =>
              match get b attacker_sq with
              | Some piece =>
                  if PieceType_eqb (piece_type piece) PAWN
                     && Color_eqb (color piece) c0
                  then [(attacker_sq, piece)] else []
              | None => []
              end
          | None => []
          end)
  = if negb (Color_eqb c c0) then []
    else match offset target file_dir rank_dir with
         | Some attacker_sq =>
             match get b attacker_sq with
             | Some piece =>
                 if PieceType_eqb (piece_type piece) PAWN
                    && Color_eqb (color piece) c0
                 then [(attacker_sq, piece)] else []
             | None => []
             end
         | None => []
         end.
Proof.
  destruct (offset target file_dir rank_dir) as [a|];
    [|destruct (negb (Color_eqb c c0)); reflexivity].
  destruct (get b a) as [piece|];
    [|destruct (negb (Color_eqb c c0)); reflexivity].
  destruct (PieceType_eqb (piece_type piece) PAWN); cbn [andb];
    [|destruct (negb (Color_eqb c c0)); reflexivity].
  destruct (color piece) eqn:C, c0, c; cbn; rewrite ?C; reflexivity.
Qed.

Lemma get_attackers_filter_eq b target c :
  get_attackers b target (Some c)
  = filter (fun sp : Square * Piece => Color_eqb (color (snd sp)) c)
           (get_attackers b target None).
Proof.
  unfold get_attackers. rewrite !filter_app.
  f_equal; [|f_equal; [|f_equal; [|f_equal]]].
  - unfold knight_attackers. rewrite filter_flat_map. apply flat_map_ext.
    intros off. destruct (offset target (fst off) (snd off)) as [a|]; auto.
    destruct (get b a) as [piece|]; auto.
    destruct (PieceType_eqb (piece_type piece) KNIGHT); auto;
      simpl; destruct (Color_eqb (color piece) c); reflexivity.
  - unfold king_attackers. rewrite filter_flat_map. apply flat_map_ext.
    intros off. destruct (offset target (fst off) (snd off)) as [a|]; auto.
    destruct (get b a) as [piece|]; auto.
    destruct (PieceType_eqb (piece_type piece) KING); auto;
      simpl; destruct (Color_eqb (color piece) c); reflexivity.
  - unfold pawn_attackers. rewrite !flat_map_two. cbv beta iota.
    rewrite !filter_app, !pawn_probe_filter.
    destruct (negb (Color_eqb c WHITE)), (negb (Color_eqb c BLACK)); reflexivity.
  - unfold check_sliding. rewrite filter_flat_map. apply flat_map_ext.
    intros [dx dy]. apply sliding_walk_filter.
  - unfold check_sliding. rewrite filter_flat_map. apply flat_map_ext.
    intros [dx dy]. apply sliding_walk_filter.
Qed.

(** X11 — the colour filter is a filter.  The attackers found with a
    colour filter are the attackers found without one that have this colour,
    in the same order; so the unfiltered count is the sum of the white and
    the black counts. *)
Theorem get_attackers_filter :
  forall (b : Board) (target : Square),
    (forall c,
        get_attackers b target (Some c)
        = filter (fun sp : Square * Piece => Color_eqb (color (snd sp)) c)
                 (get_attackers b target None))
    /\ List.length (get_attackers b target None)
       = (List.length (get_attackers b target (Some WHITE))
          + List.length (get_attackers b target (Some BLACK)))%nat.
Proof.
  intros b target.
  pose proof (get_attackers_filter_eq b target) as F.
  split; [exact F|]. rewrite !F. apply filter_length_split.
  intros [s p]. simpl. destruct (color p); reflexivity.
Qed.

(* ------------------------------------------------------------------ *)
(** ** The per-piece projector, completely *)

Lemma attack_walk_mono (n : nat) b dx dy x :
  forall cur acc, In x acc -> In x (attack_walk n b cur dx dy acc).
Proof.
  induction n as [|n IH]; intros cur acc H; simpl; auto.
  destruct (offset cur dx dy) as [target|]; auto.
  assert (In x (py.set_add Square_eqb target acc)) by (apply set_add_In; auto).
  destruct (get b target); auto.
Qed.

Lemma attack_walk_reach (n : nat) b dx dy x :
  forall cur acc k,
  (1 <= k <= n)%nat -> ray k cur dx dy = Some x -> clear_before b cur dx dy k ->
  In x (attack_walk n b cur dx dy acc).
Proof.
  induction n as [|n IH]; intros cur acc k Hk Hr Hclear; [lia|].
  destruct k as [|k]; [lia|]. simpl in Hr |- *.
  destruct (offset cur dx dy) as [target|] eqn:E; [|discriminate].
  destruct k as [|k].
  - injection Hr as ->.
    assert (In x (py.set_add Square_eqb x acc)) by (apply set_add_In; auto).
    destruct (get b x); auto. now apply attack_walk_mono.
  - assert (G : get b target = None).
    { apply (Hclear 1%nat target); [lia|]. simpl. now rewrite E. }
    rewrite G. apply (IH target _ (S k)); [lia | exact Hr |].
    intros j s' Hj Hj'. apply (Hclear (S j) s'); [lia|].
    simpl. now rewrite E.
Qed.

Lemma add_rays_mono b from_square directions x :
  forall acc, In x acc -> In x (add_rays b from_square directions acc).
Proof.
  unfold add_rays.
  induction directions as [|[dx dy] ds IH]; intros acc H; cbn [fold_left]; auto.
  apply IH. now apply attack_walk_mono.
Qed.

Lemma add_rays_iff b from_square directions x :
  (forall d, In d directions -> In d QUEEN_DIRECTIONS) ->
  forall acc,
  In x (add_rays b from_square directions acc)
  <-> In x acc \/ exists d k, In d directions /\ (1 <= k)%nat
                              /\ ray k from_square (fst d) (snd d) = Some x
                              /\ clear_before b from_square (fst d) (snd d) k.
Proof.
  intros Hsub acc. split; [apply add_rays_In|].
  revert acc. unfold add_rays.
  induction directions as [|[dx dy] ds IH]; intros acc; cbn [fold_left].
  - intros [H|(d & k & [] & _)]. exact H.
  - intros [H|(d & k & [<-|Hd] & Hk & Hr & Hc)].
    + apply IH; [intros; apply Hsub; now right|]. left. now apply attack_walk_mono.
    + apply IH; [intros; apply Hsub; now right|]. left.
      apply (attack_walk_reach _ _ _ _ _ _ _ k); auto. split; auto.
      apply (ray_bound k from_square x dx dy); auto. apply Hsub. now left.
    + apply IH; [intros; apply Hsub; now right|]. right. exists d, k. auto.
Qed.

Lemma add_offsets_iff from_square offsets x :
  forall acc,
  In x (add_offsets from_square offsets acc)
  <-> In x acc \/ exists off, In off offsets
                              /\ offset from_square (fst off) (snd off) = Some x.
Proof.
  intros acc. split; [apply add_offsets_In|].
  revert acc. unfold add_offsets.
  induction offsets as [|off offs IH]; intros acc; cbn [fold_left].
  - intros [H|(o & [] & _)]. exact H.
  - intros [H|(o & [<-|Ho] & E)].
    + apply IH. left.
      destruct (offset from_square (fst off) (snd off)); auto.
      apply set_add_In. auto.
    + apply IH. left. rewrite E. apply set_add_In. auto.
    + apply IH. right. exists o. auto.
Qed.

Lemma slider_directions_In d t : In d (slider_directions t) <-> compatible d t.
Proof.
  unfold slider_directions, compatible, diagonal, orthogonal.
  rewrite in_app_iff. destruct t; simpl; intuition congruence.
Qed.

Lemma slider_directions_QUEEN d t :
  In d (slider_directions t) -> In d QUEEN_DIRECTIONS.
Proof.
  rewrite slider_directions_In. unfold compatible, diagonal, orthogonal.
  intros [[H _]|[H _]]; [now apply BISHOP_in_QUEEN | now apply ROOK_in_QUEEN].
Qed.

Lemma pawn_offsets_In (rank_dir : Z) (off : Z * Z) :
  In off [(-1, rank_dir); (1, rank_dir)]
  <-> (fst off = -1 \/ fst off = 1) /\ snd off = rank_dir.
Proof.
  destruct off as [a c]. simpl. split.
  - intros [H|[H|[]]]; injection H as <- <-; auto.
  - intros [[->| ->] ->]; auto.
Qed.

Lemma pawn_forward_eq c :
  (if Color_eqb c WHITE then 1 else -1) = pawn_forward c.
Proof. destruct c; reflexivity. Qed.

(** What [get_attacked_by_piece] returns, as a set. *)
Lemma get_attacked_by_piece_In b from_square piece x :
  In x (get_attacked_by_piece b from_square piece)
  <-> attacked_from b from_square piece x.
Proof.
  unfold get_attacked_by_piece, attacked_from. cbv zeta.
  rewrite pawn_forward_eq.
  destruct (piece_type piece) eqn:T; simpl type_in; cbv iota.
  - rewrite add_offsets_iff. split.
    + intros [[]|(off & Ho & E)]. apply pawn_offsets_In in Ho.
      destruct Ho as [Hf Hs]. exists (fst off). rewrite <- Hs. auto.
    + intros (fd & Hfd & E). right. exists (fd, pawn_forward (color piece)).
      split; auto. apply pawn_offsets_In. auto.
  - rewrite add_offsets_iff. split; [intros [[]|H]; exact H | auto].
  - rewrite (add_rays_iff _ _ _ _ BISHOP_in_QUEEN). split.
    + intros [[]|(d & k & Hd & H)]. exists d, k. split; auto.
      left. split; auto.
    + intros (d & k & [[Hd _]|[_ [H|H]]] & H'); try discriminate.
      right. exists d, k. auto.
  - rewrite (add_rays_iff _ _ _ _ ROOK_in_QUEEN). split.
    + intros [[]|(d & k & Hd & H)]. exists d, k. split; auto.
      right. split; auto.
    + intros (d & k & [[_ [H|H]]|[Hd _]] & H'); try discriminate.
      right. exists d, k. auto.
  - rewrite (add_rays_iff _ _ _ _ ROOK_in_QUEEN).
    rewrite (add_rays_iff _ _ _ _ BISHOP_in_QUEEN). split.
    + intros [[[]|(d & k & Hd & H)]|(d & k & Hd & H)]; exists d, k; split; auto.
      * left. split; auto.
      * right. split; auto.
    + intros (d & k & [[Hd _]|[Hd _]] & H').
      * left. right. exists d, k. auto.
      * right. exists d, k. auto.
  - rewrite add_offsets_iff. split; [intros [[]|H]; exact H | auto].
Qed.

(** What [get_attacks_from_square] returns, as a set. *)
Lemma get_attacks_from_square_In b from_sq piece x :
  In x (get_attacks_from_square b from_sq piece)
  <-> attacked_from b from_sq piece x.
Proof.
  unfold get_attacks_from_square, attacked_from. cbv zeta.
  rewrite pawn_forward_eq.
  destruct (piece_type piece) eqn:T.
  - rewrite add_offsets_iff. split.
    + intros [[]|(off & Ho & E)]. apply pawn_offsets_In in Ho.
      destruct Ho as [Hf Hs]. exists (fst off). rewrite <- Hs. auto.
    + intros (fd & Hfd & E). right. exists (fd, pawn_forward (color piece)).
      split; auto. apply pawn_offsets_In. auto.
  - rewrite add_offsets_iff. split; [intros [[]|H]; exact H | auto].
  - rewrite (add_rays_iff _ _ _ _ (fun d => slider_directions_QUEEN d BISHOP)).
    split.
    + intros [[]|(d & k & Hd & H)]. exists d, k. split; auto.
      now apply slider_directions_In.
    + intros (d & k & Hd & H). right. exists d, k. split; auto.
      now apply slider_directions_In.
  - rewrite (add_rays_iff _ _ _ _ (fun d => slider_directions_QUEEN d ROOK)).
    split.
    + intros [[]|(d & k & Hd & H)]. exists d, k. split; auto.
      now apply slider_directions_In.
    + intros (d & k & Hd & H). right. exists d, k. split; auto.
      now apply slider_directions_In.
  - rewrite (add_rays_iff _ _ _ _ (fun d => slider_directions_QUEEN d QUEEN)).
    split.
    + intros [[]|(d & k & Hd & H)]. exists d, k. split; auto.
      now apply slider_directions_In.
    + intros (d & k & Hd & H). right. exists d, k. split; auto.
      now apply slider_directions_In.
  - rewrite add_offsets_iff. split; [intros [[]|H]; exact H | auto].
Qed.

(** X12 — the two attack projectors agree.  [get_attacks_from_square] of
    tactics.py and [get_attacked_by_piece] of attacks.py return the same set
    of squares for every board, square and piece. *)
Theorem attack_projectors_agree :
  forall (b : Board) (from_sq : Square) (piece : Piece) (x : Square),
    In x (get_attacks_from_square b from_sq piece)
    <-> In x (get_attacked_by_piece b from_sq piece).
Proof.
  intros b from_sq piece x.
  now rewrite get_attacks_from_square_In, get_attacked_by_piece_In.
Qed.

Lemma compatible_opp d t :
  compatible d t -> compatible (- fst d, - snd d) t.
Proof.
  unfold compatible, diagonal, orthogonal.
  intros [[H T]|[H T]];
    [left; split; auto; now apply BISHOP_DIRECTIONS_opp
    | right; split; auto; now apply ROOK_DIRECTIONS_opp].
Qed.

Lemma compatible_QUEEN d t : compatible d t -> In d QUEEN_DIRECTIONS.
Proof.
  unfold compatible, diagonal, orthogonal.
  intros [[H _]|[H _]]; [now apply BISHOP_in_QUEEN | now apply ROOK_in_QUEEN].
Qed.

Lemma compatible_slider d t : compatible d t -> slider t.
Proof. unfold compatible, slider. intuition. Qed.

Lemma pawn_back_forward c : pawn_back c = - pawn_forward c.
Proof. destruct c; reflexivity. Qed.

Lemma clear_before_reverse b a t dx dy k :
  on_board a -> ray k a dx dy = Some t -> clear_before b a dx dy k ->
  clear_before b t (- dx) (- dy) k.
Proof.
  intros Ha Hr Hclear j s' Hj Hj'.
  rewrite (ray_reverse k a t dx dy Ha Hr j) in Hj' by lia.
  apply (Hclear (k - j)%nat s'); auto. lia.
Qed.

Lemma ray_end_reverse a t dx dy k :
  on_board a -> ray k a dx dy = Some t -> ray k t (- dx) (- dy) = Some a.
Proof.
  intros Ha Hr. rewrite (ray_reverse k a t dx dy Ha Hr k) by lia.
  now rewrite Nat.sub_diag.
Qed.

(** From the piece to the target: a piece attacking [x] by geometry is
    found by the scan towards [x]. *)
Lemma attacked_from_found b a p x by_color :
  on_board a -> get b a = Some p -> attacked_from b a p x ->
  filter_ok by_color p ->
  In (a, p) (get_attackers b x by_color).
Proof.
  intros Ha G H F. unfold attacked_from in H.
  destruct (piece_type p) eqn:T.
  - destruct H as (fd & Hfd & E). apply offset_back in E; auto.
    unfold get_attackers. apply in_or_app. right. apply in_or_app. right.
    apply in_or_app. left. apply pawn_attackers_In.
    exists (- fd). rewrite pawn_back_forward. repeat split; auto. lia.
  - destruct H as (off & Ho & E). apply offset_back in E; auto.
    unfold get_attackers. apply in_or_app. left. apply knight_attackers_In.
    exists (- fst off, - snd off). simpl. repeat split; auto.
    now apply KNIGHT_OFFSETS_opp.
  - destruct H as (d & k & Hc & Hk & Hr & Hclear).
    apply get_attackers_slider_In; [rewrite T; unfold slider; auto|].
    exists (- fst d, - snd d), k. simpl. rewrite T.
    split; [apply (compatible_QUEEN _ BISHOP); now apply compatible_opp|].
    split; [now apply first_occupied_reverse|].
    split; [now apply compatible_opp | exact F].
  - destruct H as (d & k & Hc & Hk & Hr & Hclear).
    apply get_attackers_slider_In; [rewrite T; unfold slider; auto|].
    exists (- fst d, - snd d), k. simpl. rewrite T.
    split; [apply (compatible_QUEEN _ ROOK); now apply compatible_opp|].
    split; [now apply first_occupied_reverse|].
    split; [now apply compatible_opp | exact F].
  - destruct H as (d & k & Hc & Hk & Hr & Hclear).
    apply get_attackers_slider_In; [rewrite T; unfold slider; auto|].
    exists (- fst d, - snd d), k. simpl. rewrite T.
    split; [apply (compatible_QUEEN _ QUEEN); now apply compatible_opp|].
    split; [now apply first_occupied_reverse|].
    split; [now apply compatible_opp | exact F].
  - destruct H as (off & Ho & E). apply offset_back in E; auto.
    unfold get_attackers. apply in_or_app. right. apply in_or_app. left.
    apply king_attackers_In.
    exists (- fst off, - snd off). simpl. repeat split; auto.
    now apply KING_OFFSETS_opp.
Qed.

Lemma sliding_record_attacked_from b x a p d k :
  on_board x -> compatible d (piece_type p) ->
  first_occupied b x (fst d) (snd d) k a p ->
  attacked_from b a p x.
Proof.
  intros Hx Hc (Hk & Hr & G & Hclear).
  assert (H : exists d' k', compatible d' (piece_type p) /\ (1 <= k')%nat
                            /\ ray k' a (fst d') (snd d') = Some x
                            /\ clear_before b a (fst d') (snd d') k').
  { exists (- fst d, - snd d), k. simpl.
    split; [now apply compatible_opp|]. split; auto.
    split; [now apply ray_end_reverse|].
    now apply (clear_before_reverse b x a). }
  unfold attacked_from. apply compatible_slider in Hc.
  destruct Hc as [T|[T|T]]; rewrite T in *; exact H.
Qed.

(** From the target to the piece: every attacker found by the scan towards
    an on-board square [x] attacks [x] by geometry. *)
Lemma attackers_attacked_from b x by_color a p :
  on_board x -> In (a, p) (get_attackers b x by_color) -> attacked_from b a p x.
Proof.
  intros Hx H. unfold get_attackers in H. rewrite !in_app_iff in H.
  rewrite knight_attackers_In, king_attackers_In, pawn_attackers_In in H.
  rewrite (check_sliding_In _ _ _ _ _ _ _ BISHOP_in_QUEEN) in H.
  rewrite (check_sliding_In _ _ _ _ _ _ _ ROOK_in_QUEEN) in H.
  destruct H as [(off & Ho & E & G & T & F)|[(off & Ho & E & G & T & F)
                |[(fd & Hfd & E & G & T & F)
                |[(d & k & Hd & Hfo & T & F)
                 |(d & k & Hd & Hfo & T & F)]]]].
  - unfold attacked_from. rewrite T. exists (- fst off, - snd off). simpl.
    split; [now apply KNIGHT_OFFSETS_opp | now apply offset_back].
  - unfold attacked_from. rewrite T. exists (- fst off, - snd off). simpl.
    split; [now apply KING_OFFSETS_opp | now apply offset_back].
  - unfold attacked_from. rewrite T. exists (- fd). split; [lia|].
    apply offset_back in E; auto. rewrite pawn_back_forward in E.
    now rewrite Z.opp_involutive in E.
  - apply (sliding_record_attacked_from b x a p d k); auto.
    left. split; auto. simpl in T. intuition.
  - apply (sliding_record_attacked_from b x a p d k); auto.
    right. split; auto. simpl in T. intuition.
Qed.

(** X13 — symmetry of threat, from the target back to the piece.  Every
    attacker that [get_attackers] reports for a square of the board has that
    square in the set [get_attacked_by_piece] projects from it. *)
Theorem threat_symmetry_converse :
  forall (b : Board) (B A : Square) (P : Piece) (by_color : option Color),
    on_board B ->
    In (A, P) (get_attackers b B by_color) ->
    In B (get_attacked_by_piece b A P).
Proof.
  intros b B A P by_color HB H. apply get_attacked_by_piece_In.
  now apply (attackers_attacked_from b B by_color).
Qed.

Lemma threat_symmetry_converse_witness :
  on_board e5
  /\ In (f3, mkPiece KNIGHT WHITE) (get_attackers e5_board e5 None)
  /\ In e5 (get_attacked_by_piece e5_board f3 (mkPiece KNIGHT WHITE)).
Proof.
  assert (Hb : on_board e5) by (unfold on_board, e5; simpl; lia).
  assert (H : In (f3, mkPiece KNIGHT WHITE) (get_attackers e5_board e5 None))
    by (vm_compute; auto).
  split; [exact Hb|]. split; [exact H|].
  exact (threat_symmetry_converse e5_board e5 f3 (mkPiece KNIGHT WHITE) None Hb H).
Defined.

Lemma attacked_from_on_board b a p x :
  attacked_from b a p x -> on_board x /\ x <> a.
Proof.
  unfold attacked_from. intros H.
  assert (Hray : (exists d k, compatible d (piece_type p) /\ (1 <= k)%nat
                              /\ ray k a (fst d) (snd d) = Some x
                              /\ clear_before b a (fst d) (snd d) k)
                 -> on_board x /\ x <> a).
  { intros (d & k & Hc & Hk & Hr & _). split; [eapply ray_on_board; eauto|].
    eapply ray_moves; eauto. eapply compatible_QUEEN; eauto. }
  destruct (piece_type p); auto.
  - destruct H as (fd & Hfd & E). split; [eapply offset_on_board; eauto|].
    eapply offset_moves; eauto. lia.
  - destruct H as (off & Ho & E). split; [eapply offset_on_board; eauto|].
    eapply offset_moves; eauto. now apply KNIGHT_OFFSETS_nonzero.
  - destruct H as (off & Ho & E). split; [eapply offset_on_board; eauto|].
    eapply offset_moves; eauto. now apply KING_OFFSETS_nonzero.
Qed.

Lemma set_add_NoDup (x : Square) (l : list Square) :
  NoDup l -> NoDup (py.set_add Square_eqb x l).
Proof.
  intros H. unfold py.set_add, py.set_contains.
  destruct (existsb (Square_eqb x) l) eqn:E; auto.
  assert (Hn : ~ In x l).
  { intros Hin. assert (existsb (Square_eqb x) l = true).
    { apply existsb_exists. exists x. split; auto. now apply Square_eqb_eq. }
    congruence. }
  clear E. induction l as [|y l IH]; simpl.
  - constructor; [tauto | constructor].
  - inversion H; subst. constructor.
    + rewrite in_app_iff. simpl. intros [Hin|[->|[]]]; [contradiction|].
      apply Hn. now left.
    + apply IH; auto. intros Hin. apply Hn. now right.
Qed.

Lemma attack_walk_NoDup (n : nat) b dx dy :
  forall cur acc, NoDup acc -> NoDup (attack_walk n b cur dx dy acc).
Proof.
  induction n as [|n IH]; intros cur acc H; simpl; auto.
  destruct (offset cur dx dy) as [target|]; auto.
  destruct (get b target); [now apply set_add_NoDup|].
  apply IH. now apply set_add_NoDup.
Qed.

Lemma add_rays_NoDup b from_square directions :
  forall acc, NoDup acc -> NoDup (add_rays b from_square directions acc).
Proof.
  unfold add_rays.
  induction directions as [|[dx dy] ds IH]; intros acc H; cbn [fold_left]; auto.
  apply IH. now apply attack_walk_NoDup.
Qed.

Lemma add_offsets_NoDup from_square offsets :
  forall acc, NoDup acc -> NoDup (add_offsets from_square offsets acc).
Proof.
  unfold add_offsets.
  induction offsets as [|off offs IH]; intros acc H; cbn [fold_left]; auto.
  apply IH. destruct (offset from_square (fst off) (snd off)); auto.
  now apply set_add_NoDup.
Qed.

(** X14 — the projected set.  [get_attacked_by_piece] lists each square at
    most once; every listed square is on the board and differs from the
    square the piece stands on. *)
Theorem get_attacked_by_piece_set :
  forall (b : Board) (from_square : Square) (piece : Piece),
    NoDup (get_attacked_by_piece b from_square piece)
    /\ forall x, In x (get_attacked_by_piece b from_square piece)
                 -> on_board x /\ x <> from_square.
Proof.
  intros b from_square piece. split.
  - unfold get_attacked_by_piece. cbv zeta.
    assert (N : NoDup (@nil Square)) by constructor.
    destruct (piece_type piece); simpl type_in; cbv iota;
      repeat first [apply add_rays_NoDup | apply add_offsets_NoDup]; exact N.
  - intros x H. apply get_attacked_by_piece_In in H.
    now apply attacked_from_on_board in H.
Qed.

Lemma get_attacked_by_piece_set_witness :
  In e5 (get_attacked_by_piece pin_board e1 (mkPiece ROOK WHITE))
  /\ on_board e5 /\ e5 <> e1.
Proof.
  assert (H : In e5 (get_attacked_by_piece pin_board e1 (mkPiece ROOK WHITE)))
    by (vm_compute; auto 10).
  split; [exact H|].
  exact (proj2 (get_attacked_by_piece_set pin_board e1 (mkPiece ROOK WHITE)) e5 H).
Defined.

(* ------------------------------------------------------------------ *)
(** ** Attacked squares, defenders and hanging pieces *)

Lemma fold_set_add_In (l : list Square) (x : Square) :
  forall acc,
  In x (fold_left (fun acc s => py.set_add Square_eqb s acc) l acc)
  <-> In x l \/ In x acc.
Proof.
  induction l as [|y l IH]; intros acc; cbn [fold_left].
  - simpl. tauto.
  - rewrite IH, set_add_In. simpl. intuition.
Qed.

Lemma get_all_attacked_squares_In b by_color x :
  In x (get_all_attacked_squares b by_color)
  <-> exists idx piece, In (idx, piece) (pieces b) /\ color piece = by_color
                        /\ In x (get_attacked_by_piece b (mkSquare idx) piece).
Proof.
  unfold get_all_attacked_squares, dict.items.
  assert (G : forall l acc,
             In x (fold_left
                     (fun attacked (kv : Z * Piece) =>
                        let (square_idx, piece) := kv in
                        if Color_eqb (color piece) by_color
                        then fold_left (fun acc s => py.set_add Square_eqb s acc)
                                       (get_attacked_by_piece b (mkSquare square_idx) piece)
                                       attacked
                        else attacked) l acc)
             <-> In x acc
                 \/ exists idx piece, In (idx, piece) l /\ color piece = by_color
                      /\ In x (get_attacked_by_piece b (mkSquare idx) piece)).
  { induction l as [|[idx piece] l IH]; intros acc; cbn [fold_left].
    - split; auto. intros [H|(i & p & [] & _)]. exact H.
    - rewrite IH. destruct (Color_eqb (color piece) by_color) eqn:C.
      + apply Color_eqb_eq in C. rewrite fold_set_add_In. split.
        * intros [[H|H]|(i & p & Hin & H)]; auto.
          -- right. exists idx, piece. split; [now left | auto].
          -- right. exists i, p. split; [now right | auto].
        * intros [H|(i & p & [[= <- <-]|Hin] & H')]; auto.
          -- left. left. tauto.
          -- right. exists i, p. auto.
      + split.
        * intros [H|(i & p & Hin & H)]; auto.
          right. exists i, p. split; [now right | auto].
        * intros [H|(i & p & [[= <- <-]|Hin] & Hc & H')]; auto.
          -- apply Color_eqb_eq in Hc. congruence.
          -- right. exists i, p. auto. }
  rewrite G. simpl. split; [intros [[]|H]; exact H | auto].
Qed.

Lemma is_attacked_iff b target by_color :
  is_attacked b target by_color = true
  <-> exists a p, In (a, p) (get_attackers b target (Some by_color)).
Proof.
  unfold is_attacked. rewrite len_pos.
  destruct (get_attackers b target (Some by_color)) as [|[a p] l]; simpl.
  - split; [lia | intros (a & p & [])].
  - split; [intros _; exists a, p; now left | lia].
Qed.

(** X15 — the attacked-square set and the per-square test agree.  On a
    board whose pieces stand on distinct squares of the board, a square of the
    board is in [get_all_attacked_squares] of a colour exactly when
    [is_attacked] by that colour holds for it. *)
Theorem get_all_attacked_squares_spec :
  forall (b : Board) (by_color : Color) (x : Square),
    dict.wf (pieces b) ->
    keys_on_board b ->
    on_board x ->
    (In x (get_all_attacked_squares b by_color)
     <-> is_attacked b x by_color = true).
Proof.
  intros b by_color x Hwf Hkeys Hx.
  rewrite get_all_attacked_squares_In, is_attacked_iff. split.
  - intros (idx & piece & Hin & C & H). exists (mkSquare idx), piece.
    apply get_attacked_by_piece_In in H.
    apply attacked_from_found; auto.
    + unfold on_board. simpl. eapply Hkeys; eauto.
    + unfold get. simpl. now apply dict_In_get.
    + right. now rewrite C.
  - intros (a & p & H).
    pose proof (attackers_attacked_from b x (Some by_color) a p Hx H) as Ha.
    unfold get_attackers in H. rewrite !in_app_iff in H.
    rewrite knight_attackers_In, king_attackers_In, pawn_attackers_In in H.
    rewrite (check_sliding_In _ _ _ _ _ _ _ BISHOP_in_QUEEN) in H.
    rewrite (check_sliding_In _ _ _ _ _ _ _ ROOK_in_QUEEN) in H.
    assert (G : get b a = Some p /\ filter_ok (Some by_color) p).
    { destruct H as [(off & _ & _ & G & _ & F)|[(off & _ & _ & G & _ & F)
                    |[(fd & _ & _ & G & _ & F)
                    |[(d & k & _ & (_ & _ & G & _) & _ & F)
                     |(d & k & _ & (_ & _ & G & _) & _ & F)]]]]; auto. }
    destruct G as [G [F|F]]; [discriminate|]. injection F as ->.
    exists (index a), p. split; [now apply dict_get_In|]. split; auto.
    apply get_attacked_by_piece_In. destruct a; exact Ha.
Qed.

Lemma get_all_attacked_squares_spec_witness :
  dict.wf (pieces pin_board)
  /\ keys_on_board pin_board
  /\ on_board e5
  /\ is_attacked pin_board e5 WHITE = true
  /\ In e5 (get_all_attacked_squares pin_board WHITE).
Proof.
  assert (Hwf : dict.wf (pieces pin_board)) by (apply distinct_keys_wf; reflexivity).
  assert (Hk : keys_on_board pin_board).
  { intros idx p H. simpl in H.
    repeat (destruct H as [H|H]; [injection H as <- <-; lia|]). contradiction. }
  assert (Hb : on_board e5) by (unfold on_board, e5; simpl; lia).
  split; [exact Hwf|]. split; [exact Hk|]. split; [exact Hb|].
  split; [reflexivity|].
  exact (proj2 (get_all_attacked_squares_spec pin_board WHITE e5 Hwf Hk Hb) eq_refl).
Defined.

(** X16 — hanging, attacked, defended, protected.  A square is hanging
    exactly when it holds a piece that the other colour attacks and that is
    not defended; a hanging piece is never reported protected. *)
Theorem is_hanging_composition :
  forall (b : Board) (s : Square),
    (is_hanging b s = true
     <-> exists piece, get b s = Some piece
                       /\ is_attacked b s (opposite (color piece)) = true
                       /\ is_defended b s = false)
    /\ (is_hanging b s = true -> is_protected b s = false).
Proof.
  intros b s. unfold is_hanging, is_protected, is_attacked, is_defended.
  destruct (get b s) as [piece|] eqn:G; cbv zeta.
  - split.
    + rewrite andb_true_iff. split.
      * intros [H1 H2]. exists piece. split; auto. split; auto.
        apply Z.eqb_eq in H2. rewrite H2. reflexivity.
      * intros (piece' & [= <-] & H1 & H2). split; auto.
        apply Z.eqb_eq. unfold py.len in *.
        destruct (get_defenders b s); [reflexivity|discriminate].
    + rewrite andb_true_iff. intros [H1 H2].
      apply Z.gtb_lt in H1. apply Z.eqb_eq in H2. rewrite H2.
      rewrite Z.geb_leb. apply Z.leb_gt. lia.
  - split; [|discriminate]. split; [discriminate|].
    intros (piece & H & _). discriminate.
Qed.

Lemma is_hanging_composition_witness :
  is_hanging e5_board e5 = true /\ is_protected e5_board e5 = false.
Proof.
  assert (H : is_hanging e5_board e5 = true) by (vm_compute; reflexivity).
  split; [exact H|].
  exact (proj2 (is_hanging_composition e5_board e5) H).
Defined.

Lemma is_hanging_undefended b s : is_hanging b s = true -> is_defended b s = false.
Proof.
  unfold is_hanging, is_defended. destruct (get b s) as [piece|]; [|discriminate].
  cbv zeta. rewrite andb_true_iff. intros [_ H]. apply Z.eqb_eq in H.
  rewrite H. reflexivity.
Qed.

(** X17 — hanging pieces are undefended pieces.  Every entry of
    [find_hanging_pieces] for a colour is an entry of
    [find_undefended_pieces] for that colour, has that colour and is hanging. *)
Theorem find_hanging_pieces_undefended :
  forall (b : Board) (c : Color) (sp : Square * Piece),
    In sp (find_hanging_pieces b c) ->
    In sp (find_undefended_pieces b c)
    /\ color (snd sp) = c
    /\ is_hanging b (fst sp) = true.
Proof.
  intros b c [s p] H. unfold find_hanging_pieces in H.
  apply filter_In in H. destruct H as [Hin Hh]. cbn [fst snd] in *.
  split; [|split]; auto.
  - unfold find_undefended_pieces. apply filter_In. split; auto.
    cbn [fst]. now rewrite (is_hanging_undefended b s Hh).
  - apply get_pieces_by_color_In in Hin. tauto.
Qed.

Lemma find_hanging_pieces_undefended_witness :
  In (e5, mkPiece PAWN BLACK) (find_hanging_pieces e5_board BLACK)
  /\ In (e5, mkPiece PAWN BLACK) (find_undefended_pieces e5_board BLACK).
Proof.
  assert (H : In (e5, mkPiece PAWN BLACK) (find_hanging_pieces e5_board BLACK))
    by (vm_compute; auto).
  split; [exact H|].
  exact (proj1 (find_hanging_pieces_undefended e5_board BLACK _ H)).
Defined.

(** X18 — defenders.  An empty square has no defenders; every defender of
    an occupied square stands on another square of the board, is the piece
    standing there, and has the colour of the piece defended. *)
Theorem get_defenders_sound :
  forall (b : Board) (target : Square),
    (get b target = None -> get_defenders b target = [])
    /\ forall s p, In (s, p) (get_defenders b target) ->
                   exists occupant,
                     get b target = Some occupant
                     /\ color p = color occupant
                     /\ on_board s /\ s <> target /\ get b s = Some p.
Proof.
  intros b target. unfold get_defenders. split.
  - intros ->. reflexivity.
  - intros s p H. destruct (get b target) as [occ|]; [|contradiction].
    exists occ. split; auto.
    unfold get_attackers in H. rewrite !in_app_iff in H.
    rewrite knight_attackers_In, king_attackers_In, pawn_attackers_In in H.
    rewrite (check_sliding_In _ _ _ _ _ _ _ BISHOP_in_QUEEN) in H.
    rewrite (check_sliding_In _ _ _ _ _ _ _ ROOK_in_QUEEN) in H.
    assert (Hc : forall F : filter_ok (Some (color occ)) p, color p = color occ).
    { intros [F|F]; [discriminate | now injection F]. }
    destruct H as [(off & Ho & E & G & _ & F)|[(off & Ho & E & G & _ & F)
                  |[(fd & Hfd & E & G & _ & F)
                  |[(d & k & Hd & (Hk & Hr & G & _) & _ & F)
                   |(d & k & Hd & (Hk & Hr & G & _) & _ & F)]]]];
      (split; [now apply Hc|]).
    + split; [eapply offset_on_board; eauto|]. split; auto.
      eapply offset_moves; eauto. now apply KNIGHT_OFFSETS_nonzero.
    + split; [eapply offset_on_board; eauto|]. split; auto.
      eapply offset_moves; eauto. now apply KING_OFFSETS_nonzero.
    + split; [eapply offset_on_board; eauto|]. split; auto.
      eapply offset_moves; eauto. lia.
    + split; [eapply ray_on_board; eauto|]. split; auto.
      eapply ray_moves; eauto. now apply BISHOP_in_QUEEN.
    + split; [eapply ray_on_board; eauto|]. split; auto.
      eapply ray_moves; eauto. now apply ROOK_in_QUEEN.
Qed.

Lemma get_defenders_sound_witness :
  In (e1, mkPiece KING WHITE) (get_defenders guard_board (mkSquare 12))
  /\ exists occupant,
       get guard_board (mkSquare 12) = Some occupant
       /\ color (mkPiece KING WHITE) = color occupant
       /\ on_board e1 /\ e1 <> mkSquare 12
       /\ get guard_board e1 = Some (mkPiece KING WHITE).
Proof.
  assert (H : In (e1, mkPiece KING WHITE) (get_defenders guard_board (mkSquare 12)))
    by (vm_compute; auto).
  split; [exact H|].
  exact (proj2 (get_defenders_sound guard_board (mkSquare 12)) e1 _ H).
Defined.

(* ------------------------------------------------------------------ *)
(** ** No attacker is listed twice *)

Lemma NoDup_flat_map_inj {A B : Type} (f : A -> list B) (l : list A) :
  NoDup l -> (forall a, NoDup (f a)) ->
  (forall a a' x, In x (f a) -> In x (f a') -> a = a') ->
  NoDup (flat_map f l).
Proof.
  intros Hl Hf Hinj. induction Hl as [|a l Hnotin Hl IH]; simpl; [constructor|].
  apply NoDup_app; auto. intros x Hx Hx'.
  apply in_flat_map in Hx'. destruct Hx' as (a' & Ha' & Hx').
  rewrite (Hinj a a' x Hx Hx') in Hnotin. contradiction.
Qed.

Lemma NoDup_map_fst {A B : Type} (l : list (A * B)) :
  NoDup l -> (forall a b b', In (a, b) l -> In (a, b') l -> b = b') ->
  NoDup (map fst l).
Proof.
  intros Hl Hfun. induction Hl as [|[a b] l Hnotin Hl IH]; simpl; constructor.
  - intros Hin. apply in_map_iff in Hin. destruct Hin as ([a' b'] & E & Hin).
    simpl in E. subst a'.
    rewrite (Hfun a b b' (or_introl eq_refl) (or_intror Hin)) in Hnotin.
    contradiction.
  - apply IH. intros a0 b0 b0' H1 H2. apply (Hfun a0); now right.
Qed.

Lemma offset_delta_inj (t s : Square) (dx dy dx' dy' : Z) :
  offset t dx dy = Some s -> offset t dx' dy' = Some s -> dx = dx' /\ dy = dy'.
Proof. intros H H'. apply offset_Some in H, H'. lia. Qed.

Lemma NoDup_KNIGHT_OFFSETS : NoDup KNIGHT_OFFSETS.
Proof.
  unfold KNIGHT_OFFSETS.
  repeat (constructor; [simpl; intuition discriminate|]). constructor.
Qed.

Lemma NoDup_KING_OFFSETS : NoDup KING_OFFSETS.
Proof.
  unfold KING_OFFSETS.
  repeat (constructor; [simpl; intuition discriminate|]). constructor.
Qed.

Lemma NoDup_BISHOP_DIRECTIONS : NoDup BISHOP_DIRECTIONS.
Proof.
  unfold BISHOP_DIRECTIONS.
  repeat (constructor; [simpl; intuition discriminate|]). constructor.
Qed.

Lemma NoDup_ROOK_DIRECTIONS : NoDup ROOK_DIRECTIONS.
Proof.
  unfold ROOK_DIRECTIONS.
  repeat (constructor; [simpl; intuition discriminate|]). constructor.
Qed.

Lemma BISHOP_ROOK_disjoint d : In d BISHOP_DIRECTIONS -> In d ROOK_DIRECTIONS -> False.
Proof.
  unfold BISHOP_DIRECTIONS, ROOK_DIRECTIONS. simpl.
  intros H H'. repeat (destruct H as [<-|H]; [intuition discriminate|]).
  contradiction.
Qed.

Ltac probe_inv H :=
  match type of H with
  | In _ (match offset ?t ?dx ?dy with _ => _ end) =>
      let E := fresh "E" in destruct (offset t dx dy) eqn:E; [|inversion H]
  end;
  match type of H with
  | In _ (match get ?b ?a with _ => _ end) =>
      let G := fresh "G" in destruct (get b a) eqn:G; [|inversion H]
  end;
  repeat match type of H with
         | In _ (if ?c then _ else _) => destruct c eqn:?; [|inversion H]
         end;
  destruct H as [H|[]].

Ltac probe_NoDup :=
  repeat match goal with
         | |- NoDup (match ?x with _ => _ end) => destruct x
         | |- NoDup (if ?x then _ else _) => destruct x
         end;
  repeat constructor; simpl; tauto.

Lemma knight_attackers_NoDup b target by_color :
  NoDup (knight_attackers b target by_color).
Proof.
  unfold knight_attackers.
  apply NoDup_flat_map_inj; [apply NoDup_KNIGHT_OFFSETS | intros off; probe_NoDup |].
  intros [dx dy] [dx' dy'] [s p] H H'. cbn [fst snd] in *.
  probe_inv H. probe_inv H'. injection H as -> ->. injection H' as -> _.
  destruct (offset_delta_inj _ _ _ _ _ _ E E0). congruence.
Qed.

Lemma king_attackers_NoDup b target by_color :
  NoDup (king_attackers b target by_color).
Proof.
  unfold king_attackers.
  apply NoDup_flat_map_inj; [apply NoDup_KING_OFFSETS | intros off; probe_NoDup |].
  intros [dx dy] [dx' dy'] [s p] H H'. cbn [fst snd] in *.
  probe_inv H. probe_inv H'. injection H as -> ->. injection H' as -> _.
  destruct (offset_delta_inj _ _ _ _ _ _ E E0). congruence.
Qed.

Lemma pawn_attackers_NoDup b target by_color :
  NoDup (pawn_attackers b target by_color).
Proof.
  unfold pawn_attackers. apply NoDup_flat_map_inj.
  - repeat (constructor; [simpl; intuition discriminate|]). constructor.
  - intros [c rd].
    destruct (match by_color with Some bc => negb (Color_eqb bc c) | None => false end);
      [constructor|].
    apply NoDup_flat_map_inj.
    + repeat (constructor; [simpl; intuition discriminate|]). constructor.
    + intros fd. probe_NoDup.
    + intros fd fd' [s p] H H'. probe_inv H. probe_inv H'.
      injection H as -> ->. injection H' as -> _.
      now destruct (offset_delta_inj _ _ _ _ _ _ E E0).
  - intros [c rd] [c' rd'] [s p] H H'.
    assert (K : forall c0 rd0,
               In (s, p)
                  (if match by_color with
                      | Some bc => negb (Color_eqb bc c0) | None => false end
                   then []
                   else flat_map
                          (fun file_dir : Z =>
                             match offset target file_dir rd0 with
                             | Some attacker_sq =>
                                 match get b attacker_sq with
                                 | Some piece =>
                                     if PieceType_eqb (piece_type piece) PAWN
                                        && Color_eqb (color piece) c0
                                     then [(attacker_sq, piece)] else []
                                 | None => []
                                 end
                             | None => []
                             end) [-1; 1])
               -> color p = c0 /\ exists fd, offset target fd rd0 = Some s).
    { intros c0 rd0 H0.
      destruct (match by_color with
                | Some bc => negb (Color_eqb bc c0) | None => false end);
        [inversion H0|].
      apply in_flat_map in H0. destruct H0 as (fd & _ & H0).
      probe_inv H0. injection H0 as -> ->.
      match goal with
      | Hc : (_ && _) = true |- _ => apply andb_true_iff in Hc; destruct Hc as [_ Hc];
                                      apply Color_eqb_eq in Hc
      end.
      split; auto. exists fd. auto. }
    apply K in H, H'. destruct H as (C & fd & E). destruct H' as (C' & fd' & E').
    destruct (offset_delta_inj _ _ _ _ _ _ E E'). congruence.
Qed.

Lemma sliding_walk_NoDup (n : nat) b by_color valid_types dx dy :
  forall cur, NoDup (sliding_walk n b by_color valid_types cur dx dy).
Proof.
  induction n as [|n IH]; intros cur; simpl; [constructor|].
  destruct (offset cur dx dy) as [next|]; [|constructor].
  destruct (get b next) as [piece|]; auto.
  destruct (type_in (piece_type piece) valid_types); [|constructor].
  destruct (color_matches by_color piece); repeat constructor. simpl. tauto.
Qed.

Lemma check_sliding_NoDup b target by_color directions valid_types :
  NoDup directions ->
  (forall d, In d directions -> In d QUEEN_DIRECTIONS) ->
  NoDup (check_sliding b target by_color directions valid_types).
Proof.
  intros Hnd Hsub. unfold check_sliding.
  assert (G : forall l, NoDup l -> (forall d, In d l -> In d QUEEN_DIRECTIONS) ->
                        NoDup (flat_map
                                 (fun d : Z * Z =>
                                    let (dx, dy) := d in
                                    sliding_walk WALK_FUEL b by_color valid_types
                                                 target dx dy) l)).
  { intros l Hl. induction Hl as [|[dx dy] l Hnotin Hl IH]; intros Hs;
      cbn [flat_map]; [constructor|].
    apply NoDup_app; [apply sliding_walk_NoDup | apply IH; intros; apply Hs; now right|].
    intros [s p] Hx Hx'. apply in_flat_map in Hx'.
    destruct Hx' as ([dx' dy'] & Hd' & Hx').
    apply sliding_walk_In in Hx, Hx'.
    destruct Hx as (k & _ & (Hk & Hr & _) & _).
    destruct Hx' as (k' & _ & (Hk' & Hr' & _) & _).
    destruct (ray_injective k k' target s (dx, dy) (dx', dy')) as [E _]; auto.
    - apply Hs. now left.
    - apply Hs. now right.
    - rewrite E in Hnotin. contradiction. }
  now apply G.
Qed.

Lemma get_attackers_NoDup b target by_color :
  NoDup (get_attackers b target by_color).
Proof.
  unfold get_attackers.
  apply NoDup_app; [apply knight_attackers_NoDup | |].
  2: { intros [s p] H H'. rewrite !in_app_iff in H'.
       rewrite knight_attackers_In in H.
       rewrite king_attackers_In, pawn_attackers_In in H'.
       rewrite (check_sliding_In _ _ _ _ _ _ _ BISHOP_in_QUEEN) in H'.
       rewrite (check_sliding_In _ _ _ _ _ _ _ ROOK_in_QUEEN) in H'.
       destruct H as (_ & _ & _ & _ & T & _).
       destruct H' as [(_ & _ & _ & _ & T' & _)|[(_ & _ & _ & _ & T' & _)
                      |[(_ & _ & _ & _ & T' & _)|(_ & _ & _ & _ & T' & _)]]];
         simpl in T'; rewrite T in T'; intuition discriminate. }
  apply NoDup_app; [apply king_attackers_NoDup | |].
  2: { intros [s p] H H'. rewrite !in_app_iff in H'.
       rewrite king_attackers_In in H.
       rewrite pawn_attackers_In in H'.
       rewrite (check_sliding_In _ _ _ _ _ _ _ BISHOP_in_QUEEN) in H'.
       rewrite (check_sliding_In _ _ _ _ _ _ _ ROOK_in_QUEEN) in H'.
       destruct H as (_ & _ & _ & _ & T & _).
       destruct H' as [(_ & _ & _ & _ & T' & _)
                      |[(_ & _ & _ & _ & T' & _)|(_ & _ & _ & _ & T' & _)]];
         simpl in T'; rewrite T in T'; intuition discriminate. }
  apply NoDup_app; [apply pawn_attackers_NoDup | |].
  2: { intros [s p] H H'. rewrite !in_app_iff in H'.
       rewrite pawn_attackers_In in H.
       rewrite (check_sliding_In _ _ _ _ _ _ _ BISHOP_in_QUEEN) in H'.
       rewrite (check_sliding_In _ _ _ _ _ _ _ ROOK_in_QUEEN) in H'.
       destruct H as (_ & _ & _ & _ & T & _).
       destruct H' as [(_ & _ & _ & _ & T' & _)|(_ & _ & _ & _ & T' & _)];
         simpl in T'; rewrite T in T'; intuition discriminate. }
  apply NoDup_app.
  - apply check_sliding_NoDup; [apply NoDup_BISHOP_DIRECTIONS | apply BISHOP_in_QUEEN].
  - apply check_sliding_NoDup; [apply NoDup_ROOK_DIRECTIONS | apply ROOK_in_QUEEN].
  - intros [s p] H H'.
    rewrite (check_sliding_In _ _ _ _ _ _ _ BISHOP_in_QUEEN) in H.
    rewrite (check_sliding_In _ _ _ _ _ _ _ ROOK_in_QUEEN) in H'.
    destruct H as (d & k & Hd & (Hk & Hr & _) & _).
    destruct H' as (d' & k' & Hd' & (Hk' & Hr' & _) & _).
    destruct (ray_injective k k' target s d d') as [E _]; auto.
    + now apply BISHOP_in_QUEEN.
    + now apply ROOK_in_QUEEN.
    + subst d'. exact (BISHOP_ROOK_disjoint d Hd Hd').
Qed.

(** X19 — no attacker is counted twice.  In the list [get_attackers]
    returns, with or without a colour filter, no square occurs twice; the
    length of the list is therefore the number of attacking pieces. *)
Theorem get_attackers_distinct :
  forall (b : Board) (target : Square) (by_color : option Color),
    NoDup (map fst (get_attackers b target by_color)).
Proof.
  intros b target by_color. apply NoDup_map_fst; [apply get_attackers_NoDup|].
  intros s p p' H H'.
  assert (G : forall q, In (s, q) (get_attackers b target by_color) -> get b s = Some q).
  { intros q Hq. unfold get_attackers in Hq. rewrite !in_app_iff in Hq.
    rewrite knight_attackers_In, king_attackers_In, pawn_attackers_In in Hq.
    rewrite (check_sliding_In _ _ _ _ _ _ _ BISHOP_in_QUEEN) in Hq.
    rewrite (check_sliding_In _ _ _ _ _ _ _ ROOK_in_QUEEN) in Hq.
    destruct Hq as [(off & _ & _ & G & _)|[(off & _ & _ & G & _)
                   |[(fd & _ & _ & G & _)
                   |[(d & k & _ & (_ & _ & G & _) & _)
                    |(d & k & _ & (_ & _ & G & _) & _)]]]]; exact G. }
  apply G in H, H'. congruence.
Qed.

(* ------------------------------------------------------------------ *)
(** ** Lifting the piece in the middle of a ray *)

Lemma get_set_None b s s' :
  dict.wf (pieces b) ->
  get (set b s None) s' = if index s' =? index s then None else get b s'.
Proof.
  intros Hwf. unfold set, get, with_pieces. cbn [pieces dict.pop snd].
  now apply dict_get_remove.
Qed.

Lemma ray_steps_differ (j k : nat) (t s s' : Square) (d : Z * Z) :
  In d QUEEN_DIRECTIONS -> (1 <= j)%nat -> (1 <= k)%nat -> j <> k ->
  ray j t (fst d) (snd d) = Some s -> ray k t (fst d) (snd d) = Some s' ->
  index s <> index s'.
Proof.
  intros Hd Hj Hk Hne Hr Hr' E. apply Square_eq in E. subst s'.
  destruct (ray_injective j k t s d d Hd Hd Hj Hk Hr Hr') as [_ E]. contradiction.
Qed.

(** With the first occupant of a ray removed, the next occupant becomes the
    first. *)
Lemma first_occupied_lift b t d k1 k2 s1 p1 s2 p2 :
  dict.wf (pieces b) -> In d QUEEN_DIRECTIONS ->
  first_occupied b t (fst d) (snd d) k1 s1 p1 ->
  first_occupied b s1 (fst d) (snd d) k2 s2 p2 ->
  first_occupied (set b s1 None) t (fst d) (snd d) (k1 + k2) s2 p2.
Proof.
  intros Hwf Hd (Hk1 & Hr1 & G1 & Hc1) (Hk2 & Hr2 & G2 & Hc2).
  assert (Hr : ray (k1 + k2) t (fst d) (snd d) = Some s2)
    by (rewrite ray_add, Hr1; exact Hr2).
  split; [lia|]. split; [exact Hr|]. split.
  - rewrite get_set_None by auto.
    replace (index s2 =? index s1) with false; auto.
    symmetry. apply Z.eqb_neq.
    apply (ray_steps_differ (k1 + k2) k1 t s2 s1 d); auto; lia.
  - intros j s' Hj Hj'. rewrite get_set_None by auto.
    destruct (index s' =? index s1) eqn:E; auto.
    apply Z.eqb_neq in E.
    destruct (Nat.lt_trichotomy j k1) as [Hlt|[->|Hgt]].
    + apply (Hc1 j s'); auto. lia.
    + rewrite Hr1 in Hj'. injection Hj' as ->. contradiction.
    + apply (Hc2 (j - k1)%nat s'); [lia|].
      replace j with (k1 + (j - k1))%nat in Hj' by lia.
      rewrite ray_add, Hr1 in Hj'. exact Hj'.
Qed.

Lemma first_occupied_attacked_from b a p d k x q :
  compatible d (piece_type p) ->
  first_occupied b a (fst d) (snd d) k x q ->
  attacked_from b a p x.
Proof.
  intros Hc (Hk & Hr & _ & Hclear).
  assert (H : exists d' k', compatible d' (piece_type p) /\ (1 <= k')%nat
                            /\ ray k' a (fst d') (snd d') = Some x
                            /\ clear_before b a (fst d') (snd d') k')
    by (exists d, k; auto).
  unfold attacked_from. pose proof (compatible_slider _ _ Hc) as [T|[T|T]];
    rewrite T in *; exact H.
Qed.

(** A slider with a piece in its way and another piece behind attacks the
    piece behind once the piece in the way is lifted. *)
Lemma lifted_attack b a p d k1 k2 s1 p1 s2 p2 :
  dict.wf (pieces b) -> on_board a -> get b a = Some p ->
  compatible d (piece_type p) ->
  first_occupied b a (fst d) (snd d) k1 s1 p1 ->
  first_occupied b s1 (fst d) (snd d) k2 s2 p2 ->
  In (a, p) (get_attackers (set b s1 None) s2 (Some (color p))).
Proof.
  intros Hwf Ha G Hc Hfo1 Hfo2.
  pose proof (compatible_QUEEN _ _ Hc) as Hd.
  apply attacked_from_found; auto.
  - rewrite get_set_None by auto.
    replace (index a =? index s1) with false; auto.
    symmetry. apply Z.eqb_neq. intros E. apply Square_eq in E.
    destruct Hfo1 as (Hk1 & Hr1 & _).
    apply (ray_moves k1 a s1 d Hd Hk1 Hr1). now symmetry.
  - apply (first_occupied_attacked_from _ a p d (k1 + k2) s2 p2); auto.
    eapply first_occupied_lift; eauto.
  - now right.
Qed.

(* ------------------------------------------------------------------ *)
(** ** Skewers and discovered attacks *)

Lemma slider_type_compatible d t :
  In d (slider_directions t) ->
  type_in t [BISHOP; ROOK; QUEEN] = true.
Proof.
  rewrite slider_directions_In. intros H. apply compatible_slider in H.
  destruct H as [->|[->| ->]]; reflexivity.
Qed.

Lemma skewers_along_In b c our d r :
  In d QUEEN_DIRECTIONS ->
  (In r (skewers_along b c our d)
   <-> exists k1 k2 first second,
         first_occupied b (fst our) (fst d) (snd d) k1 (fst first) (snd first)
         /\ first_occupied b (fst first) (fst d) (snd d) k2 (fst second) (snd second)
         /\ color (snd first) = opposite c
         /\ color (snd second) = opposite c
         /\ tactics.get_piece_value (snd first) > tactics.get_piece_value (snd second)
         /\ r = skewer_record our first second).
Proof.
  intros Hd. destruct d as [dx dy]. unfold skewers_along. cbn [fst snd].
  destruct (pin_walk WALK_FUEL b (fst our) dx dy None) as [[[s1 p1]|] [[s2 p2]|]] eqn:W.
  2-4: split; [intros []|];
       intros (k1 & k2 & [s1' p1'] & [s2' p2'] & Hfo1 & Hfo2 & _);
       assert (W' : pin_walk WALK_FUEL b (fst our) dx dy None
                    = (Some (s1', p1'), Some (s2', p2')))
         by (apply pin_walk_first; exists k1, k2; split; auto;
             eapply two_stretches_bound; eauto);
       rewrite W in W'; discriminate.
  apply pin_walk_first in W. destruct W as (k1 & k2 & Hk & Hfo1 & Hfo2).
  cbn [fst snd]. split.
  - intros H.
    destruct (Color_eqb (color p1) (opposite c) && Color_eqb (color p2) (opposite c))
      eqn:C; [|inversion H].
    apply andb_true_iff in C. destruct C as [C1 C2].
    apply Color_eqb_eq in C1, C2.
    destruct (tactics.get_piece_value p1 >? tactics.get_piece_value p2) eqn:V;
      [|inversion H].
    destruct H as [<-|[]].
    exists k1, k2, (s1, p1), (s2, p2). cbn [fst snd].
    apply Z.gtb_lt in V. repeat split; auto; try apply Hfo1; try apply Hfo2. lia.
  - intros (k1' & k2' & [s1' p1'] & [s2' p2'] & Hfo1' & Hfo2' & C1 & C2 & V & ->).
    cbn [fst snd] in *.
    destruct (first_occupied_unique _ _ _ _ _ _ _ _ _ _ Hfo1 Hfo1') as (<- & <- & <-).
    destruct (first_occupied_unique _ _ _ _ _ _ _ _ _ _ Hfo2 Hfo2') as (<- & <- & <-).
    apply Color_eqb_eq in C1, C2. rewrite C1, C2. cbn [andb].
    replace (tactics.get_piece_value p1 >? tactics.get_piece_value p2) with true
      by (symmetry; apply Z.gtb_lt; lia).
    now left.
Qed.

Lemma find_skewers_In b c r :
  In r (find_skewers b c)
  <-> exists our d,
        In our (get_pieces_by_color b c)
        /\ compatible d (piece_type (snd our))
        /\ In r (skewers_along b c our d).
Proof.
  unfold find_skewers. rewrite in_flat_map. split.
  - intros (our & Hp & H).
    destruct (type_in (piece_type (snd our)) [BISHOP; ROOK; QUEEN]) eqn:T;
      cbn [negb] in H; [|inversion H].
    apply in_flat_map in H. destruct H as (d & Hd & H).
    exists our, d. rewrite <- slider_directions_In. auto.
  - intros (our & d & Hp & Hd & H). exists our. split; auto.
    apply slider_directions_In in Hd.
    rewrite (slider_type_compatible d _ Hd). cbn [negb].
    apply in_flat_map. exists d. auto.
Qed.

(** X20 — [find_skewers].  On a board with distinct keys a record is in
    [find_skewers b c] exactly when a bishop, rook or queen of colour [c], a
    ray direction compatible with it, the first occupied square of that ray
    and the next occupied square beyond it exist such that both occupants
    have the other colour and the nearer one is worth strictly more, the
    record being built from the three pieces. *)
Theorem find_skewers_spec :
  forall (b : Board) (c : Color),
    dict.wf (pieces b) ->
    forall r,
      In r (find_skewers b c)
      <-> exists our d k1 k2 first second,
            get b (fst our) = Some (snd our)
            /\ color (snd our) = c
            /\ compatible d (piece_type (snd our))
            /\ first_occupied b (fst our) (fst d) (snd d) k1 (fst first) (snd first)
            /\ first_occupied b (fst first) (fst d) (snd d) k2
                              (fst second) (snd second)
            /\ color (snd first) = opposite c
            /\ color (snd second) = opposite c
            /\ tactics.get_piece_value (snd first)
               > tactics.get_piece_value (snd second)
            /\ r = skewer_record our first second.
Proof.
  intros b c Hwf r. rewrite find_skewers_In. split.
  - intros ([os op] & d & Hp & Hc & H).
    apply skewers_along_In in H; [|eapply compatible_QUEEN; eauto].
    destruct H as (k1 & k2 & first & second & H).
    apply get_pieces_by_color_get in Hp; auto.
    exists (os, op), d, k1, k2, first, second. cbn [fst snd] in *. intuition.
  - intros ([os op] & d & k1 & k2 & first & second & G & C & Hc & H).
    exists (os, op), d. split; [apply get_pieces_by_color_get; auto|].
    split; auto. apply skewers_along_In; [eapply compatible_QUEEN; eauto|].
    exists k1, k2, first, second. exact H.
Qed.

Lemma find_skewers_spec_witness :
  dict.wf (pieces skewer_board)
  /\ In (skewer_record (e1, mkPiece ROOK WHITE) (e5, mkPiece QUEEN BLACK)
                       (e8, mkPiece ROOK BLACK))
        (find_skewers skewer_board WHITE).
Proof.
  assert (Hwf : dict.wf (pieces skewer_board))
    by (apply distinct_keys_wf; reflexivity).
  split; [exact Hwf|].
  apply (proj2 (find_skewers_spec skewer_board WHITE Hwf _)).
  exists (e1, mkPiece ROOK WHITE), (0, 1), 4%nat, 3%nat,
         (e5, mkPiece QUEEN BLACK), (e8, mkPiece ROOK BLACK).
  cbn [fst snd]. split; [reflexivity|]. split; [reflexivity|].
  split; [right; split; [vm_compute; auto | auto]|].
  split; [split; [lia|]; split; [reflexivity|]; split; [reflexivity|];
          intros j s' Hj Hr;
          assert (j = 1 \/ j = 2 \/ j = 3)%nat as [->|[->| ->]] by lia;
          injection Hr as <-; reflexivity|].
  split; [split; [lia|]; split; [reflexivity|]; split; [reflexivity|];
          intros j s' Hj Hr;
          assert (j = 1 \/ j = 2)%nat as [->| ->] by lia;
          injection Hr as <-; reflexivity|].
  split; [reflexivity|]. split; [reflexivity|]. split; [reflexivity|].
  reflexivity.
Defined.

Lemma discovery_walk_second (n : nat) b c dx dy f r1 s2 p2 :
  forall cur,
  discovery_walk n b c cur dx dy (Some f) = (r1, Some (s2, p2))
  <-> r1 = Some f
      /\ exists k, (k <= n)%nat /\ first_occupied b cur dx dy k s2 p2
                   /\ color p2 = opposite c.
Proof.
  induction n as [|n IH]; intros cur; simpl.
  - split; [discriminate|]. intros (_ & k & Hk & (Hk1 & _) & _). lia.
  - destruct (offset cur dx dy) as [next|] eqn:E.
    + destruct (get b next) as [piece|] eqn:G.
      * destruct (Color_eqb (color piece) (opposite c)) eqn:C.
        -- apply Color_eqb_eq in C. split.
           ++ intros [= <- <- <-]. split; auto. exists 1%nat. split; [lia|].
              split; auto.
              apply (proj2 (first_occupied_blocked _ _ _ _ _ _ _ _ _ E G)); auto.
           ++ intros (-> & k & Hk & Hfo & _).
              apply (first_occupied_blocked b cur next piece dx dy) in Hfo; auto.
              destruct Hfo as (_ & -> & ->). reflexivity.
        -- split; [discriminate|]. intros (_ & k & Hk & Hfo & C').
           apply (first_occupied_blocked b cur next piece dx dy) in Hfo; auto.
           destruct Hfo as (_ & -> & ->).
           apply Color_eqb_eq in C'. congruence.
      * rewrite IH. split.
        -- intros (-> & k & Hk & Hfo & C). split; auto. exists (S k).
           split; [lia|]. split; auto.
           apply (first_occupied_step b cur next); eauto.
        -- intros (-> & k & Hk & Hfo & C). split; auto.
           apply (first_occupied_step b cur next) in Hfo; auto.
           destruct Hfo as (k' & -> & Hfo). exists k'. split; [lia|]. auto.
    + split; [discriminate|]. intros (_ & k & _ & Hfo & _).
      now apply first_occupied_off_board in Hfo.
Qed.

(** The walk of [find_discoveries] returns a first occupant of the own
    colour and a next occupant of the other colour, and nothing else. *)
Lemma discovery_walk_first (n : nat) b c dx dy s1 p1 s2 p2 :
  forall cur,
  discovery_walk n b c cur dx dy None = (Some (s1, p1), Some (s2, p2))
  <-> exists k1 k2, (k1 + k2 <= n)%nat
                    /\ first_occupied b cur dx dy k1 s1 p1
                    /\ color p1 = c
                    /\ first_occupied b s1 dx dy k2 s2 p2
                    /\ color p2 = opposite c.
Proof.
  induction n as [|n IH]; intros cur; simpl.
  - split; [discriminate|]. intros (k1 & k2 & Hk & (Hk1 & _) & _). lia.
  - destruct (offset cur dx dy) as [next|] eqn:E.
    + destruct (get b next) as [piece|] eqn:G.
      * destruct (Color_eqb (color piece) c) eqn:C.
        -- apply Color_eqb_eq in C. rewrite discovery_walk_second. split.
           ++ intros ([= <- <-] & k & Hk & Hfo & C2). exists 1%nat, k.
              split; [lia|]. split; auto.
              apply (proj2 (first_occupied_blocked _ _ _ _ _ _ _ _ _ E G)); auto.
           ++ intros (k1 & k2 & Hk & Hfo1 & C1 & Hfo2 & C2).
              apply (first_occupied_blocked b cur next piece dx dy) in Hfo1; auto.
              destruct Hfo1 as (-> & -> & ->). split; auto.
              exists k2. split; [lia|]. auto.
        -- split; [discriminate|]. intros (k1 & k2 & Hk & Hfo1 & C1 & _).
           apply (first_occupied_blocked b cur next piece dx dy) in Hfo1; auto.
           destruct Hfo1 as (_ & -> & ->).
           apply Color_eqb_eq in C1. congruence.
      * rewrite IH. split.
        -- intros (k1 & k2 & Hk & Hfo1 & H). exists (S k1), k2.
           split; [lia|]. split; auto.
           apply (first_occupied_step b cur next); eauto.
        -- intros (k1 & k2 & Hk & Hfo1 & H).
           apply (first_occupied_step b cur next) in Hfo1; auto.
           destruct Hfo1 as (k' & -> & Hfo1). exists k', k2. split; [lia|]. auto.
    + split; [discriminate|]. intros (k1 & k2 & _ & Hfo & _).
      now apply first_occupied_off_board in Hfo.
Qed.

Lemma discovery_walk_stable (n : nat) b c dx dy :
  forall cur blocking m, ray (S n) cur dx dy = None -> (n <= m)%nat ->
  discovery_walk m b c cur dx dy blocking = discovery_walk n b c cur dx dy blocking.
Proof.
  induction n as [|n IH]; intros cur blocking m Hr Hm.
  - simpl in Hr. destruct (offset cur dx dy) eqn:E; [discriminate|].
    destruct m; simpl; auto. now rewrite E.
  - destruct m as [|m]; [lia|]. simpl.
    destruct (offset cur dx dy) as [next|] eqn:E; auto.
    change (ray (S (S n)) cur dx dy) with
      (match offset cur dx dy with Some s' => ray (S n) s' dx dy | None => None end) in Hr.
    rewrite E in Hr.
    destruct (get b next) as [p|]; [destruct blocking|]; auto;
      try (destruct (Color_eqb (color p) c); auto);
      apply IH; auto; lia.
Qed.

(** Eight iterations reach the [break] of every discovery walk. *)
Lemma discovery_walk_fuel (m : nat) b c cur dx dy blocking :
  In (dx, dy) QUEEN_DIRECTIONS -> (WALK_FUEL <= m)%nat ->
  discovery_walk m b c cur dx dy blocking
  = discovery_walk WALK_FUEL b c cur dx dy blocking.
Proof.
  intros Hd Hm. apply discovery_walk_stable; auto.
  now apply ray_nine_steps_off_board.
Qed.

Lemma discoveries_along_In b c slider d r :
  In d QUEEN_DIRECTIONS ->
  (In r (discoveries_along b c slider d)
   <-> exists k1 k2 blocking target,
         first_occupied b (fst slider) (fst d) (snd d) k1
                        (fst blocking) (snd blocking)
         /\ color (snd blocking) = c
         /\ first_occupied b (fst blocking) (fst d) (snd d) k2
                           (fst target) (snd target)
         /\ color (snd target) = opposite c
         /\ r = discovery_record slider blocking target).
Proof.
  intros Hd. destruct d as [dx dy]. unfold discoveries_along. cbn [fst snd].
  destruct (discovery_walk WALK_FUEL b c (fst slider) dx dy None)
    as [[[s1 p1]|] [[s2 p2]|]] eqn:W.
  2-4: split; [intros []|];
       intros (k1 & k2 & [s1' p1'] & [s2' p2'] & Hfo1 & C1 & Hfo2 & C2 & _);
       assert (W' : discovery_walk WALK_FUEL b c (fst slider) dx dy None
                    = (Some (s1', p1'), Some (s2', p2')))
         by (apply discovery_walk_first; exists k1, k2; split; auto;
             eapply two_stretches_bound; eauto);
       rewrite W in W'; discriminate.
  apply discovery_walk_first in W.
  destruct W as (k1 & k2 & Hk & Hfo1 & C1 & Hfo2 & C2). split.
  - intros [<-|[]]. exists k1, k2, (s1, p1), (s2, p2). cbn [fst snd]. auto 10.
  - intros (k1' & k2' & [s1' p1'] & [s2' p2'] & Hfo1' & _ & Hfo2' & _ & ->).
    cbn [fst snd] in *.
    destruct (first_occupied_unique _ _ _ _ _ _ _ _ _ _ Hfo1 Hfo1') as (<- & <- & <-).
    destruct (first_occupied_unique _ _ _ _ _ _ _ _ _ _ Hfo2 Hfo2') as (<- & <- & <-).
    now left.
Qed.

Lemma find_discoveries_In b c r :
  In r (find_discoveries b c)
  <-> exists slider d,
        In slider (get_pieces_by_color b c)
        /\ compatible d (piece_type (snd slider))
        /\ In r (discoveries_along b c slider d).
Proof.
  unfold find_discoveries. rewrite in_flat_map. split.
  - intros (sl & Hp & H).
    destruct (type_in (piece_type (snd sl)) [BISHOP; ROOK; QUEEN]) eqn:T;
      cbn [negb] in H; [|inversion H].
    apply in_flat_map in H. destruct H as (d & Hd & H).
    exists sl, d. rewrite <- slider_directions_In. auto.
  - intros (sl & d & Hp & Hd & H). exists sl. split; auto.
    apply slider_directions_In in Hd.
    rewrite (slider_type_compatible d _ Hd). cbn [negb].
    apply in_flat_map. exists d. auto.
Qed.

(** X21 — [find_discoveries].  On a board with distinct keys a record is
    in [find_discoveries b c] exactly when a bishop, rook or queen of colour
    [c], a ray direction compatible with it, the first occupied square of
    that ray holding a piece of colour [c] and the next occupied square beyond
    it holding a piece of the other colour exist; a ray whose first occupant
    is an enemy piece gives nothing. *)
Theorem find_discoveries_spec :
  forall (b : Board) (c : Color),
    dict.wf (pieces b) ->
    forall r,
      In r (find_discoveries b c)
      <-> exists slider d k1 k2 blocking target,
            get b (fst slider) = Some (snd slider)
            /\ color (snd slider) = c
            /\ compatible d (piece_type (snd slider))
            /\ first_occupied b (fst slider) (fst d) (snd d) k1
                              (fst blocking) (snd blocking)
            /\ color (snd blocking) = c
            /\ first_occupied b (fst blocking) (fst d) (snd d) k2
                              (fst target) (snd target)
            /\ color (snd target) = opposite c
            /\ r = discovery_record slider blocking target.
Proof.
  intros b c Hwf r. rewrite find_discoveries_In. split.
  - intros ([os op] & d & Hp & Hc & H).
    apply discoveries_along_In in H; [|eapply compatible_QUEEN; eauto].
    destruct H as (k1 & k2 & blocking & target & H).
    apply get_pieces_by_color_get in Hp; auto.
    exists (os, op), d, k1, k2, blocking, target. cbn [fst snd] in *. intuition.
  - intros ([os op] & d & k1 & k2 & blocking & target & G & C & Hc & H).
    exists (os, op), d. split; [apply get_pieces_by_color_get; auto|].
    split; auto. apply discoveries_along_In; [eapply compatible_QUEEN; eauto|].
    exists k1, k2, blocking, target. exact H.
Qed.

Lemma find_discoveries_spec_witness :
  dict.wf (pieces discovery_board)
  /\ In (discovery_record (e1, mkPiece ROOK WHITE) (e4, mkPiece KNIGHT WHITE)
                          (e8, mkPiece QUEEN BLACK))
        (find_discoveries discovery_board WHITE)
  /\ exists slider d k1 k2 blocking target,
       get discovery_board (fst slider) = Some (snd slider)
       /\ color (snd slider) = WHITE
       /\ compatible d (piece_type (snd slider))
       /\ first_occupied discovery_board (fst slider) (fst d) (snd d) k1
                         (fst blocking) (snd blocking)
       /\ color (snd blocking) = WHITE
       /\ first_occupied discovery_board (fst blocking) (fst d) (snd d) k2
                         (fst target) (snd target)
       /\ color (snd target) = opposite WHITE
       /\ discovery_record (e1, mkPiece ROOK WHITE) (e4, mkPiece KNIGHT WHITE)
                           (e8, mkPiece QUEEN BLACK)
          = discovery_record slider blocking target.
Proof.
  assert (Hwf : dict.wf (pieces discovery_board))
    by (apply distinct_keys_wf; reflexivity).
  assert (Hin : In (discovery_record (e1, mkPiece ROOK WHITE)
                                     (e4, mkPiece KNIGHT WHITE)
                                     (e8, mkPiece QUEEN BLACK))
                   (find_discoveries discovery_board WHITE))
    by (vm_compute; left; reflexivity).
  split; [exact Hwf|]. split; [exact Hin|].
  exact (proj1 (find_discoveries_spec discovery_board WHITE Hwf _) Hin).
Defined.

(* ------------------------------------------------------------------ *)
(** ** The reported patterns are real *)

Lemma get_on_board b s p : keys_on_board b -> get b s = Some p -> on_board s.
Proof.
  intros Hk G. unfold get in G. apply dict_get_In in G.
  unfold on_board. eapply Hk; eauto.
Qed.

Lemma keys_on_board_check (b : Board) :
  forallb (fun kv : Z * Piece => (0 <=? fst kv) && (fst kv <=? 63)) (pieces b) = true ->
  keys_on_board b.
Proof.
  intros H idx p Hin.
  apply (proj1 (forallb_forall _ _) H) in Hin. simpl in Hin.
  apply andb_true_iff in Hin. rewrite !Z.leb_le in Hin. lia.
Defined.

Lemma slider_attacked_from_inv b a p x :
  slider (piece_type p) -> attacked_from b a p x ->
  exists d k, compatible d (piece_type p) /\ (1 <= k)%nat
              /\ ray k a (fst d) (snd d) = Some x
              /\ clear_before b a (fst d) (snd d) k.
Proof.
  unfold attacked_from. intros [T|[T|T]]; rewrite T; auto.
Qed.

(** X22 — a reported pin is a pin.  For every record of [find_pins b c]
    there are a protected piece, a pinned piece and a pinner it is built from
    such that the pinner does not attack the protected piece's square on the
    board as it is, and does attack it once the pinned piece is taken off the
    board. *)
Theorem find_pins_real :
  forall (b : Board) (c : Color) (r : list (string * py.value)),
    dict.wf (pieces b) ->
    In r (find_pins b c) ->
    exists protected first second is_diagonal,
      r = pin_record first second protected is_diagonal
      /\ get b (fst first) = Some (snd first)
      /\ ~ In second (get_attackers b (fst protected) (Some (opposite c)))
      /\ In second (get_attackers (set b (fst first) None) (fst protected)
                                  (Some (opposite c))).
Proof.
  intros b c r Hwf H. apply find_pins_In in H.
  destruct H as (protected & d & Hp & T & Hd & H).
  apply pins_along_In in H; auto.
  destruct H as (k1 & k2 & [s1 p1] & [s2 p2] & Hfo1 & Hfo2 & C1 & C2 & Hc & ->).
  cbn [fst snd] in *.
  exists protected, (s1, p1), (s2, p2), (Z.abs (fst d) =? Z.abs (snd d)).
  cbn [fst snd]. split; [reflexivity|]. split; [apply Hfo1|].
  pose proof (compatible_slider _ _ Hc) as Hs. split.
  - intros Hin. apply get_attackers_slider_In in Hin; auto.
    destruct Hin as (d' & k' & Hd' & Hfo' & _).
    assert (Hr : ray (k1 + k2) (fst protected) (fst d) (snd d) = Some s2).
    { destruct Hfo1 as (_ & Hr1 & _). destruct Hfo2 as (_ & Hr2 & _).
      rewrite ray_add, Hr1. exact Hr2. }
    destruct Hfo' as (Hk' & Hr' & G' & Hclear').
    destruct Hfo1 as (Hk1 & Hr1 & G1 & _). destruct Hfo2 as (Hk2 & _).
    destruct (ray_injective k' (k1 + k2) (fst protected) s2 d' d)
      as [-> ->]; auto; try lia.
    specialize (Hclear' k1 s1 ltac:(lia) Hr1). congruence.
  - apply get_attackers_slider_In; auto.
    exists d, (k1 + k2)%nat. split; auto.
    split; [now apply (first_occupied_lift b _ d k1 k2 s1 p1)|].
    split; auto. right. now rewrite C2.
Qed.

Lemma find_pins_real_witness :
  dict.wf (pieces pin_board)
  /\ In (pin_record (e5, mkPiece KNIGHT BLACK) (e1, mkPiece ROOK WHITE)
                    (e8, mkPiece KING BLACK) false)
        (find_pins pin_board BLACK)
  /\ exists protected first second is_diagonal,
       pin_record (e5, mkPiece KNIGHT BLACK) (e1, mkPiece ROOK WHITE)
                  (e8, mkPiece KING BLACK) false
       = pin_record first second protected is_diagonal
       /\ get pin_board (fst first) = Some (snd first)
       /\ ~ In second (get_attackers pin_board (fst protected) (Some (opposite BLACK)))
       /\ In second (get_attackers (set pin_board (fst first) None) (fst protected)
                                   (Some (opposite BLACK))).
Proof.
  assert (Hwf : dict.wf (pieces pin_board)) by (apply distinct_keys_wf; reflexivity).
  assert (Hin : In (pin_record (e5, mkPiece KNIGHT BLACK) (e1, mkPiece ROOK WHITE)
                               (e8, mkPiece KING BLACK) false)
                   (find_pins pin_board BLACK))
    by (vm_compute; left; reflexivity).
  split; [exact Hwf|]. split; [exact Hin|].
  exact (find_pins_real pin_board BLACK _ Hwf Hin).
Defined.

(** X23 — a reported skewer is a skewer.  On a board whose pieces stand on
    distinct squares of the board, every record of [find_skewers b c] is built
    from an attacking piece, a front piece and a back piece such that the
    attacker is among the attackers of the front piece's square, and is among
    the attackers of the back piece's square once the front piece is taken
    off the board. *)
Theorem find_skewers_real :
  forall (b : Board) (c : Color) (r : list (string * py.value)),
    dict.wf (pieces b) ->
    keys_on_board b ->
    In r (find_skewers b c) ->
    exists our first second,
      r = skewer_record our first second
      /\ In our (get_attackers b (fst first) (Some c))
      /\ In our (get_attackers (set b (fst first) None) (fst second) (Some c)).
Proof.
  intros b c r Hwf Hkeys H. apply find_skewers_In in H.
  destruct H as ([os op] & d & Hp & Hc & H).
  apply skewers_along_In in H; [|eapply compatible_QUEEN; eauto].
  destruct H as (k1 & k2 & [s1 p1] & [s2 p2] & Hfo1 & Hfo2 & _ & _ & _ & ->).
  apply get_pieces_by_color_get in Hp; auto. destruct Hp as [G C].
  cbn [fst snd] in *.
  assert (Ha : on_board os) by (eapply get_on_board; eauto).
  exists (os, op), (s1, p1), (s2, p2). cbn [fst snd].
  split; [reflexivity|]. split.
  - apply attacked_from_found; auto.
    + eapply first_occupied_attacked_from; eauto.
    + right. now rewrite C.
  - rewrite <- C. eapply lifted_attack; eauto.
Qed.

Lemma find_skewers_real_witness :
  dict.wf (pieces skewer_board)
  /\ keys_on_board skewer_board
  /\ In (skewer_record (e1, mkPiece ROOK WHITE) (e5, mkPiece QUEEN BLACK)
                       (e8, mkPiece ROOK BLACK))
        (find_skewers skewer_board WHITE)
  /\ exists our first second,
       skewer_record (e1, mkPiece ROOK WHITE) (e5, mkPiece QUEEN BLACK)
                     (e8, mkPiece ROOK BLACK)
       = skewer_record our first second
       /\ In our (get_attackers skewer_board (fst first) (Some WHITE))
       /\ In our (get_attackers (set skewer_board (fst first) None) (fst second)
                                (Some WHITE)).
Proof.
  assert (Hwf : dict.wf (pieces skewer_board))
    by (apply distinct_keys_wf; reflexivity).
  assert (Hk : keys_on_board skewer_board)
    by (apply keys_on_board_check; reflexivity).
  assert (Hin : In (skewer_record (e1, mkPiece ROOK WHITE) (e5, mkPiece QUEEN BLACK)
                                  (e8, mkPiece ROOK BLACK))
                   (find_skewers skewer_board WHITE))
    by (vm_compute; left; reflexivity).
  split; [exact Hwf|]. split; [exact Hk|]. split; [exact Hin|].
  exact (find_skewers_real skewer_board WHITE _ Hwf Hk Hin).
Defined.

(** X24 — a reported discovery is a discovery.  On a board whose pieces
    stand on distinct squares of the board, every record of
    [find_discoveries b c] is built from a hidden attacker, a blocking piece
    and a target such that the hidden attacker is not among the attackers of
    the target's square on the board as it is, and is among them once the
    blocking piece is taken off the board. *)
Theorem find_discoveries_real :
  forall (b : Board) (c : Color) (r : list (string * py.value)),
    dict.wf (pieces b) ->
    keys_on_board b ->
    In r (find_discoveries b c) ->
    exists slider blocking target,
      r = discovery_record slider blocking target
      /\ ~ In slider (get_attackers b (fst target) (Some c))
      /\ In slider (get_attackers (set b (fst blocking) None) (fst target) (Some c)).
Proof.
  intros b c r Hwf Hkeys H. apply find_discoveries_In in H.
  destruct H as ([os op] & d & Hp & Hc & H).
  pose proof (compatible_QUEEN _ _ Hc) as Hd.
  apply discoveries_along_In in H; auto.
  destruct H as (k1 & k2 & [s1 p1] & [s2 p2] & Hfo1 & _ & Hfo2 & _ & ->).
  apply get_pieces_by_color_get in Hp; auto. destruct Hp as [G C].
  cbn [fst snd] in *.
  assert (Ha : on_board os) by (eapply get_on_board; eauto).
  exists (os, op), (s1, p1), (s2, p2). cbn [fst snd].
  split; [reflexivity|]. split.
  - intros Hin.
    destruct Hfo1 as (Hk1 & Hr1 & G1 & _). destruct Hfo2 as (Hk2 & Hr2 & _).
    assert (Hr : ray (k1 + k2) os (fst d) (snd d) = Some s2)
      by (rewrite ray_add, Hr1; exact Hr2).
    assert (Ht : on_board s2) by (eapply (ray_on_board (k1 + k2)); eauto; lia).
    apply attackers_attacked_from in Hin; auto.
    apply slider_attacked_from_inv in Hin; [|eapply compatible_slider; eauto].
    destruct Hin as (d' & k' & Hc' & Hk' & Hr' & Hclear').
    destruct (ray_injective k' (k1 + k2) os s2 d' d) as [-> ->]; auto; try lia.
    { eapply compatible_QUEEN; eauto. }
    specialize (Hclear' k1 s1 ltac:(lia) Hr1). congruence.
  - rewrite <- C. eapply lifted_attack; eauto.
Qed.

Lemma find_discoveries_real_witness :
  dict.wf (pieces discovery_board)
  /\ keys_on_board discovery_board
  /\ In (discovery_record (e1, mkPiece ROOK WHITE) (e4, mkPiece KNIGHT WHITE)
                          (e8, mkPiece QUEEN BLACK))
        (find_discoveries discovery_board WHITE)
  /\ exists slider blocking target,
       discovery_record (e1, mkPiece ROOK WHITE) (e4, mkPiece KNIGHT WHITE)
                        (e8, mkPiece QUEEN BLACK)
       = discovery_record slider blocking target
       /\ ~ In slider (get_attackers discovery_board (fst target) (Some WHITE))
       /\ In slider (get_attackers (set discovery_board (fst blocking) None)
                                   (fst target) (Some WHITE)).
Proof.
  assert (Hwf : dict.wf (pieces discovery_board))
    by (apply distinct_keys_wf; reflexivity).
  assert (Hk : keys_on_board discovery_board)
    by (apply keys_on_board_check; reflexivity).
  assert (Hin : In (discovery_record (e1, mkPiece ROOK WHITE)
                                     (e4, mkPiece KNIGHT WHITE)
                                     (e8, mkPiece QUEEN BLACK))
                   (find_discoveries discovery_board WHITE))
    by (vm_compute; left; reflexivity).
  split; [exact Hwf|]. split; [exact Hk|]. split; [exact Hin|].
  exact (find_discoveries_real discovery_board WHITE _ Hwf Hk Hin).
Defined.

(* ------------------------------------------------------------------ *)
(** ** Reachable squares *)

Lemma reach_walk_mono (n : nat) b piece dx dy x :
  forall cur acc, In x acc -> In x (reach_walk n b piece cur dx dy acc).
Proof.
  induction n as [|n IH]; intros cur acc H; simpl; auto.
  destruct (offset cur dx dy) as [sq_new|]; auto.
  assert (In x (py.set_add Square_eqb sq_new acc)) by (apply set_add_In; auto).
  destruct (get b sq_new) as [occ|]; auto.
  destruct (negb (Color_eqb (color occ) (color piece))); auto.
Qed.

Lemma reach_walk_iff (n : nat) b piece dx dy x :
  forall cur acc,
  In x (reach_walk n b piece cur dx dy acc)
  <-> In x acc
      \/ exists k, (1 <= k <= n)%nat /\ ray k cur dx dy = Some x
                   /\ clear_before b cur dx dy k
                   /\ forall q, get b x = Some q -> color q <> color piece.
Proof.
  induction n as [|n IH]; intros cur acc; simpl.
  - split; auto. intros [H|(k & Hk & _)]; [exact H | lia].
  - destruct (offset cur dx dy) as [sq_new|] eqn:E.
    + assert (Hone : ray 1 cur dx dy = Some sq_new) by (simpl; now rewrite E).
      destruct (get b sq_new) as [occ|] eqn:G.
      * assert (Hfar : forall k, (1 <= k)%nat -> ray k cur dx dy = Some x ->
                                 clear_before b cur dx dy k -> k = 1%nat /\ x = sq_new).
        { intros k Hk Hr Hc. destruct (Nat.eq_dec k 1) as [->|Hne].
          - rewrite Hone in Hr. injection Hr as <-. auto.
          - specialize (Hc 1%nat sq_new ltac:(lia) Hone). congruence. }
        destruct (Color_eqb (color occ) (color piece)) eqn:C; cbn [negb].
        -- split; auto. intros [H|(k & Hk & Hr & Hc & Hq)]; auto.
           destruct (Hfar k ltac:(lia) Hr Hc) as [-> ->].
           apply Color_eqb_eq in C. exfalso. exact (Hq occ G C).
        -- rewrite set_add_In. split.
           ++ intros [->|H]; auto. right. exists 1%nat.
              split; [lia|]. split; auto. split; [intros j s' Hj; lia|].
              intros q Hq Hcol. rewrite G in Hq. injection Hq as <-.
              apply Color_eqb_eq in Hcol. congruence.
           ++ intros [H|(k & Hk & Hr & Hc & Hq)]; auto.
              destruct (Hfar k ltac:(lia) Hr Hc) as [-> ->]. auto.
      * rewrite IH, set_add_In. split.
        -- intros [[->|H]|(k & Hk & Hr & Hc & Hq)]; auto.
           ++ right. exists 1%nat. split; [lia|]. split; auto.
              split; [intros j s' Hj; lia|]. intros q Hq. congruence.
           ++ right. exists (S k). split; [lia|].
              split; [simpl; now rewrite E|]. split; auto.
              intros j s' Hj Hj'. destruct j as [|j]; [lia|].
              simpl in Hj'. rewrite E in Hj'. destruct j as [|j].
              ** injection Hj' as <-. exact G.
              ** apply (Hc (S j) s'); auto. lia.
        -- intros [H|(k & Hk & Hr & Hc & Hq)]; auto.
           destruct k as [|k]; [lia|]. simpl in Hr. rewrite E in Hr.
           destruct k as [|k].
           ++ injection Hr as ->. auto.
           ++ right. exists (S k). split; [lia|]. split; auto. split; auto.
              intros j s' Hj Hj'. apply (Hc (S j) s'); [lia|].
              simpl. now rewrite E.
    + split; auto. intros [H|(k & Hk & Hr & _)]; auto.
      destruct k as [|k]; [lia|]. simpl in Hr. now rewrite E in Hr.
Qed.

Lemma reach_rays_iff b piece from_sq directions x :
  (forall d, In d directions -> In d QUEEN_DIRECTIONS) ->
  forall acc,
  In x (fold_left (fun acc (d : Z * Z) =>
                     let (dx, dy) := d in
                     reach_walk WALK_FUEL b piece from_sq dx dy acc)
                  directions acc)
  <-> In x acc
      \/ exists d k, In d directions /\ (1 <= k)%nat
                     /\ ray k from_sq (fst d) (snd d) = Some x
                     /\ clear_before b from_sq (fst d) (snd d) k
                     /\ forall q, get b x = Some q -> color q <> color piece.
Proof.
  intros Hsub. induction directions as [|[dx dy] ds IH]; intros acc; cbn [fold_left].
  - split; auto. intros [H|(d & k & [] & _)]. exact H.
  - rewrite IH by (intros; apply Hsub; now right). rewrite reach_walk_iff. split.
    + intros [[H|(k & Hk & H)]|(d & k & Hd & H)]; auto.
      * right. exists (dx, dy), k. split; [now left|]. split; [lia | exact H].
      * right. exists d, k. split; [now right | exact H].
    + intros [H|(d & k & [<-|Hd] & Hk & Hr & H)]; auto.
      * left. right. exists k. split; auto. split; auto.
        apply (ray_bound k from_sq x dx dy); auto. apply Hsub. now left.
      * right. exists d, k. auto.
Qed.

(** X25 — reachable and attacked squares of a piece other than a pawn.
    For a knight or a king [get_reachable_squares] returns the squares
    [get_attacked_by_piece] returns, whoever stands on them; for a bishop,
    rook or queen it returns the attacked squares that do not hold a piece of
    the mover's colour. *)
Theorem get_reachable_squares_spec :
  forall (b : Board) (from_sq : Square) (piece : Piece) (x : Square),
    piece_type piece <> PAWN ->
    (In x (get_reachable_squares b from_sq piece)
     <-> In x (get_attacked_by_piece b from_sq piece)
         /\ (slider (piece_type piece) ->
             forall q, get b x = Some q -> color q <> color piece)).
Proof.
  intros b from_sq piece x Hnp.
  assert (Hsl : forall t, t = piece_type piece -> slider t ->
    (In x (get_reachable_squares b from_sq piece)
     <-> In x (get_attacked_by_piece b from_sq piece)
         /\ forall q, get b x = Some q -> color q <> color piece)).
  { intros t -> Hs. rewrite get_attacked_by_piece_In.
    assert (E : get_reachable_squares b from_sq piece
                = fold_left (fun acc (d : Z * Z) =>
                               let (dx, dy) := d in
                               reach_walk WALK_FUEL b piece from_sq dx dy acc)
                            (slider_directions (piece_type piece)) []).
    { unfold get_reachable_squares. destruct Hs as [T|[T|T]]; rewrite T; reflexivity. }
    rewrite E, (reach_rays_iff _ _ _ _ _ (fun d => slider_directions_QUEEN d _)).
    split.
    - intros [[]|(d & k & Hd & Hk & Hr & Hc & Hq)]. split; auto.
      apply slider_directions_In in Hd.
      unfold attacked_from. destruct Hs as [T|[T|T]]; rewrite T in *;
        exists d, k; auto.
    - intros [Ha Hq]. apply slider_attacked_from_inv in Ha; auto.
      destruct Ha as (d & k & Hd & Hk & Hr & Hc).
      right. exists d, k. rewrite slider_directions_In. auto. }
  destruct (piece_type piece) eqn:T; try contradiction.
  - unfold get_reachable_squares, get_attacked_by_piece. rewrite T. simpl type_in.
    cbv iota. unfold slider. split; [intros H; split; auto; intuition discriminate | tauto].
  - rewrite (Hsl BISHOP eq_refl) by (unfold slider; auto). unfold slider. intuition.
  - rewrite (Hsl ROOK eq_refl) by (unfold slider; auto). unfold slider. intuition.
  - rewrite (Hsl QUEEN eq_refl) by (unfold slider; auto). unfold slider. intuition.
  - unfold get_reachable_squares, get_attacked_by_piece. rewrite T. simpl type_in.
    cbv iota. unfold slider. split; [intros H; split; auto; intuition discriminate | tauto].
Qed.

Lemma get_reachable_squares_spec_witness :
  piece_type (mkPiece ROOK WHITE) <> PAWN
  /\ In e5 (get_attacked_by_piece pin_board e1 (mkPiece ROOK WHITE))
  /\ In e5 (get_reachable_squares pin_board e1 (mkPiece ROOK WHITE)).
Proof.
  assert (Hn : piece_type (mkPiece ROOK WHITE) <> PAWN) by discriminate.
  assert (Ha : In e5 (get_attacked_by_piece pin_board e1 (mkPiece ROOK WHITE)))
    by (vm_compute; auto 10).
  split; [exact Hn|]. split; [exact Ha|].
  apply (proj2 (get_reachable_squares_spec pin_board e1 (mkPiece ROOK WHITE) e5 Hn)).
  split; [exact Ha|]. intros _ q Hq. injection Hq as <-. discriminate.
Defined.

Lemma is_empty_get b s : is_empty b s = true <-> get b s = None.
Proof.
  unfold is_empty, dict.contains, get.
  destruct (dict.get (pieces b) (index s)); simpl; split; congruence.
Qed.

Lemma pawn_captures_In b piece from_sq direction x :
  forall acc,
  In x (fold_left (fun acc (file_dir : Z) =>
                     match offset from_sq file_dir direction with
                     | Some sq_cap =>
                         match get b sq_cap with
                         | Some target =>
                             if negb (Color_eqb (color target) (color piece))
                             then py.set_add Square_eqb sq_cap acc
                             else acc
                         | None => acc
                         end
                     | None => acc
                     end) [-1; 1] acc)
  <-> In x acc
      \/ exists file_dir, (file_dir = -1 \/ file_dir = 1)
                          /\ offset from_sq file_dir direction = Some x
                          /\ exists q, get b x = Some q /\ color q <> color piece.
Proof.
  assert (Step : forall fd acc,
             In x (match offset from_sq fd direction with
                   | Some sq_cap =>
                       match get b sq_cap with
                       | Some target =>
                           if negb (Color_eqb (color target) (color piece))
                           then py.set_add Square_eqb sq_cap acc
                           else acc
                       | None => acc
                       end
                   | None => acc
                   end)
             <-> In x acc
                 \/ (offset from_sq fd direction = Some x
                     /\ exists q, get b x = Some q /\ color q <> color piece)).
  { intros fd acc. destruct (offset from_sq fd direction) as [sq_cap|] eqn:E.
    - destruct (get b sq_cap) as [target|] eqn:G.
      + destruct (Color_eqb (color target) (color piece)) eqn:C; cbn [negb].
        * apply Color_eqb_eq in C. split; auto.
          intros [H|([= ->] & q & Hq & Hc)]; auto. congruence.
        * rewrite set_add_In. split.
          -- intros [->|H]; auto. right. split; auto. exists target. split; auto.
             intros Hc. apply Color_eqb_eq in Hc. congruence.
          -- intros [H|([= ->] & _)]; auto.
      + split; auto. intros [H|([= ->] & q & Hq & _)]; auto. congruence.
    - split; auto. intros [H|(H & _)]; auto. discriminate. }
  intros acc. cbn [fold_left]. rewrite !Step. split.
  - intros [[H|H]|H]; auto.
    + right. exists (-1). tauto.
    + right. exists 1. tauto.
  - intros [H|(fd & [->| ->] & H)]; auto.
Qed.

(** X26 — squares a pawn can reach.  A pawn reaches the square in front of
    it only if that square is empty, the square two ranks ahead only from its
    starting rank and if both squares are empty, and a square diagonally in
    front only if it holds a piece of the other colour; nothing else. *)
Theorem pawn_reachable_spec :
  forall (b : Board) (from_sq : Square) (piece : Piece) (x : Square),
    piece_type piece = PAWN ->
    (In x (get_reachable_squares b from_sq piece)
     <-> (offset from_sq 0 (pawn_forward (color piece)) = Some x /\ get b x = None)
         \/ (rank from_sq = match color piece with WHITE => 1 | BLACK => 6 end
             /\ (exists m, offset from_sq 0 (pawn_forward (color piece)) = Some m
                           /\ get b m = None)
             /\ offset from_sq 0 (pawn_forward (color piece) * 2) = Some x
             /\ get b x = None)
         \/ (exists file_dir, (file_dir = -1 \/ file_dir = 1)
                              /\ offset from_sq file_dir (pawn_forward (color piece))
                                 = Some x
                              /\ exists q, get b x = Some q
                                           /\ color q <> color piece)).
Proof.
  intros b from_sq piece x T. unfold get_reachable_squares. rewrite T.
  cbv zeta. rewrite pawn_forward_eq. rewrite pawn_captures_In.
  set (dir := pawn_forward (color piece)).
  assert (Hstart : (Color_eqb (color piece) WHITE && (rank from_sq =? 1))
                   || (Color_eqb (color piece) BLACK && (rank from_sq =? 6)) = true
                   <-> rank from_sq = match color piece with WHITE => 1 | BLACK => 6 end).
  { destruct (color piece); simpl; rewrite ?orb_false_r, Z.eqb_eq; tauto. }
  assert (Hpush :
    In x (match offset from_sq 0 dir with
          | Some sq_new =>
              if is_empty b sq_new then
                if (Color_eqb (color piece) WHITE && (rank from_sq =? 1))
                   || (Color_eqb (color piece) BLACK && (rank from_sq =? 6))
                then
                  match offset from_sq 0 (dir * 2) with
                  | Some sq_new2 =>
                      if is_empty b sq_new2
                      then py.set_add Square_eqb sq_new2
                                      (py.set_add Square_eqb sq_new [])
                      else py.set_add Square_eqb sq_new []
                  | None => py.set_add Square_eqb sq_new []
                  end
                else py.set_add Square_eqb sq_new []
              else []
          | None => []
          end)
    <-> (offset from_sq 0 dir = Some x /\ get b x = None)
        \/ (rank from_sq = match color piece with WHITE => 1 | BLACK => 6 end
            /\ (exists m, offset from_sq 0 dir = Some m /\ get b m = None)
            /\ offset from_sq 0 (dir * 2) = Some x /\ get b x = None)).
  { destruct (offset from_sq 0 dir) as [m|] eqn:E1.
    - destruct (is_empty b m) eqn:Em.
      + apply is_empty_get in Em.
        destruct ((Color_eqb (color piece) WHITE && (rank from_sq =? 1))
                  || (Color_eqb (color piece) BLACK && (rank from_sq =? 6))) eqn:S.
        * pose proof (proj1 Hstart eq_refl) as S'.
          destruct (offset from_sq 0 (dir * 2)) as [m2|] eqn:E2.
          -- destruct (is_empty b m2) eqn:Em2.
             ++ apply is_empty_get in Em2. rewrite !set_add_In. simpl. split.
                ** intros [->|[->|[]]]; [right | left]; eauto 10.
                ** intros [([= ->] & _)|(_ & _ & [= ->] & _)]; auto.
             ++ rewrite set_add_In. simpl. split.
                ** intros [->|[]]. left. auto.
                ** intros [([= ->] & _)|(_ & _ & [= ->] & G)]; auto.
                   apply is_empty_get in G. congruence.
          -- rewrite set_add_In. simpl. split.
             ++ intros [->|[]]. left. auto.
             ++ intros [([= ->] & _)|(_ & _ & H & _)]; auto. discriminate.
        * rewrite set_add_In. simpl. split.
          -- intros [->|[]]. left. auto.
          -- intros [([= ->] & _)|(R & _)]; auto.
             apply (proj2 Hstart) in R. congruence.
      + simpl. split; [tauto|].
        intros [([= ->] & G)|(_ & (m' & [= <-] & G) & _)];
          apply is_empty_get in G; congruence.
    - simpl. split; [tauto|].
      intros [(H & _)|(_ & (m' & H & _) & _)]; discriminate. }
  rewrite Hpush. tauto.
Qed.

Lemma pawn_reachable_spec_witness :
  piece_type (mkPiece PAWN WHITE) = PAWN
  /\ In d5 (get_reachable_squares count_only_board e4 (mkPiece PAWN WHITE))
  /\ In e5 (get_reachable_squares count_only_board e4 (mkPiece PAWN WHITE)).
Proof.
  split; [reflexivity|]. split.
  - apply (proj2 (pawn_reachable_spec count_only_board e4 (mkPiece PAWN WHITE) d5
                                      eq_refl)).
    right. right. exists (-1). split; [auto|]. split; [reflexivity|].
    exists (mkPiece PAWN BLACK). split; [reflexivity | discriminate].
  - apply (proj2 (pawn_reachable_spec count_only_board e4 (mkPiece PAWN WHITE) e5
                                      eq_refl)).
    left. split; reflexivity.
Defined.

(* ------------------------------------------------------------------ *)
(** ** More on the simulated move *)

Lemma moved_wf d from_sq to_sq : dict.wf d -> dict.wf (moved d from_sq to_sq).
Proof.
  intros Hwf. unfold moved. destruct (dict.get d (index from_sq)).
  - apply dict_wf_setitem. now apply dict_wf_remove.
  - now apply dict_wf_remove.
Qed.

Lemma moved_get_other d from_sq to_sq k :
  dict.wf d -> k <> index from_sq -> k <> index to_sq ->
  dict.get (moved d from_sq to_sq) k = dict.get d k.
Proof.
  intros Hwf H1 H2. unfold moved. destruct (dict.get d (index from_sq)).
  - rewrite dict_get_setitem_other by congruence.
    apply dict_get_remove_other. congruence.
  - apply dict_get_remove_other. congruence.
Qed.

Lemma moved_nothing d from_sq to_sq k :
  dict.wf d -> dict.get d (index from_sq) = None ->
  dict.get (moved d from_sq to_sq) k = dict.get d k.
Proof.
  intros Hwf G. unfold moved. rewrite G.
  rewrite (dict_get_remove d (index from_sq) k Hwf).
  destruct (k =? index from_sq) eqn:E; auto.
  apply Z.eqb_eq in E. now rewrite E, G.
Qed.

(** X27 — what [simulate_move] keeps and changes.  The new board has the
    side to move flipped and the en-passant square cleared; castling rights
    and both move counters are copied unchanged (the counters are not
    advanced); every square other than the source and the destination holds
    what it held; and when the source square is empty no piece moves at
    all. *)
Theorem simulate_move_frame :
  forall (h : Heap) (r : nat) (from_sq to_sq : Square) (b : Board),
    load r h = Some (b, h) ->
    dict.wf (pieces b) ->
    exists h' after,
      analyze_move.simulate_move r from_sq to_sq h = Some (List.length (boards h), h')
      /\ load (List.length (boards h)) h' = Some (after, h')
      /\ dict.wf (pieces after)
      /\ turn after = opposite (turn b)
      /\ en_passant after = None
      /\ castling_rights after = castling_rights b
      /\ halfmove_clock after = halfmove_clock b
      /\ fullmove_number after = fullmove_number b
      /\ (forall s, index s <> index from_sq -> index s <> index to_sq ->
                    get after s = get b s)
      /\ (get b from_sq = None -> forall s, get after s = get b s).
Proof.
  intros h r from_sq to_sq b Hload Hwf.
  apply load_inv in Hload. destruct Hload as (_ & o & d & Hr & Hd & ->).
  exists (heap_after h o d from_sq to_sq), (successor (snapshot o d) from_sq to_sq).
  split; [now apply simulate_move_run|]. split; [apply load_new_after|].
  cbn [pieces successor snapshot turn en_passant castling_rights
       halfmove_clock fullmove_number] in *.
  split; [now apply moved_wf|]. repeat (split; [reflexivity|]). split.
  - intros s H1 H2. unfold get. cbn [pieces successor snapshot].
    now apply moved_get_other.
  - intros G s. unfold get in *. cbn [pieces successor snapshot] in *.
    now apply moved_nothing.
Qed.

Lemma simulate_move_frame_witness :
  load 0 (analyze_move.heap_of capture_board)
  = Some (capture_board, analyze_move.heap_of capture_board)
  /\ dict.wf (pieces capture_board)
  /\ exists h' after,
       analyze_move.simulate_move 0 f3 e5 (analyze_move.heap_of capture_board)
       = Some (1%nat, h')
       /\ load 1 h' = Some (after, h')
       /\ turn after = BLACK
       /\ fullmove_number after = 3
       /\ get after e1 = get capture_board e1.
Proof.
  assert (Hload : load 0 (analyze_move.heap_of capture_board)
                  = Some (capture_board, analyze_move.heap_of capture_board))
    by reflexivity.
  assert (Hwf : dict.wf (pieces capture_board))
    by (apply distinct_keys_wf; reflexivity).
  split; [exact Hload|]. split; [exact Hwf|].
  destruct (simulate_move_frame (analyze_move.heap_of capture_board) 0 f3 e5
              capture_board Hload Hwf)
    as (h' & after & Hs & Hl & _ & Ht & _ & _ & _ & Hf & Hother & _).
  exists h', after. split; [exact Hs|]. split; [exact Hl|].
  split; [exact Ht|]. split; [exact Hf|].
  apply Hother; discriminate.
Defined.

Lemma get_attackers_holds b target by_color s q :
  In (s, q) (get_attackers b target by_color) -> get b s = Some q.
Proof.
  intros Hq. unfold get_attackers in Hq. rewrite !in_app_iff in Hq.
  rewrite knight_attackers_In, king_attackers_In, pawn_attackers_In in Hq.
  rewrite (check_sliding_In _ _ _ _ _ _ _ BISHOP_in_QUEEN) in Hq.
  rewrite (check_sliding_In _ _ _ _ _ _ _ ROOK_in_QUEEN) in Hq.
  destruct Hq as [(off & _ & _ & G & _)|[(off & _ & _ & G & _)
                 |[(fd & _ & _ & G & _)
                 |[(d & k & _ & (_ & _ & G & _) & _)
                  |(d & k & _ & (_ & _ & G & _) & _)]]]]; exact G.
Qed.

(** X28 — pieces reported as left hanging.  When the source square holds
    [piece], every entry of the [pieces_left_hanging] loop of [analyze_move]
    is a piece of the mover's colour on another square that had the moving
    piece among its defenders before the move and is hanging on the successor
    board. *)
Theorem left_hanging_sound :
  forall (b : Board) (from_sq to_sq : Square) (piece : Piece) (s : Square) (p : Piece),
    dict.wf (pieces b) ->
    get b from_sq = Some piece ->
    In (s, p) (analyze_move.left_hanging b (successor b from_sq to_sq) from_sq
                                         (color piece)) ->
    get b s = Some p
    /\ color p = color piece
    /\ s <> from_sq
    /\ In (from_sq, piece) (get_defenders b s)
    /\ is_hanging (successor b from_sq to_sq) s = true.
Proof.
  intros b from_sq to_sq piece s p Hwf G H.
  unfold analyze_move.left_hanging, dict.items in H.
  apply in_flat_map in H. destruct H as ([idx p0] & Hin & H).
  destruct (Color_eqb (color p0) (color piece) && negb (idx =? index from_sq)) eqn:C;
    [|inversion H].
  apply andb_true_iff in C. destruct C as [C Hne].
  apply Color_eqb_eq in C. apply negb_true_iff, Z.eqb_neq in Hne.
  destruct (analyze_move.any_at from_sq (get_defenders b (mkSquare idx))) eqn:A;
    [|inversion H].
  destruct ((py.len (get_attackers (successor b from_sq to_sq) (mkSquare idx)
                                   (Some (opposite (color piece)))) >? 0)
            && (py.len (get_defenders (successor b from_sq to_sq) (mkSquare idx)) =? 0))
    eqn:Hh; [|inversion H].
  destruct H as [H|[]]. injection H as <- <-.
  assert (Gs : get b (mkSquare idx) = Some p0)
    by (unfold get; simpl; now apply dict_In_get).
  split; [exact Gs|]. split; [exact C|].
  split; [intros E; apply Hne; now rewrite <- E|]. split.
  - unfold analyze_move.any_at in A. apply existsb_exists in A.
    destruct A as ([s' q] & Hd & E). cbn [fst] in E. apply Z.eqb_eq in E.
    apply Square_eq in E. subst s'.
    assert (q = piece) as ->; [|exact Hd].
    unfold get_defenders in Hd. rewrite Gs in Hd.
    apply get_attackers_holds in Hd. congruence.
  - assert (Ga : exists q, get (successor b from_sq to_sq) (mkSquare idx) = Some q
                           /\ color q = color piece).
    { unfold get in *. cbn [pieces successor index] in *.
      destruct (Z.eq_dec idx (index to_sq)) as [->|Hto].
      - exists piece. split; auto. now apply moved_get_to.
      - exists p0. split; auto. rewrite moved_get_other; auto. }
    destruct Ga as (q & Gq & Cq).
    unfold is_hanging. rewrite Gq. cbv zeta. rewrite Cq. exact Hh.
Qed.

Lemma left_hanging_sound_witness :
  dict.wf (pieces guard_board)
  /\ get guard_board e1 = Some (mkPiece KING WHITE)
  /\ In (mkSquare 12, mkPiece PAWN WHITE)
        (analyze_move.left_hanging guard_board
                                   (successor guard_board e1 (mkSquare 2)) e1 WHITE)
  /\ is_hanging (successor guard_board e1 (mkSquare 2)) (mkSquare 12) = true.
Proof.
  pose (b := guard_board).
  assert (Hwf : dict.wf (pieces b)) by (apply distinct_keys_wf; reflexivity).
  assert (Hin : In (mkSquare 12, mkPiece PAWN WHITE)
                   (analyze_move.left_hanging b (successor b e1 (mkSquare 2)) e1
                                              (color (mkPiece KING WHITE))))
    by (vm_compute; auto).
  split; [exact Hwf|]. split; [reflexivity|]. split; [exact Hin|].
  exact (proj2 (proj2 (proj2 (proj2
           (left_hanging_sound b e1 (mkSquare 2) (mkPiece KING WHITE)
                               (mkSquare 12) (mkPiece PAWN WHITE)
                               Hwf eq_refl Hin))))).
Defined.

(* ------------------------------------------------------------------ *)
(** ** Decimal numerals: [int(str(n))] *)

Lemma int_digits_uint (d : Decimal.uint) :
  forall prev acc,
    d <> Nil \/ prev = true ->
    py.int_digits (NilEmpty.string_of_uint d) prev acc = Some (acc_val d acc).
Proof.
  induction d; intros prev acc H;
    try (cbn [NilEmpty.string_of_uint py.int_digits acc_val];
         change (py.isdigit _) with true; cbv iota;
         apply IHd; right; reflexivity).
  destruct H as [H | ->]; [congruence | reflexivity].
Qed.

Lemma acc_val_pos (d : Decimal.uint) :
  forall acc : positive, acc_val d (Z.pos acc) = Z.pos (Pos.of_uint_acc d acc).
Proof.
  induction d; intros acc; cbn [acc_val Pos.of_uint_acc]; try reflexivity;
    rewrite <- IHd; f_equal; lia.
Qed.

Lemma acc_val_zero (d : Decimal.uint) : acc_val d 0 = Z.of_N (Pos.of_uint d).
Proof.
  induction d; cbn [acc_val Pos.of_uint]; try reflexivity;
    try (exact IHd);
    change (10 * 0 + _) with (Z.pos 1) || change (10 * 0 + _) with (Z.pos 2)
    || change (10 * 0 + _) with (Z.pos 3) || change (10 * 0 + _) with (Z.pos 4)
    || change (10 * 0 + _) with (Z.pos 5) || change (10 * 0 + _) with (Z.pos 6)
    || change (10 * 0 + _) with (Z.pos 7) || change (10 * 0 + _) with (Z.pos 8)
    || change (10 * 0 + _) with (Z.pos 9);
    apply acc_val_pos.
Qed.

Lemma int_digits_to_uint (p : positive) :
  py.int_digits (NilEmpty.string_of_uint (Pos.to_uint p)) false 0 = Some (Z.pos p).
Proof.
  rewrite int_digits_uint by (left; apply Unsigned.to_uint_nonnil).
  rewrite acc_val_zero, Unsigned.of_to. reflexivity.
Qed.

Lemma string_of_uint_nonnil (d : Decimal.uint) :
  d <> Nil -> NilZero.string_of_uint d = NilEmpty.string_of_uint d.
Proof. destruct d; intros H; try reflexivity. congruence. Qed.

Lemma int_unsigned (d : Decimal.uint) :
  d <> Nil ->
  py.int (NilEmpty.string_of_uint d) = py.int_digits (NilEmpty.string_of_uint d) false 0.
Proof. destruct d; intros H; try reflexivity. Qed.

(** [int(str(n)) == n] for every integer. *)
Lemma int_str_of_int (n : Z) : py.int (py.str_of_int n) = Some n.
Proof.
  destruct n as [|p|p]; [reflexivity| |].
  - unfold py.str_of_int. cbn [Z.to_int NilZero.string_of_int].
    pose proof (Unsigned.to_uint_nonnil p) as H.
    rewrite string_of_uint_nonnil, int_unsigned by exact H.
    apply int_digits_to_uint.
  - unfold py.str_of_int. cbn [Z.to_int NilZero.string_of_int].
    pose proof (Unsigned.to_uint_nonnil p) as H.
    rewrite string_of_uint_nonnil by exact H.
    cbn [py.int]. rewrite int_digits_to_uint. reflexivity.
Qed.

(* ------------------------------------------------------------------ *)
(** ** FEN: writing a position and reading it back *)

Lemma append_empty_r (s : string) : String.append s "" = s.
Proof. induction s as [|c s IH]; simpl; [reflexivity | now rewrite IH]. Qed.

Lemma append_str1 (cur w : string) (c : ascii) :
  String.append (String.append cur (py.str1 c)) w = String.append cur (String c w).
Proof. induction cur as [|a cur IH]; simpl; [reflexivity | now rewrite IH]. Qed.

Lemma append_nonempty (s t : string) : s <> "" -> String.append s t <> "".
Proof. destruct s; simpl; congruence. Qed.

Lemma nospace_app (s t : string) :
  nospace (String.append s t) = nospace s && nospace t.
Proof.
  induction s as [|c s IH]; simpl; [reflexivity|].
  rewrite IH. now rewrite andb_assoc.
Qed.

Lemma split_aux_word (w : string) : forall rest cur,
  nospace w = true ->
  py.split_aux (String.append w rest) cur = py.split_aux rest (String.append cur w).
Proof.
  induction w as [|c w IH]; intros rest cur H.
  - now rewrite append_empty_r.
  - cbn [nospace] in H. apply andb_true_iff in H. destruct H as [Hc Hw].
    apply negb_true_iff in Hc.
    cbn [String.append py.split_aux]. rewrite Hc.
    rewrite IH by exact Hw. now rewrite append_str1.
Qed.

Lemma split_aux_field (w rest : string) :
  w <> "" -> nospace w = true ->
  py.split_aux (String.append w (String " " rest)) ""
  = w :: py.split_aux rest "".
Proof.
  intros Hne H. rewrite split_aux_word by exact H.
  cbn [String.append]. destruct w; [congruence | reflexivity].
Qed.

Lemma split_aux_last (w : string) :
  w <> "" -> nospace w = true -> py.split_aux w "" = [w].
Proof.
  intros Hne H. rewrite <- (append_empty_r w) at 1.
  rewrite split_aux_word by exact H.
  cbn [String.append]. destruct w; [congruence | reflexivity].
Qed.

Lemma nospace_uint (d : Decimal.uint) : nospace (NilEmpty.string_of_uint d) = true.
Proof. induction d; cbn [NilEmpty.string_of_uint nospace]; auto. Qed.

Lemma uint_nonempty (d : Decimal.uint) :
  d <> Nil -> NilEmpty.string_of_uint d <> "".
Proof. destruct d; simpl; congruence. Qed.

Lemma str_of_int_token (n : Z) :
  py.str_of_int n <> "" /\ nospace (py.str_of_int n) = true.
Proof.
  destruct n as [|p|p]; [split; [discriminate | reflexivity]| |];
    unfold py.str_of_int; cbn [Z.to_int NilZero.string_of_int];
    pose proof (Unsigned.to_uint_nonnil p) as H;
    rewrite string_of_uint_nonnil by exact H.
  - split; [now apply uint_nonempty | apply nospace_uint].
  - split; [discriminate|]. cbn [nospace]. now rewrite nospace_uint.
Qed.

Lemma place_char_space (st : dict.t Piece * Z * Z) (c : ascii) :
  py.isspace c = true -> place_char st c = None.
Proof.
  destruct st as [[d r] f].
  destruct c as [[] [] [] [] [] [] [] []]; intros H;
    solve [discriminate H | reflexivity].
Qed.

Lemma place_all_nospace (s : string) : forall st st',
  place_all s st = Some st' -> nospace s = true.
Proof.
  induction s as [|c s IH]; intros st st' H; [reflexivity|].
  cbn [place_all] in H. cbn [nospace].
  destruct (py.isspace c) eqn:E.
  - now rewrite place_char_space in H.
  - destruct (place_char st c) as [st1|]; [|discriminate].
    simpl. eapply IH; eauto.
Qed.

Lemma place_all_app (s t : string) : forall st,
  place_all (String.append s t) st
  = match place_all s st with Some st' => place_all t st' | None => None end.
Proof.
  induction s as [|c s IH]; intros st; cbn [String.append place_all]; [reflexivity|].
  destruct (place_char st c); [apply IH | reflexivity].
Qed.

Lemma place_all_count (n : Z) (d : dict.t Piece) (r f : Z) :
  1 <= n <= 8 -> place_all (py.str_of_int n) (d, r, f) = Some (d, r, f + n).
Proof.
  intros H.
  assert (E : n = 1 \/ n = 2 \/ n = 3 \/ n = 4 \/ n = 5 \/ n = 6 \/ n = 7 \/ n = 8)
    by lia.
  repeat (destruct E as [-> | E]; [reflexivity|]). subst n. reflexivity.
Qed.

Lemma place_all_piece (p : Piece) (d : dict.t Piece) (r f : Z) :
  place_all (Piece_str p) (d, r, f) = Some (dict.setitem d (r * 8 + f) p, r, f + 1).
Proof. destruct p as [[] []]; reflexivity. Qed.

Lemma place_all_slash (s : string) (d : dict.t Piece) (r f : Z) :
  place_all (String "/" s) (d, r, f) = place_all s (d, r - 1, 0).
Proof. reflexivity. Qed.

Lemma fen_done_spec (r f i : Z) :
  fen_done r f i = true
  <-> (r * 8 + 8 <= i <= 63) \/ (r * 8 <= i < r * 8 + f).
Proof.
  unfold fen_done. rewrite orb_true_iff, !andb_true_iff, !Z.leb_le, Z.ltb_lt.
  tauto.
Qed.

Lemma fen_done_eq (r f r' f' i : Z) :
  ((r * 8 + 8 <= i <= 63) \/ (r * 8 <= i < r * 8 + f)
   <-> (r' * 8 + 8 <= i <= 63) \/ (r' * 8 <= i < r' * 8 + f')) ->
  fen_done r f i = fen_done r' f' i.
Proof.
  intros H. apply eq_iff_eq_true. now rewrite !fen_done_spec.
Qed.

Lemma fen_inv_put (b : Board) (r f : Z) (d : dict.t Piece) (p : Piece) :
  0 <= r <= 7 -> 0 <= f <= 7 ->
  dict.get (pieces b) (r * 8 + f) = Some p ->
  fen_inv b r f d -> fen_inv b r (f + 1) (dict.setitem d (r * 8 + f) p).
Proof.
  intros Hr Hf G H i. destruct (Z.eq_dec (r * 8 + f) i) as [<- | Hne].
  - rewrite dict_get_setitem_same.
    replace (fen_done r (f + 1) (r * 8 + f)) with true
      by (symmetry; apply fen_done_spec; lia).
    now rewrite G.
  - rewrite dict_get_setitem_other by exact Hne. rewrite H.
    rewrite (fen_done_eq r f r (f + 1) i); [reflexivity | lia].
Qed.

Lemma fen_inv_skip (b : Board) (r f : Z) (d : dict.t Piece) :
  0 <= r <= 7 -> 0 <= f <= 7 ->
  dict.get (pieces b) (r * 8 + f) = None ->
  fen_inv b r f d -> fen_inv b r (f + 1) d.
Proof.
  intros Hr Hf G H i. rewrite H.
  destruct (Z.eq_dec (r * 8 + f) i) as [<- | Hne].
  - rewrite G. now destruct (fen_done _ _ _), (fen_done _ _ _).
  - rewrite (fen_done_eq r f r (f + 1) i); [reflexivity | lia].
Qed.

Lemma fen_inv_next (b : Board) (r : Z) (d : dict.t Piece) :
  r <= 7 -> fen_inv b r 8 d -> fen_inv b (r - 1) 0 d.
Proof.
  intros Hr H i. rewrite H.
  rewrite (fen_done_eq r 8 (r - 1) 0 i); [reflexivity | lia].
Qed.

Lemma fen_inv_init (b : Board) : fen_inv b 7 0 dict.empty.
Proof.
  intros i. replace (fen_done 7 0 i) with false; [reflexivity|].
  symmetry. apply not_true_is_false. rewrite fen_done_spec. lia.
Qed.

Lemma fen_file_some (b : Board) (r f ec : Z) (row : string) (p : Piece) :
  dict.get (pieces b) (r * 8 + f) = Some p ->
  fen_file b r (row, ec) f
  = (String.append (if ec >? 0 then String.append row (py.str_of_int ec) else row)
                   (Piece_str p), 0).
Proof. unfold fen_file. now intros ->. Qed.

Lemma fen_file_none (b : Board) (r f ec : Z) (row : string) :
  dict.get (pieces b) (r * 8 + f) = None ->
  fen_file b r (row, ec) f = (row, ec + 1).
Proof. unfold fen_file. now intros ->. Qed.

(** The inner loop of [to_fen] from file [f] on: what has been written is
    read back by the placement loop of [from_fen], up to the run of empty
    squares not yet written. *)
Lemma fen_row_fold (b : Board) (r : Z) (d0 : dict.t Piece) (n : nat) :
  0 <= r <= 7 ->
  forall f row ec d,
    0 <= ec <= f -> f + Z.of_nat n = 8 ->
    place_all row (d0, r, 0) = Some (d, r, f - ec) ->
    fen_inv b r f d ->
    exists d',
      place_all (fst (fold_left (fen_file b r) (zrange f n) (row, ec))) (d0, r, 0)
      = Some (d', r, 8 - snd (fold_left (fen_file b r) (zrange f n) (row, ec)))
      /\ fen_inv b r 8 d'
      /\ 0 <= snd (fold_left (fen_file b r) (zrange f n) (row, ec)) <= 8.
Proof.
  intros Hr. induction n as [|n IH]; intros f row ec d Hec Hn P I.
  - assert (f = 8) by lia. subst f. exists d. cbn [zrange fold_left fst snd].
    repeat split; auto; lia.
  - cbn [zrange fold_left].
    destruct (dict.get (pieces b) (r * 8 + f)) as [p|] eqn:G.
    + rewrite (fen_file_some _ _ _ _ _ _ G).
      apply (IH (f + 1) _ 0 (dict.setitem d (r * 8 + f) p)); [lia | lia | |].
      * rewrite place_all_app.
        destruct (ec >? 0) eqn:E.
        -- rewrite place_all_app, P, place_all_count by lia.
           rewrite place_all_piece.
           replace (f - ec + ec) with f by lia.
           replace (f + 1 - 0) with (f + 1) by lia. reflexivity.
        -- assert (ec = 0) by lia. subst ec.
           rewrite P, place_all_piece.
           replace (f - 0) with f by lia.
           replace (f + 1 - 0) with (f + 1) by lia. reflexivity.
      * apply fen_inv_put; auto; lia.
    + rewrite (fen_file_none _ _ _ _ _ G).
      apply (IH (f + 1) _ (ec + 1) d); [lia | lia | |].
      * rewrite P. replace (f + 1 - (ec + 1)) with (f - ec) by lia. reflexivity.
      * apply fen_inv_skip; auto; lia.
Qed.

Lemma fen_row_parse (b : Board) (r : Z) (d0 : dict.t Piece) :
  0 <= r <= 7 -> fen_inv b r 0 d0 ->
  exists d, place_all (fen_row b r) (d0, r, 0) = Some (d, r, 8) /\ fen_inv b r 8 d.
Proof.
  intros Hr I.
  destruct (fen_row_fold b r d0 8 Hr 0 "" 0 d0) as (d & P & I' & Hec);
    [lia | lia | reflexivity | exact I |].
  unfold fen_row. change [0; 1; 2; 3; 4; 5; 6; 7] with (zrange 0 8).
  destruct (fold_left (fen_file b r) (zrange 0 8) ("", 0)) as [row ec].
  cbn [fst snd] in P, Hec. exists d. split; [|exact I'].
  destruct (ec >? 0) eqn:E.
  - rewrite place_all_app, P, place_all_count by lia.
    replace (8 - ec + ec) with 8 by lia. reflexivity.
  - assert (ec = 0) by lia. subst ec. exact P.
Qed.

Lemma fen_placement_parse (b : Board) :
  exists d,
    place_all (fen_placement b) (dict.empty, 7, 0) = Some (d, 0, 8)
    /\ fen_inv b 0 8 d.
Proof.
  change (fen_placement b)
    with (String.append (fen_row b 7) (String "/"
         (String.append (fen_row b 6) (String "/"
         (String.append (fen_row b 5) (String "/"
         (String.append (fen_row b 4) (String "/"
         (String.append (fen_row b 3) (String "/"
         (String.append (fen_row b 2) (String "/"
         (String.append (fen_row b 1) (String "/"
         (fen_row b 0))))))))))))))).
  destruct (fen_row_parse b 7 dict.empty) as (d7 & P7 & I7);
    [lia | apply fen_inv_init |].
  rewrite place_all_app, P7, place_all_slash.
  apply fen_inv_next in I7; [|lia].
  destruct (fen_row_parse b 6 d7) as (d6 & P6 & I6); [lia | exact I7 |].
  rewrite place_all_app. change (7 - 1) with 6. rewrite P6, place_all_slash.
  apply fen_inv_next in I6; [|lia].
  destruct (fen_row_parse b 5 d6) as (d5 & P5 & I5); [lia | exact I6 |].
  rewrite place_all_app. change (6 - 1) with 5. rewrite P5, place_all_slash.
  apply fen_inv_next in I5; [|lia].
  destruct (fen_row_parse b 4 d5) as (d4 & P4 & I4); [lia | exact I5 |].
  rewrite place_all_app. change (5 - 1) with 4. rewrite P4, place_all_slash.
  apply fen_inv_next in I4; [|lia].
  destruct (fen_row_parse b 3 d4) as (d3 & P3 & I3); [lia | exact I4 |].
  rewrite place_all_app. change (4 - 1) with 3. rewrite P3, place_all_slash.
  apply fen_inv_next in I3; [|lia].
  destruct (fen_row_parse b 2 d3) as (d2 & P2 & I2); [lia | exact I3 |].
  rewrite place_all_app. change (3 - 1) with 2. rewrite P2, place_all_slash.
  apply fen_inv_next in I2; [|lia].
  destruct (fen_row_parse b 1 d2) as (d1 & P1 & I1); [lia | exact I2 |].
  rewrite place_all_app. change (2 - 1) with 1. rewrite P1, place_all_slash.
  apply fen_inv_next in I1; [|lia].
  destruct (fen_row_parse b 0 d1) as (d0 & P0 & I0); [lia | exact I1 |].
  change (1 - 1) with 0. exists d0. split; assumption.
Qed.

Lemma fen_placement_token (b : Board) :
  fen_placement b <> "" /\ nospace (fen_placement b) = true.
Proof.
  destruct (fen_placement_parse b) as (d & P & _). split.
  - change (fen_placement b)
      with (String.append (fen_row b 7) (String "/"
              (String.concat "/" (map (fen_row b) [6; 5; 4; 3; 2; 1; 0])))).
    destruct (fen_row b 7); discriminate.
  - eapply place_all_nospace; eauto.
Qed.

Lemma name_token_check :
  forallb (fun n => nospace (name (mkSquare (Z.of_nat n)))
                    && negb (String.eqb (name (mkSquare (Z.of_nat n))) "-")
                    && negb (String.eqb (name (mkSquare (Z.of_nat n))) ""))
          (seq 0 64) = true.
Proof. vm_compute. reflexivity. Qed.

Lemma name_token (s : Square) :
  on_board s ->
  name s <> "" /\ nospace (name s) = true /\ String.eqb (name s) "-" = false.
Proof.
  intros H. apply on_board_enum in H. destruct H as (n & Hn & ->).
  pose proof (proj1 (forallb_forall _ _) name_token_check n Hn) as C.
  cbv beta in C. apply andb_true_iff in C. destruct C as [C C3].
  apply andb_true_iff in C. destruct C as [C1 C2].
  apply negb_true_iff in C2, C3. repeat split; auto.
  intros E. rewrite E in C3. discriminate.
Qed.

Lemma split_fields (a b c d e f : string) :
  a <> "" -> nospace a = true -> b <> "" -> nospace b = true ->
  c <> "" -> nospace c = true -> d <> "" -> nospace d = true ->
  e <> "" -> nospace e = true -> f <> "" -> nospace f = true ->
  py.split (py.fstr [a; " "; b; " "; c; " "; d; " "; e; " "; f])
  = [a; b; c; d; e; f].
Proof.
  intros. unfold py.split.
  change (py.fstr [a; " "; b; " "; c; " "; d; " "; e; " "; f])
    with (String.append a (String " "
         (String.append b (String " "
         (String.append c (String " "
         (String.append d (String " "
         (String.append e (String " " f)))))))))).
  rewrite !split_aux_field by assumption.
  now rewrite split_aux_last by assumption.
Qed.

(** X29 — a position written by [to_fen] is read back by [from_fen].  When
    the castling field is ASCII text without whitespace other than the
    placeholder (possibly empty), so that the whole FEN is ASCII, and the
    en-passant square, if any, is on the board, [from_fen]
    applied to [to_fen b] succeeds; the board it returns has the pieces of
    [b] on every square of the board and no other, in a dictionary with
    distinct keys, and the side to move, castling rights, en-passant square
    and both counters of [b]. *)
Theorem fen_round_trip (b : Board) :
  castling_token (castling_rights b) ->
  (forall s, en_passant b = Some s -> on_board s) ->
  exists b',
    from_fen (to_fen b) = Some b'
    /\ dict.wf (pieces b')
    /\ (forall s, on_board s -> get b' s = get b s)
    /\ (forall s, ~ on_board s -> get b' s = None)
    /\ turn b' = turn b
    /\ castling_rights b' = castling_rights b
    /\ en_passant b' = en_passant b
    /\ halfmove_clock b' = halfmove_clock b
    /\ fullmove_number b' = fullmove_number b.
Proof.
  intros (_ & Hc1 & Hc2) Hep.
  destruct (fen_placement_parse b) as (d & P & I).
  destruct (fen_placement_token b) as [Hp1 Hp2].
  destruct (str_of_int_token (halfmove_clock b)) as [Hh1 Hh2].
  destruct (str_of_int_token (fullmove_number b)) as [Hf1 Hf2].
  set (c := if negb (String.eqb (castling_rights b) "")
            then castling_rights b else "-").
  set (e := match en_passant b with Some s => name s | None => "-" end).
  assert (Hc : c <> "" /\ nospace c = true
               /\ (if negb (String.eqb c "-") then c else "") = castling_rights b).
  { unfold c. destruct (String.eqb_spec (castling_rights b) "") as [E | E]; simpl.
    - rewrite E. repeat split. discriminate.
    - repeat split; auto.
      destruct (String.eqb_spec (castling_rights b) "-"); [contradiction | reflexivity]. }
  destruct Hc as (Hc3 & Hc4 & Hc5).
  assert (He : e <> "" /\ nospace e = true
               /\ (if negb (String.eqb e "-")
                   then option_map Some (from_algebraic e) else Some None)
                  = Some (en_passant b)).
  { unfold e. destruct (en_passant b) as [s|] eqn:E.
    - destruct (name_token s (Hep s eq_refl)) as (N1 & N2 & N3).
      repeat split; auto. rewrite N3. cbn [negb].
      rewrite from_algebraic_name by (apply Hep; reflexivity). reflexivity.
    - repeat split. discriminate. }
  destruct He as (He1 & He2 & He3).
  assert (Ht : Color_value (turn b) <> "" /\ nospace (Color_value (turn b)) = true
               /\ (if String.eqb (Color_value (turn b)) "w" then WHITE else BLACK)
                  = turn b).
  { destruct (turn b); repeat split; discriminate. }
  destruct Ht as (Ht1 & Ht2 & Ht3).
  exists (mkBoard d (turn b) (castling_rights b) (en_passant b)
                  (halfmove_clock b) (fullmove_number b)).
  split.
  - unfold from_fen, to_fen. fold c. fold e. cbv zeta.
    rewrite split_fields by assumption.
    rewrite P. cbn [nth_error].
    rewrite Ht3, Hc5, He3, !int_str_of_int. reflexivity.
  - cbn [pieces turn castling_rights en_passant halfmove_clock fullmove_number].
    split; [|split; [|split]]; [| | |repeat split].
    + apply (place_all_wf (fen_placement b) (dict.empty, 7, 0) (d, 0, 8));
        [apply NoDup_nil | exact P].
    + intros s Hs. unfold get. cbn [pieces]. rewrite I.
      replace (fen_done 0 8 (index s)) with true; [reflexivity|].
      symmetry. apply fen_done_spec. unfold on_board in Hs. lia.
    + intros s Hs. unfold get. cbn [pieces]. rewrite I.
      replace (fen_done 0 8 (index s)) with false; [reflexivity|].
      symmetry. apply not_true_is_false. rewrite fen_done_spec.
      unfold on_board in Hs. lia.
Qed.

Lemma fen_round_trip_witness :
  castling_token (castling_rights en_passant_board)
  /\ (forall s, en_passant en_passant_board = Some s -> on_board s)
  /\ exists b',
       from_fen (to_fen en_passant_board) = Some b'
       /\ dict.wf (pieces b')
       /\ (forall s, on_board s -> get b' s = get en_passant_board s)
       /\ (forall s, ~ on_board s -> get b' s = None)
       /\ turn b' = turn en_passant_board
       /\ castling_rights b' = castling_rights en_passant_board
       /\ en_passant b' = en_passant en_passant_board
       /\ halfmove_clock b' = halfmove_clock en_passant_board
       /\ fullmove_number b' = fullmove_number en_passant_board.
Proof.
  assert (H1 : castling_token (castling_rights en_passant_board))
    by (split; [reflexivity | split; [reflexivity | discriminate]]).
  assert (H2 : forall s, en_passant en_passant_board = Some s -> on_board s).
  { intros s E. injection E as <-. unfold on_board. simpl. lia. }
  split; [exact H1 | split; [exact H2 |]].
  exact (fen_round_trip en_passant_board H1 H2).
Defined.
